(** * InferAnki: the Speechify text-to-speech handler

    A shallow embedding of [InferAnki/functions/tts_handler.py]
    (class [SpeechifyTTSProcessor]) and the properties its specification
    states about it.

    - A Python [str] is a sequence of Unicode code points: [str := list N].
    - [re.sub] is modelled by a small backtracking matcher over the regular
      expression constructs the handler uses, with the priorities of
      Python's [re] engine (greedy and lazy repetition, optional groups,
      the [$] anchor), and a left-to-right scan for non-overlapping matches.
    - The host application (note record, media store, notifications, the
      file system and the vendor call) is a state threaded through a small
      state-and-exception monad. *)

From Stdlib Require Import Ascii String.
From Stdlib Require Import List NArith ZArith Arith Bool Lia.
Import ListNotations.

Set Implicit Arguments.

(* ================================================================== *)
(** * Python strings *)
(* ================================================================== *)

Module PyStr.

(** A character is a Unicode code point. *)
Definition char := N.
Definition str := list char.

Definition eqc (a b : char) : bool := N.eqb a b.

(** The code points of an ASCII literal. *)
Fixpoint lit (s : string) : str :=
  match s with
  | EmptyString => []
  | String a s' => N_of_ascii a :: lit s'
  end.

(** The code point of a one-character ASCII literal. *)
Definition chr (s : string) : char :=
  match s with
  | String a _ => N_of_ascii a
  | EmptyString => 0%N
  end.

(** [str.isspace] for one character, which is also what [\s] matches in a
    [str] pattern (both are CPython's [Py_UNICODE_ISSPACE]). *)
Definition is_space (c : char) : bool :=
  ((9 <=? c) && (c <=? 13) || (28 <=? c) && (c <=? 32)
   || eqc c 133 || eqc c 160 || eqc c 5760
   || (8192 <=? c) && (c <=? 8202)
   || eqc c 8232 || eqc c 8233 || eqc c 8239 || eqc c 8287
   || eqc c 12288)%N.

Fixpoint starts_with (w s : str) : bool :=
  match w, s with
  | [], _ => true
  | a :: w', b :: s' => eqc a b && starts_with w' s'
  | _ :: _, [] => false
  end.

(** [w in s] *)
Fixpoint contains (w s : str) : bool :=
  starts_with w s ||
  match s with
  | [] => false
  | _ :: t => contains w t
  end.

(** [s.lstrip()], [s.rstrip()], [s.strip()] *)
Fixpoint lstrip (s : str) : str :=
  match s with
  | c :: t => if is_space c then lstrip t else s
  | [] => []
  end.

Definition rstrip (s : str) : str := rev (lstrip (rev s)).

Definition strip (s : str) : str := rstrip (lstrip s).

(** [s.replace(old, new)] for a non-empty [old] (the handler never passes an
    empty one): the occurrences of [old] are found from left to right and do
    not overlap.  [skip] counts the characters of the current occurrence
    that are still to be passed over. *)
Fixpoint replace_from (old new : str) (skip : nat) (s : str) : str :=
  match s with
  | [] => []
  | c :: t =>
      match skip with
      | S k => replace_from old new k t
      | O =>
          if starts_with old s
          then new ++ replace_from old new (length old - 1) t
          else c :: replace_from old new 0 t
      end
  end.

Definition replace (old new s : str) : str := replace_from old new 0 s.

End PyStr.
Import PyStr.

(* ================================================================== *)
(** * Regular expressions: the fragment of [re] the handler uses *)
(* ================================================================== *)

Module Re.

(** Character sets are predicates; repetition is applied to character sets
    only, which is all the handler's patterns need. *)
Inductive regex : Type :=
| Eps
| Chr (p : char -> bool)        (* one character of a set *)
| Cat (r1 r2 : regex)
| Opt (r : regex)               (* r?  greedy *)
| Star (p : char -> bool)       (* p*  greedy *)
| Lazy (p : char -> bool)       (* p*? lazy *)
| Eol.                          (* $ without MULTILINE *)

(** Greedy [p*]: take as many characters as possible, give them back one
    at a time while the rest of the pattern ([k]) fails. *)
Fixpoint star_g (p : char -> bool) (k : str -> option str) (s : str)
  : option str :=
  match s with
  | c :: t =>
      if p c
      then match star_g p k t with
           | Some r => Some r
           | None => k s
           end
      else k s
  | [] => k []
  end.

(** Lazy [p*?]: try the rest of the pattern first, take one more character
    when it fails. *)
Fixpoint star_l (p : char -> bool) (k : str -> option str) (s : str)
  : option str :=
  match k s with
  | Some r => Some r
  | None =>
      match s with
      | c :: t => if p c then star_l p k t else None
      | [] => None
      end
  end.

(** [$] matches at the end of the string and just before a newline that
    ends it. *)
Definition at_eol (s : str) : bool :=
  match s with
  | [] => true
  | [c] => eqc c 10%N
  | _ => false
  end.

(** The backtracking matcher, in continuation-passing style: [m r k s]
    matches [r] at the start of [s] and hands what is left to [k]; the first
    alternative, in the engine's priority order, on which [k] succeeds is
    the result. *)
Fixpoint m (r : regex) (k : str -> option str) (s : str) : option str :=
  match r with
  | Eps => k s
  | Chr p =>
      match s with
      | c :: t => if p c then k t else None
      | [] => None
      end
  | Cat r1 r2 => m r1 (m r2 k) s
  | Opt r1 =>
      match m r1 k s with
      | Some x => Some x
      | None => k s
      end
  | Star p => star_g p k s
  | Lazy p => star_l p k s
  | Eol => if at_eol s then k s else None
  end.

(** [pattern.match] at the start of [s]: the text after the match. *)
Definition match_rest (r : regex) (s : str) : option str := m r Some s.

(** Length of the match at the start of [s]. *)
Definition match_len (r : regex) (s : str) : option nat :=
  match match_rest r s with
  | Some rest => Some (length s - length rest)
  | None => None
  end.

(** [re.sub(r, repl, s)] for a literal replacement: scan from left to
    right; at a match of length [n > 0] emit [repl] and pass over the [n]
    matched characters ([skip] counts those still to pass); otherwise copy
    one character.  An empty match emits [repl] and copies the character,
    as [re] does; none of the handler's patterns matches the empty string
    (lemma [patterns_never_match_empty]). *)
Fixpoint sub_from (r : regex) (repl : str) (skip : nat) (s : str) : str :=
  match s with
  | [] =>
      match match_len r [] with
      | Some _ => repl
      | None => []
      end
  | c :: t =>
      match skip with
      | S k => sub_from r repl k t
      | O =>
          match match_len r s with
          | Some (S n) => repl ++ sub_from r repl n t
          | Some O => repl ++ c :: sub_from r repl 0 t
          | None => c :: sub_from r repl 0 t
          end
      end
  end.

Definition sub (r : regex) (repl : str) (s : str) : str :=
  sub_from r repl 0 s.

(** ** Pattern syntax *)

Definition seq (l : list regex) : regex := fold_right Cat Eps l.

(** a literal character *)
Definition ch (s : string) : regex := Chr (eqc (chr s)).
(** [[^c]] *)
Definition not_ch (s : string) (c : char) : bool := negb (eqc (chr s) c).
(** [.] under DOTALL *)
Definition any (c : char) : bool := true.
(** [p+] *)
Definition Plus (p : char -> bool) : regex := Cat (Chr p) (Star p).
(** [p{n}] *)
Definition Times (n : nat) (p : char -> bool) : regex :=
  seq (repeat (Chr p) n).
(** [p{n,}] *)
Definition AtLeast (n : nat) (p : char -> bool) : regex :=
  Cat (Times n p) (Star p).
(** a literal word *)
Definition word (w : str) : regex := seq (map (fun c => Chr (eqc c)) w).

(** A lower-case ASCII letter under IGNORECASE: the characters whose
    lower case is the letter ([I] WITH DOT ABOVE for [i], KELVIN SIGN for
    [k]), and for [i] also DOTLESS I, which [re] adds as an equivalent. *)
Definition ci_eq (p c : char) : bool :=
  (eqc c p || eqc c (p - 32)
   || eqc p 105 && (eqc c 304 || eqc c 305)
   || eqc p 107 && eqc c 8490)%N.

Definition ci (s : string) : regex := Chr (ci_eq (chr s)).

(** a literal ASCII word under IGNORECASE *)
Definition ciword (s : string) : regex :=
  seq (map (fun c => Chr (ci_eq c)) (lit s)).

End Re.
Import Re.

(* ================================================================== *)
(** * Text normalization: [process_text_for_tts] without its effects *)
(* ================================================================== *)

Module Normalize.

Notation "x |> f" := (f x) (at level 45, left associativity, only parsing).

(** Code points outside ASCII that the handler names. *)
Definition bullet : char := 128312%N.     (* U+1F538, the bullet glyph *)
Definition mdash : char := 8212%N.        (* U+2014 *)
Definition ndash : char := 8211%N.        (* U+2013 *)
Definition langle : char := 10216%N.      (* U+27E8 *)
Definition rangle : char := 10217%N.      (* U+27E9 *)

Definition LONG_PAUSE : str := langle :: lit "LONG_PAUSE" ++ [rangle].
Definition MED_PAUSE : str := langle :: lit "MED_PAUSE" ++ [rangle].

(** [<br\s*/?>] (IGNORECASE) *)
Definition br : list regex :=
  [ch "<"; ci "b"; ci "r"; Star is_space; Opt (ch "/"); ch ">"].

(** [(?:<[^>]*>)?] followed by the bullet glyph *)
Definition bullet_start : list regex :=
  [Opt (seq [ch "<"; Star (not_ch ">"); ch ">"]); Chr (eqc bullet)].

(** [(?:<[^>]*>)?B.*?<br\s*/?>\s*<br\s*/?>] (IGNORECASE, DOTALL) *)
Definition re_bullet_block : regex :=
  seq (bullet_start ++ [Lazy any] ++ br ++ [Star is_space] ++ br).

(** [(?:<[^>]*>)?B.*$] (IGNORECASE, DOTALL) *)
Definition re_bullet_tail : regex :=
  seq (bullet_start ++ [Star any; Eol]).

(** [<br\s*/?>\s*<br\s*/?>] (IGNORECASE) *)
Definition re_br_br : regex := seq (br ++ [Star is_space] ++ br).

(** [<br\s*/?>] (IGNORECASE) *)
Definition re_br : regex := seq br.

(** [</NAME>\s*<NAME[^>]*>] (IGNORECASE) *)
Definition re_between (name : string) : regex :=
  seq [ch "<"; ch "/"; ciword name; ch ">"; Star is_space;
       ch "<"; ciword name; Star (not_ch ">"); ch ">"].

(** [</?NAME[^>]*>] (IGNORECASE) *)
Definition re_open_close (name : string) : regex :=
  seq [ch "<"; Opt (ch "/"); ciword name; Star (not_ch ">"); ch ">"].

(** [<[^>]+>] *)
Definition re_tag : regex := seq [ch "<"; Plus (not_ch ">"); ch ">"].

(** [\s*\|\s*] *)
Definition re_pipe : regex := seq [Star is_space; ch "|"; Star is_space].
(** [\s+-\s+] *)
Definition re_dash : regex := seq [Plus is_space; ch "-"; Plus is_space].
(** [\s*<\s*] and [\s*>\s*] *)
Definition re_lt : regex := seq [Star is_space; ch "<"; Star is_space].
Definition re_gt : regex := seq [Star is_space; ch ">"; Star is_space].

(** [\r?\n+] *)
Definition re_newlines : regex :=
  seq [Opt (Chr (eqc 13%N)); Plus (eqc 10%N)].

(** [\.{4,}], [\.{3}], [\.{2}] *)
Definition is_dot : char -> bool := eqc (chr ".").
Definition re_dots4 : regex := AtLeast 4 is_dot.
Definition re_dots3 : regex := Times 3 is_dot.
Definition re_dots2 : regex := Times 2 is_dot.

(** [\s+] *)
Definition re_spaces : regex := Plus is_space.

(** FIRST: the bullet blocks are removed. *)
Definition remove_bullets (s : str) : str :=
  s |> sub re_bullet_block []
    |> sub re_bullet_tail [].

(** SECOND: the table of named entities, in the order of the dict. *)
Definition html_entities : list (str * str) :=
  [ (lit "&nbsp;", lit " ");
    (lit "&amp;", lit "&");
    (lit "&quot;", [34%N]);
    (lit "&apos;", lit "'");
    (lit "&#39;", lit "'");
    (lit "&mdash;", [mdash]);
    (lit "&ndash;", [ndash]);
    (lit "&hellip;", lit "...");
    (lit "&rsquo;", lit "'");
    (lit "&lsquo;", lit "'");
    (lit "&rdquo;", [34%N]);
    (lit "&ldquo;", [34%N]) ].

(** [for entity, replacement in html_entities.items(): ...] *)
Definition decode_entities (s : str) : str :=
  fold_left (fun acc er => replace (fst er) (snd er) acc) html_entities s.

(** THIRD: line breaks, list items and divs become pauses and spaces. *)
Definition markup_pauses (s : str) : str :=
  s |> sub re_br_br (lit " ... ")
    |> sub re_br (lit " .. ")
    |> sub (re_between "li") (lit " .. ")
    |> sub (re_open_close "li") (lit " ")
    |> sub (re_open_close "ul") (lit " ")
    |> sub (re_open_close "ol") (lit " ")
    |> sub (re_between "div") (lit " .. ")
    |> sub (re_open_close "div") (lit " ").

(** FOURTH: the remaining tags are removed. *)
Definition strip_tags (s : str) : str := sub re_tag [] s.

(** FIFTH: the angle-bracket entities. *)
Definition decode_angles (s : str) : str :=
  s |> replace (lit "&lt;") (lit "<")
    |> replace (lit "&gt;") (lit ">").

(** SIXTH: pipes, spaced dashes and angle brackets become commas. *)
Definition pipe_pass (s : str) : str := sub re_pipe (lit ", ") s.
Definition dash_pass (s : str) : str := sub re_dash (lit ", ") s.
Definition angle_pass (s : str) : str :=
  s |> sub re_lt (lit ", ")
    |> sub re_gt (lit ", ").

Definition separators (s : str) : str :=
  s |> pipe_pass |> dash_pass |> angle_pass.

(** A pause after every line break. *)
Definition linebreaks (s : str) : str := sub re_newlines (lit " ... ") s.

(** Runs of dots become placeholders, longest first ... *)
Definition classify_dots (s : str) : str :=
  s |> sub re_dots4 LONG_PAUSE
    |> sub re_dots3 LONG_PAUSE
    |> sub re_dots2 MED_PAUSE.

(** ... and the placeholders become the pauses. *)
Definition resolve_placeholders (s : str) : str :=
  s |> sub (word LONG_PAUSE) (lit " ... ")
    |> sub (word MED_PAUSE) (lit " .. ").

Definition dot_runs (s : str) : str :=
  s |> classify_dots |> resolve_placeholders.

(** SEVENTH: whitespace. *)
Definition clean_whitespace (s : str) : str :=
  s |> sub re_spaces (lit " ") |> strip.

(** The text before the dot runs are looked at (lines 88 to 154). *)
Definition before_dots (text : str) : str :=
  strip text
    |> remove_bullets
    |> decode_entities
    |> markup_pauses
    |> strip_tags
    |> decode_angles
    |> separators
    |> linebreaks.

(** The value of [input_text] after line 167, for a non-empty [str]. *)
Definition normalized (text : str) : str :=
  before_dots text |> dot_runs |> clean_whitespace.

End Normalize.
Import Normalize.

(* ================================================================== *)
(** * The host: values, state and exceptions *)
(* ================================================================== *)

Module Host.

(** Exceptions carry their message: [str(e)]. *)
Inductive Exn : Type := Exception (msg : str).

Definition exn_msg (e : Exn) : str :=
  match e with Exception s => s end.

(** The values [process_text_for_tts] may be handed. *)
Inductive PyValue : Type :=
| PyNone
| PyBool (b : bool)
| PyInt (z : Z)
| PyStr (s : str)
| PyBytes (b : list N)
| PyList (l : list Z)
| PyObject (truth : bool)      (* any other object, with its truth value *)
| PyRaising (e : Exn).         (* an object whose [__bool__] or [__len__]
                                  raises [e] *)

(** [bool(v)] where the truth test returns; for [PyRaising] it does not,
    and [truth] below is what the code runs. *)
Definition truthy (v : PyValue) : bool :=
  match v with
  | PyNone => false
  | PyBool b => b
  | PyInt z => negb (Z.eqb z 0)
  | PyStr s => negb (Nat.eqb (length s) 0)
  | PyBytes b => negb (Nat.eqb (length b) 0)
  | PyList l => negb (Nat.eqb (length l) 0)
  | PyObject truth => truth
  | PyRaising _ => false
  end.

(** The truth test of [not v] and [if v]: the truth value, or the
    exception the test raises. *)
Definition truth (v : PyValue) : Exn + bool :=
  match v with
  | PyRaising e => inl e
  | _ => inr (truthy v)
  end.

(** [isinstance(v, str)] *)
Definition is_str (v : PyValue) : bool :=
  match v with
  | PyStr _ => true
  | _ => false
  end.

(** The speech rate is a float taken from the configuration.  The handler
    observes it twice: it compares it with [1.0] and it formats it in an
    f-string.  A rate is modelled by these two observations. *)
Record Rate : Type := {
  rate_is_one : bool;     (* speech_rate == 1.0 *)
  rate_text : str         (* str(speech_rate) *)
}.

(** [0.8], the default of [elevenlabs_speech_rate]. *)
Definition default_rate : Rate :=
  {| rate_is_one := false; rate_text := lit "0.8" |}.

Definition neutral_rate : Rate :=
  {| rate_is_one := true; rate_text := lit "1.0" |}.

(** The processor after [__init__]: the attributes the methods read. *)
Record Processor : Type := {
  enabled : bool;
  max_chars : N;
  api_key : str;
  voice_id : str;
  model : str;
  language_code : str;
  audio_format : str;
  loudness_normalization : bool;
  text_normalization : bool;
  speech_rate : Rate;
  debug_mode : bool        (* config.get("debug_mode", False) *)
}.

(** The configuration: the keys [__init__] reads, each of them optional. *)
Record Config : Type := {
  cfg_tts_enabled : option bool;
  cfg_tts_max_chars : option N;
  cfg_speechify_api_key : option str;
  cfg_speechify_voice_id : option str;
  cfg_tts_voice : option str;
  cfg_speechify_model : option str;
  cfg_speechify_language_code : option str;
  cfg_speechify_audio_format : option str;
  cfg_speechify_loudness_normalization : option bool;
  cfg_speechify_text_normalization : option bool;
  cfg_elevenlabs_speech_rate : option Rate;
  cfg_debug_mode : option bool
}.

(** [config.get(key, default)] *)
Definition config_get {A : Type} (value : option A) (default : A) : A :=
  match value with
  | Some v => v
  | None => default
  end.

(** A note: its fields in order, each with its name and its content.
    [note.fields[i]] is the content of the i-th field, [name in note] and
    [note[name]] go by name. *)
Definition Note := list (string * str).

Definition note_has (name : string) (n : Note) : bool :=
  existsb (fun f => String.eqb (fst f) name) n.

(** [note[name] = value] for a name the note has *)
Fixpoint note_set (name : string) (value : str) (n : Note) : Note :=
  match n with
  | [] => []
  | (k, v) :: rest =>
      if String.eqb k name then (k, value) :: rest
      else (k, v) :: note_set name value rest
  end.

Definition note_get (name : string) (n : Note) : option str :=
  option_map snd (find (fun f => String.eqb (fst f) name) n).

(** Messages of [showInfo] and [showCritical]. *)
Inductive Notice : Type :=
| Info (msg : str)
| Critical (msg : str).

(** Lines of the debug log. *)
Inductive LogLine : Type :=
| LogOriginal (timestamp : str) (text : str)
| LogProcessed (timestamp : str) (text : str).

(** What the vendor is asked. *)
Record SpeechRequest : Type := {
  req_audio_format : str;
  req_input : str;
  req_language : str;
  req_model : str;
  req_loudness_normalization : bool;
  req_text_normalization : bool;
  req_voice_id : str
}.

(** The part of the world the handler changes. *)
Record World : Type := {
  note : option Note;               (* editor.note, when the editor has one *)
  files : list (str * list N);      (* the files, by path *)
  media : list str;                 (* names in the media collection *)
  convert_log : list LogLine;       (* lines appended to convert.log *)
  notices : list Notice;            (* messages shown, oldest first *)
  reloads : nat                     (* calls of editor.loadNote() *)
}.

(** The part of the world the handler only reads, and how its calls into
    the world end. *)
Record Env : Type := {
  SPEECHIFY_AVAILABLE : bool;
  ANKI_AVAILABLE : bool;
  mw_col : bool;                            (* mw and mw.col are there *)
  has_loadNote : bool;                      (* hasattr(editor, 'loadNote') *)
  loadNote_fails : option Exn;
  speech : SpeechRequest -> Exn + list N;   (* the vendor call, decoded *)
  add_file : str -> Exn + str;              (* mw.col.media.addFile *)
  now_file : str;                           (* strftime('%y%m%d-%H%M%S') *)
  now_log : str;                            (* strftime("%Y-%m-%d %H:%M:%S") *)
  tempdir : str;                            (* tempfile.gettempdir() *)
  sep : char;                               (* os.sep *)
  makedirs_fails : option Exn;              (* os.makedirs(logs_dir) *)
  open_fails : str -> option Exn;           (* open(path, ...) *)
  write_fails : str -> option Exn;          (* f.write(...) on that path *)
  remove_fails : str -> option Exn          (* os.remove(path) *)
}.

(** ** The monad: state and exceptions *)

Inductive Result (A : Type) : Type :=
| Ok (a : A)
| Raised (e : Exn).
Arguments Raised {A} e.

Definition M (A : Type) : Type := World -> Result A * World.

Definition ret {A} (a : A) : M A := fun w => (Ok a, w).

Definition bind {A B} (c : M A) (f : A -> M B) : M B :=
  fun w =>
    match c w with
    | (Ok a, w') => f a w'
    | (Raised e, w') => (Raised e, w')
    end.

Definition raise {A} (e : Exn) : M A := fun w => (Raised e, w).

(** [try: c  except Exception as e: h e] *)
Definition try_except {A} (c : M A) (h : Exn -> M A) : M A :=
  fun w =>
    match c w with
    | (Ok a, w') => (Ok a, w')
    | (Raised e, w') => h e w'
    end.

Definition get : M World := fun w => (Ok w, w).
Definition put (w : World) : M unit := fun _ => (Ok tt, w).

Notation "x <- c ;; k" := (bind c (fun x => k))
  (at level 61, c at next level, right associativity).
Notation "c ;; k" := (bind c (fun _ => k))
  (at level 61, right associativity).

(** [if fails is an exception: raise it] *)
Definition check (fails : option Exn) : M unit :=
  match fails with
  | Some e => raise e
  | None => ret tt
  end.

Definition show_notice (n : Notice) : M unit :=
  fun w => (Ok tt,
            {| note := note w; files := files w; media := media w;
               convert_log := convert_log w;
               notices := notices w ++ [n]; reloads := reloads w |}).

Definition showInfo (msg : str) : M unit := show_notice (Info msg).
Definition showCritical (msg : str) : M unit := show_notice (Critical msg).

Definition set_note (n : option Note) : M unit :=
  fun w => (Ok tt,
            {| note := n; files := files w; media := media w;
               convert_log := convert_log w;
               notices := notices w; reloads := reloads w |}).

Definition set_files (fs : list (str * list N)) : M unit :=
  fun w => (Ok tt,
            {| note := note w; files := fs; media := media w;
               convert_log := convert_log w;
               notices := notices w; reloads := reloads w |}).

Definition add_media (name : str) : M unit :=
  fun w => (Ok tt,
            {| note := note w; files := files w; media := media w ++ [name];
               convert_log := convert_log w;
               notices := notices w; reloads := reloads w |}).

Definition append_log (l : LogLine) : M unit :=
  fun w => (Ok tt,
            {| note := note w; files := files w; media := media w;
               convert_log := convert_log w ++ [l];
               notices := notices w; reloads := reloads w |}).

Definition count_reload : M unit :=
  fun w => (Ok tt,
            {| note := note w; files := files w; media := media w;
               convert_log := convert_log w;
               notices := notices w; reloads := S (reloads w) |}).

Definition str_eqb (a b : str) : bool :=
  Nat.eqb (length a) (length b) && starts_with a b.

Definition file_exists (path : str) (fs : list (str * list N)) : bool :=
  existsb (fun f => str_eqb (fst f) path) fs.

Definition file_remove (path : str) (fs : list (str * list N))
  : list (str * list N) :=
  filter (fun f => negb (str_eqb (fst f) path)) fs.

Definition file_write (path : str) (data : list N) (fs : list (str * list N))
  : list (str * list N) :=
  (path, data) :: file_remove path fs.

(** [os.path.join(a, b)] for a relative [b] *)
Definition path_join (env : Env) (a b : str) : str :=
  match rev a with
  | [] => b
  | c :: _ => if eqc c (sep env) then a ++ b else a ++ sep env :: b
  end.

(** [os.path.basename(path)] *)
Fixpoint basename_from (env : Env) (acc path : str) : str :=
  match path with
  | [] => acc
  | c :: t => if eqc c (sep env) then basename_from env t t
              else basename_from env acc t
  end.

Definition basename (env : Env) (path : str) : str :=
  basename_from env path path.

(** [str(n)] for a length *)
Fixpoint digits (fuel n : nat) (acc : str) : str :=
  match fuel with
  | O => acc
  | S f =>
      let acc' := N.of_nat (48 + n mod 10) :: acc in
      if n / 10 =? 0 then acc' else digits f (n / 10) acc'
  end.

Definition str_of_nat (n : nat) : str := digits (S n) n [].

(** a result of an outside call: returned or raised *)
Definition call {A} (r : Exn + A) : M A :=
  match r with
  | inl e => raise e
  | inr a => ret a
  end.

End Host.
Import Host.

(* ================================================================== *)
(** * The methods of [SpeechifyTTSProcessor] *)
(* ================================================================== *)

Module Handler.

(** The voices [__init__] knows; all of them fall back to one vendor
    voice. *)
Definition norwegian_voices : list (str * str) :=
  map (fun name => (lit name, lit "scott"))
      ["Emma"; "Rachel"; "Domi"; "Bella"; "Antoni"; "Josh"; "Arnold";
       "Adam"; "Sam"]%string.

Definition lookup_voice (name : str) : option str :=
  option_map snd (find (fun v => str_eqb (fst v) name) norwegian_voices).

(** [__init__(self, config)] *)
Definition init (env : Env) (config : Config) : M Processor :=
  let voice_id0 := config_get (cfg_speechify_voice_id config) (lit "scott") in
  let voice_name := config_get (cfg_tts_voice config) (lit "Emma") in
  let api_key0 := config_get (cfg_speechify_api_key config) [] in
  let with_enabled (e : bool) : Processor :=
    {| enabled := e;
       max_chars := config_get (cfg_tts_max_chars config) 40000%N;
       api_key := api_key0;
       voice_id :=
         if negb (truthy (PyStr voice_id0)) || str_eqb voice_id0 (lit "scott")
         then match lookup_voice voice_name with
              | Some v => v
              | None => lit "scott"
              end
         else voice_id0;
       model := config_get (cfg_speechify_model config)
                  (lit "simba-multilingual");
       language_code := config_get (cfg_speechify_language_code config)
                          (lit "nb-NO");
       audio_format := config_get (cfg_speechify_audio_format config)
                         (lit "mp3");
       loudness_normalization :=
         config_get (cfg_speechify_loudness_normalization config) true;
       text_normalization :=
         config_get (cfg_speechify_text_normalization config) true;
       speech_rate := config_get (cfg_elevenlabs_speech_rate config)
                        default_rate;
       debug_mode := config_get (cfg_debug_mode config) false |} in
  if negb (SPEECHIFY_AVAILABLE env)
  then showCritical (lit "Speechify TTS requires 'speechify-api' library") ;;
       ret (with_enabled false)
  else if negb (truthy (PyStr api_key0))
          || str_eqb api_key0 (lit "your-api-key-here")
  then (if config_get (cfg_debug_mode config) false
        then showInfo (lit "Speechify API key not configured in config.json")
        else ret tt) ;;
       ret (with_enabled (config_get (cfg_tts_enabled config) true))
  else ret (with_enabled (config_get (cfg_tts_enabled config) true)).

Section Methods.

Variable self : Processor.
Variable env : Env.

(** [r"a:\KODEKRAFT\PROJECTS\InferAnki\logs"] *)
Definition logs_dir : str :=
  lit "a:" ++ 92%N :: lit "KODEKRAFT" ++ 92%N :: lit "PROJECTS" ++ 92%N
      :: lit "InferAnki" ++ 92%N :: lit "logs".

(** The body of the [try] of the debug log (lines 172 to 178). *)
Definition write_debug_log (text input_text : str) : M unit :=
  check (makedirs_fails env) ;;
  let log_file := path_join env logs_dir (lit "convert.log") in
  let timestamp := now_log env in
  check (open_fails env log_file) ;;
  check (write_fails env log_file) ;;
  append_log (LogOriginal timestamp text) ;;
  check (write_fails env log_file) ;;
  append_log (LogProcessed timestamp input_text).

(** [f'<prosody rate="{self.speech_rate}">{input_text}</prosody>'] *)
Definition prosody_open (r : Rate) : str :=
  lit "<prosody rate=" ++ 34%N :: rate_text r ++ 34%N :: lit ">".
Definition prosody_close : str := lit "</prosody>".
Definition prosody (r : Rate) (input_text : str) : str :=
  prosody_open r ++ input_text ++ prosody_close.

(** [process_text_for_tts(self, text)] *)
Definition process_text_for_tts (text : PyValue) : M str :=
  is_true <- call (truth text) ;;        (* [not text], before any [try] *)
  if negb is_true || negb (is_str text) then ret []
  else
    match text with
    | PyStr t =>
        let input_text := normalized t in
        (if debug_mode self
         then try_except (write_debug_log t input_text) (fun _ => ret tt)
         else ret tt) ;;
        let input_text :=
          if negb (rate_is_one (speech_rate self))
          then prosody (speech_rate self) input_text
          else input_text in
        match input_text with
        | [] => ret []
        | _ => ret input_text
        end
    | _ => ret []
    end.

(** [create_audio_file(self, text)]: the path of the file, or [None] *)
Definition create_audio_file (text : str) : M (option str) :=
  if negb (enabled self) || negb (SPEECHIFY_AVAILABLE env) then ret None
  else
    try_except
      (processed_text <- process_text_for_tts (PyStr text) ;;
       match processed_text, strip processed_text with
       | [], _ | _, [] => ret None
       | _, _ =>
           audio_bytes <-
             call (speech env
                     {| req_audio_format := audio_format self;
                        req_input := processed_text;
                        req_language := language_code self;
                        req_model := model self;
                        req_loudness_normalization :=
                          loudness_normalization self;
                        req_text_normalization := text_normalization self;
                        req_voice_id := voice_id self |}) ;;
           let filename :=
             lit "inferanki-speechify-tts-" ++ now_file env
                 ++ lit "." ++ audio_format self in
           let temp_path := path_join env (tempdir env) filename in
           check (open_fails env temp_path) ;;
           w <- get ;;
           set_files (file_write temp_path [] (files w)) ;;
           check (write_fails env temp_path) ;;
           w <- get ;;
           set_files (file_write temp_path audio_bytes (files w)) ;;
           ret (Some temp_path)
       end)
      (fun e =>
         showCritical (lit "Error creating Speechify TTS audio: "
                           ++ exn_msg e) ;;
         ret None).

(** [get_field_content(self, editor)] *)
Definition get_field_content : M str :=
  try_except
    (w <- get ;;
     match note w with
     | Some n =>
         if 1 <? length n then ret (snd (nth 1 n (EmptyString, [])))
         else ret []
     | None => ret []
     end)
    (fun e =>
       (if debug_mode self
        then showCritical (lit "Error getting field content: " ++ exn_msg e)
        else ret tt) ;;
       ret []).

Definition audio_fields : list string :=
  ["Audio"; "audio"; "Sound"; "sound"]%string.

(** The first of [audio_fields] that the note has. *)
Definition find_audio_field (n : Note) : option string :=
  find (fun field => note_has field n) audio_fields.

(** [clear_audio_field(self, editor)] *)
Definition clear_audio_field : M unit :=
  try_except
    (w <- get ;;
     match note w with
     | Some n =>
         match find_audio_field n with
         | Some field => set_note (Some (note_set field [] n))
         | None => ret tt
         end
     | None => ret tt
     end)
    (fun _ => ret tt).

(** [add_audio_to_note(self, editor, audio_path)] *)
Definition add_audio_to_note (audio_path : str) : M bool :=
  try_except
    (w <- get ;;
     if negb (file_exists audio_path (files w))
     then showCritical (lit "Audio file not found") ;; ret false
     else
       let filename := basename env audio_path in
       media_name <-
         (if mw_col env
          then name <- call (add_file env audio_path) ;;
               add_media name ;;
               ret name
          else showInfo (lit "TEST MODE: Would add audio file " ++ filename) ;;
               ret filename) ;;
       w <- get ;;
       match note w with
       | Some n =>
           match find_audio_field n with
           | Some audio_field =>
               let audio_tag := lit "[sound:" ++ media_name ++ lit "]" in
               set_note (Some (note_set audio_field audio_tag n)) ;;
               ret true
           | None =>
               showCritical
                 (lit "No audio field found (looking for: Audio, audio, Sound, sound)") ;;
               ret false
           end
       | None => ret false
       end)
    (fun e =>
       showCritical (lit "Error adding audio to note: " ++ exn_msg e) ;;
       ret false).

(** [os.remove(path)] *)
Definition os_remove (path : str) : M unit :=
  check (remove_fails env path) ;;
  w <- get ;;
  if file_exists path (files w)
  then set_files (file_remove path (files w))
  else raise (Exception (lit "No such file or directory")).

(** [process_text(self, editor)] *)
Definition process_text : M bool :=
  if negb (enabled self)
  then showInfo (lit "Speechify TTS is disabled in configuration") ;;
       ret false
  else if negb (SPEECHIFY_AVAILABLE env)
  then showCritical (lit "Speechify TTS requires 'speechify-api' library") ;;
       ret false
  else if negb (truthy (PyStr (api_key self)))
          || str_eqb (api_key self) (lit "your-api-key-here")
  then showCritical
         (lit "Speechify API key not configured. Please add 'speechify_api_key' to config.json") ;;
       ret false
  else
    try_except
      (text <- get_field_content ;;
       match text, strip text with
       | [], _ | _, [] =>
           showInfo
             (lit "Field 2 (index 1) is empty. Please add text to generate TTS audio.") ;;
           ret false
       | _, _ =>
           if (max_chars self <? N.of_nat (length text))%N
           then showCritical
                  (lit "Text too long (" ++ str_of_nat (length text)
                       ++ lit " chars). Max allowed: "
                       ++ str_of_nat (N.to_nat (max_chars self))) ;;
                ret false
           else
             clear_audio_field ;;
             audio_path <- create_audio_file text ;;
             match audio_path with
             | None | Some [] =>
                 showCritical (lit "Failed to create audio file") ;;
                 ret false
             | Some audio_path =>
                 success <- add_audio_to_note audio_path ;;
                 if success
                 then
                   (if ANKI_AVAILABLE env && has_loadNote env
                    then check (loadNote_fails env) ;; count_reload
                    else ret tt) ;;
                   try_except (os_remove audio_path) (fun _ => ret tt) ;;
                   ret true
                 else
                   showCritical (lit "Failed to add audio to note") ;;
                   ret false
             end
       end)
      (fun e =>
         showCritical (lit "Speechify TTS processing error: " ++ exn_msg e) ;;
         ret false).

End Methods.

End Handler.
Import Handler.

(* ================================================================== *)
(** * Notions the properties are stated with *)
(* ================================================================== *)

Module Props.

(** What a successful match has consumed: [den r pre rest] says that [pre]
    is a word of [r] when [rest] follows it. *)
Fixpoint den (r : regex) (pre rest : str) : Prop :=
  match r with
  | Eps => pre = []
  | Chr p => exists c, pre = [c] /\ p c = true
  | Cat r1 r2 =>
      exists a b, pre = a ++ b /\ den r1 a (b ++ rest) /\ den r2 b rest
  | Opt r1 => pre = [] \/ den r1 pre rest
  | Star p => forallb p pre = true
  | Lazy p => forallb p pre = true
  | Eol => pre = [] /\ at_eol rest = true
  end.

(** Where the pattern matches nowhere, nothing changes. *)
Definition no_match (r : regex) (s : str) : Prop :=
  forall a t, s = a ++ t -> match_rest r t = None.

(** [c] is a character of [x]. *)
Definition char_of (x : str) (c : char) : bool := existsb (eqc c) x.

(** [w] and [x] have no character in common. *)
Definition apart (w x : str) : bool :=
  forallb (fun c => negb (char_of x c)) w.

Definition lt : char := chr "<".



(** The returned string as a function of the speech rate and the text. *)
Definition tts_output (rate : Rate) (text : PyValue) : str :=
  match text with
  | PyStr (c :: t) =>
      if rate_is_one rate then normalized (c :: t)
      else prosody rate (normalized (c :: t))
  | _ => []
  end.


(** ** The dot runs, as the specification words them

    A maximal run of periods is replaced as a whole: a run of three or
    more by the long pause, a run of two by the short pause, and a lone
    period stays.  [n] counts the periods of the run being read. *)
Definition dot : char := chr ".".

Definition run_marker (long short : str) (n : nat) : str :=
  match n with
  | 0 => []
  | 1 => [dot]
  | 2 => short
  | _ => long
  end.

Fixpoint classify_runs (long short : str) (n : nat) (s : str) : str :=
  match s with
  | [] => run_marker long short n
  | c :: t =>
      if is_dot c then classify_runs long short (S n) t
      else run_marker long short n ++ c :: classify_runs long short 0 t
  end.

(** with the placeholders *)
Definition placeholder_runs (s : str) : str :=
  classify_runs LONG_PAUSE MED_PAUSE 0 s.

(** with the pauses *)
Definition pause_runs (s : str) : str :=
  classify_runs (lit " ... ") (lit " .. ") 0 s.

(** What follows a maximal run is not a period. *)
Definition run_ends (y : str) : Prop :=
  match y with [] => True | c :: _ => is_dot c = false end.

(** The patterns of [process_text_for_tts], in the order of the source. *)
Definition patterns : list regex :=
  [ re_bullet_block; re_bullet_tail; re_br_br; re_br;
    re_between "li"; re_open_close "li"; re_open_close "ul";
    re_open_close "ol"; re_between "div"; re_open_close "div";
    re_tag; re_pipe; re_dash; re_lt; re_gt; re_newlines;
    re_dots4; re_dots3; re_dots2;
    word LONG_PAUSE; word MED_PAUSE; re_spaces ].

(** The pattern can only match where a character of [f] stands. *)
Definition starts_in (r : regex) (f : char -> bool) : Prop :=
  forall c u, f c = false -> match_rest r (c :: u) = None.

(** ** Hyphens and the whitespace around them *)
Definition hyphen : char := chr "-".
Definition not_hyphen (c : char) : bool := negb (eqc hyphen c).

Definition starts_with_space (b : str) : bool :=
  match b with
  | c :: _ => is_space c
  | [] => false
  end.

Definition ends_with_space (a : str) : bool := starts_with_space (rev a).

(** ** Plain text *)

(** whitespace, a hyphen, whitespace *)
Fixpoint spaced_hyphen (s : str) : bool :=
  match s with
  | a :: t =>
      match t with
      | b :: c :: _ => is_space a && eqc hyphen b && is_space c
      | _ => false
      end || spaced_hyphen t
  | [] => false
  end.

(** The characters the specification calls special: angle brackets, the
    pipe and the newline. *)
Definition special (c : char) : bool :=
  eqc (chr "<") c || eqc (chr ">") c || eqc (chr "|") c || eqc 10%N c.

(** The entities of the table and the two of the angle brackets. *)
Definition all_entities : list str :=
  map fst html_entities ++ [lit "&lt;"; lit "&gt;"].

(** No markup, no entity, no special character, no spaced hyphen and no
    run of periods. *)
Definition plain_as_specified (s : str) : bool :=
  forallb (fun c => negb (special c)) s
  && forallb (fun e => negb (contains e s)) all_entities
  && negb (spaced_hyphen s)
  && negb (contains (lit "..") s).

(** ... and neither the bullet glyph nor one of the handler's own
    placeholders. *)
Definition plain (s : str) : bool :=
  plain_as_specified s
  && forallb (fun c => negb (eqc bullet c)) s
  && negb (contains LONG_PAUSE s)
  && negb (contains MED_PAUSE s).

(** Every hyphen has whitespace on both sides; [prev] says that the
    character before is whitespace. *)
Fixpoint hyphens_spaced (prev : bool) (s : str) : bool :=
  match s with
  | [] => true
  | c :: t =>
      (if eqc hyphen c then prev && starts_with_space t else true)
      && hyphens_spaced (is_space c) t
  end.

(** ** Whitespace, as the specification words it *)

(** [s.split()]: the maximal runs of characters that are not whitespace;
    [cur] is the run being read. *)
Fixpoint split_ws (cur : str) (s : str) : list str :=
  match s with
  | [] =>
      match cur with
      | [] => []
      | _ => [cur]
      end
  | c :: t =>
      if is_space c
      then match cur with
           | [] => split_ws [] t
           | _ => cur :: split_ws [] t
           end
      else split_ws (cur ++ [c]) t
  end.

(** [sep.join(ws)] *)
Fixpoint join (sep : str) (ws : list str) : str :=
  match ws with
  | [] => []
  | w :: rest =>
      match rest with
      | [] => w
      | _ => w ++ sep ++ join sep rest
      end
  end.

(** Runs of whitespace collapsed to single spaces, leading and trailing
    whitespace trimmed: [" ".join(s.split())]. *)
Definition collapse_whitespace (s : str) : str :=
  join (lit " ") (split_ws [] s).

(** The substitution of [\s+] by a space, character by character;
    [in_run] says that the character before was whitespace. *)
Fixpoint squeeze (in_run : bool) (s : str) : str :=
  match s with
  | [] => []
  | c :: t =>
      if is_space c
      then if in_run then squeeze true t else 32%N :: squeeze true t
      else c :: squeeze false t
  end.

(** Every word of the pattern has a character of [f]: some factor of the
    pattern is a single character of [f]. *)
Fixpoint requires (f : char -> bool) (r : regex) : Prop :=
  match r with
  | Chr p => forall c, p c = true -> f c = true
  | Cat r1 r2 => requires f r1 \/ requires f r2
  | _ => False
  end.

(** ** What a call may do to the note *)

(** The note afterwards is the note before, or the note before with a new
    content in the first of the audio fields it has. *)
Definition audio_field_only (before after : option Note) : Prop :=
  after = before
  \/ exists n f v,
       before = Some n /\ find_audio_field n = Some f
       /\ after = Some (note_set f v n).

Definition touches_audio_only {A : Type} (c : M A) : Prop :=
  forall w, audio_field_only (note w) (note (snd (c w))).

Definition keeps_note {A : Type} (c : M A) : Prop :=
  forall w, note (snd (c w)) = note w.

(** The content of field 2, as [get_field_content] reads it. *)
Definition field_content (w : World) : str :=
  match note w with
  | Some n => if 1 <? length n then snd (nth 1 n (EmptyString, [])) else []
  | None => []
  end.

(** The checks of [process_text] that come before the audio field is
    cleared: one of them fails. *)
Definition rejected_early (self : Processor) (env : Env) (w : World) : bool :=
  negb (enabled self)
  || negb (SPEECHIFY_AVAILABLE env)
  || negb (truthy (PyStr (api_key self)))
  || str_eqb (api_key self) (lit "your-api-key-here")
  || match field_content w, strip (field_content w) with
     | [], _ | _, [] => true
     | _, _ => (max_chars self <? N.of_nat (length (field_content w)))%N
     end.

(** The note with [v] in the first audio field it has. *)
Definition with_audio (v : str) (n : Note) : Note :=
  match find_audio_field n with
  | Some f => note_set f v n
  | None => n
  end.

(** [f"[sound:{media_name}]"] *)
Definition sound_tag (media_name : str) : str :=
  lit "[sound:" ++ media_name ++ lit "]".

(** ** The shape of the output *)

(** The only whitespace is the space, and it stands alone between two
    other characters. *)
Definition well_spaced (s : str) : bool :=
  forallb (fun c => negb (is_space c) || eqc 32%N c) s
  && negb (contains [32%N; 32%N] s)
  && negb (starts_with_space s)
  && negb (ends_with_space s).

(** neither the bullet glyph nor the pipe *)
Definition no_bullet_no_pipe (c : char) : bool :=
  negb (eqc bullet c) && negb (eqc (chr "|") c).

(** ** The audio file and the vendor *)

(** The path [create_audio_file] writes to. *)
Definition temp_path (self : Processor) (env : Env) : str :=
  path_join env (tempdir env)
    (lit "inferanki-speechify-tts-" ++ now_file env
         ++ lit "." ++ audio_format self).

(** What [create_audio_file] asks the vendor for the text [input]. *)
Definition speech_request (self : Processor) (input : str) : SpeechRequest :=
  {| req_audio_format := audio_format self;
     req_input := input;
     req_language := language_code self;
     req_model := model self;
     req_loudness_normalization := loudness_normalization self;
     req_text_normalization := text_normalization self;
     req_voice_id := voice_id self |}.

(** The content of the file at [path]. *)
Definition file_read (path : str) (fs : list (str * list N))
  : option (list N) :=
  option_map snd (find (fun f => str_eqb (fst f) path) fs).

(** The name the audio gets in the note: the one the media store gives, or
    the name of the file outside Anki; none when the media store raises. *)
Definition media_name_of (env : Env) (path : str) : option str :=
  if mw_col env
  then match add_file env path with
       | inr name => Some name
       | inl _ => None
       end
  else Some (basename env path).

(** [add_audio_to_note] can attach the audio: the file is there, the media
    store takes it, and the note has an audio field. *)
Definition can_attach (env : Env) (path : str) (w : World) : bool :=
  file_exists path (files w)
  && match media_name_of env path with Some _ => true | None => false end
  && match note w with
     | Some n =>
         match find_audio_field n with Some _ => true | None => false end
     | None => false
     end.

(** A command leaves a part of the state as it is. *)
Definition preserves {A X : Type} (part : World -> X) (c : M A) : Prop :=
  forall w, part (snd (c w)) = part w.

(** A command shows messages and takes none back. *)
Definition appends {A : Type} (c : M A) : Prop :=
  forall w, exists l, notices (snd (c w)) = notices w ++ l.


(** [editor.loadNote()] is called: inside Anki, on an editor that has it. *)
Definition reloads_editor (env : Env) : bool :=
  ANKI_AVAILABLE env && has_loadNote env.



(** The name of the file [create_audio_file] writes:
    [f"inferanki-speechify-tts-{now}.{self.audio_format}"]. *)
Definition temp_name (self : Processor) (env : Env) : str :=
  lit "inferanki-speechify-tts-" ++ now_file env
      ++ lit "." ++ audio_format self.

(** The debug log: [os.path.join(logs_dir, "convert.log")].  Its lines
    are kept in [convert_log], apart from [files]. *)
Definition log_file (env : Env) : str :=
  path_join env logs_dir (lit "convert.log").

(** [c] is not the path separator. *)
Definition not_sep (env : Env) (c : char) : bool := negb (eqc c (sep env)).

End Props.
Import Props.

(* ================================================================== *)
(** * Fixtures: a processor, an environment and a world *)
(* ================================================================== *)

Module Fixtures.

(** The configuration of the test suite. *)
Definition test_config : Config :=
  {| cfg_tts_enabled := Some true;
     cfg_tts_max_chars := Some 40000%N;
     cfg_speechify_api_key := Some (lit "test_api_key");
     cfg_speechify_voice_id := Some (lit "scott");
     cfg_tts_voice := Some (lit "Emma");
     cfg_speechify_model := Some (lit "simba-multilingual");
     cfg_speechify_language_code := Some (lit "nb-NO");
     cfg_speechify_audio_format := Some (lit "mp3");
     cfg_speechify_loudness_normalization := Some true;
     cfg_speechify_text_normalization := Some true;
     cfg_elevenlabs_speech_rate := Some default_rate;
     cfg_debug_mode := Some false |}.

(** The processor of the test suite: the defaults of [__init__], with the
    API key of the test configuration. *)
Definition proc_default : Processor :=
  {| enabled := true;
     max_chars := 40000;
     api_key := lit "test_api_key";
     voice_id := lit "scott";
     model := lit "simba-multilingual";
     language_code := lit "nb-NO";
     audio_format := lit "mp3";
     loudness_normalization := true;
     text_normalization := true;
     speech_rate := default_rate;
     debug_mode := false |}.

(** The same processor with the neutral speech rate [1.0]. *)
Definition proc_neutral : Processor :=
  {| enabled := true;
     max_chars := 40000;
     api_key := lit "test_api_key";
     voice_id := lit "scott";
     model := lit "simba-multilingual";
     language_code := lit "nb-NO";
     audio_format := lit "mp3";
     loudness_normalization := true;
     text_normalization := true;
     speech_rate := neutral_rate;
     debug_mode := false |}.

(** The same processor with the debug log on. *)
Definition proc_debug : Processor :=
  {| enabled := true;
     max_chars := 40000;
     api_key := lit "test_api_key";
     voice_id := lit "scott";
     model := lit "simba-multilingual";
     language_code := lit "nb-NO";
     audio_format := lit "mp3";
     loudness_normalization := true;
     text_normalization := true;
     speech_rate := default_rate;
     debug_mode := true |}.

(** Inside Anki, everything works: the vendor returns three bytes. *)
Definition env_ok : Env :=
  {| SPEECHIFY_AVAILABLE := true;
     ANKI_AVAILABLE := true;
     mw_col := true;
     has_loadNote := true;
     loadNote_fails := None;
     speech := fun _ => inr [73; 68; 51]%N;
     add_file := fun path => inr (lit "tts.mp3");
     now_file := lit "261103-120000";
     now_log := lit "2026-11-03 12:00:00";
     tempdir := lit "/tmp";
     sep := chr "/";
     makedirs_fails := None;
     open_fails := fun _ => None;
     write_fails := fun _ => None;
     remove_fails := fun _ => None |}.

(** The same, but the vendor call raises. *)
Definition env_vendor_down : Env :=
  {| SPEECHIFY_AVAILABLE := true;
     ANKI_AVAILABLE := true;
     mw_col := true;
     has_loadNote := true;
     loadNote_fails := None;
     speech := fun _ => inl (Exception (lit "503"));
     add_file := fun path => inr (lit "tts.mp3");
     now_file := lit "261103-120000";
     now_log := lit "2026-11-03 12:00:00";
     tempdir := lit "/tmp";
     sep := chr "/";
     makedirs_fails := None;
     open_fails := fun _ => None;
     write_fails := fun _ => None;
     remove_fails := fun _ => None |}.

(** Everything works but the reload of the editor, which raises. *)
Definition env_reload_fails : Env :=
  {| SPEECHIFY_AVAILABLE := true;
     ANKI_AVAILABLE := true;
     mw_col := true;
     has_loadNote := true;
     loadNote_fails := Some (Exception (lit "editor closed"));
     speech := fun _ => inr [73; 68; 51]%N;
     add_file := fun path => inr (lit "tts.mp3");
     now_file := lit "261103-120000";
     now_log := lit "2026-11-03 12:00:00";
     tempdir := lit "/tmp";
     sep := chr "/";
     makedirs_fails := None;
     open_fails := fun _ => None;
     write_fails := fun _ => None;
     remove_fails := fun _ => None |}.

(** A note with an older recording in its audio field. *)
Definition note_with_audio : Note :=
  [ ("Front"%string, lit "hello");
    ("Back"%string, lit "hei");
    ("Audio"%string, lit "[sound:old.mp3]") ].

(** A note without any of the audio fields. *)
Definition note_without_audio : Note :=
  [ ("Front"%string, lit "hello");
    ("Back"%string, lit "hei") ].

Definition world_of (n : Note) : World :=
  {| note := Some n; files := []; media := []; convert_log := [];
     notices := []; reloads := 0 |}.

(** A world with a recording on disk, ready to be attached. *)
Definition world_with_recording : World :=
  {| note := Some note_with_audio;
     files := [(lit "/tmp/a.mp3", [73; 68; 51]%N)];
     media := []; convert_log := []; notices := []; reloads := 0 |}.

(** A world with another file in the temporary directory. *)
Definition world_with_other_file : World :=
  {| note := Some note_with_audio;
     files := [(lit "/tmp/keep.txt", [104; 105]%N)];
     media := []; convert_log := []; notices := []; reloads := 0 |}.

(** Outside Anki, as in the test suite: no collection and no editor to
    reload. *)
Definition env_test_mode : Env :=
  {| SPEECHIFY_AVAILABLE := true;
     ANKI_AVAILABLE := false;
     mw_col := false;
     has_loadNote := false;
     loadNote_fails := None;
     speech := fun _ => inr [73; 68; 51]%N;
     add_file := fun path => inl (Exception (lit "no collection"));
     now_file := lit "261103-120000";
     now_log := lit "2026-11-03 12:00:00";
     tempdir := lit "/tmp";
     sep := chr "/";
     makedirs_fails := None;
     open_fails := fun _ => None;
     write_fails := fun _ => None;
     remove_fails := fun _ => None |}.

End Fixtures.
Import Fixtures.

(* ================================================================== *)
(** * Facts about strings *)
(* ================================================================== *)

Unset Implicit Arguments.

Module StrFacts.

Lemma eqc_eq (a b : char) : eqc a b = true <-> a = b.
Proof. apply N.eqb_eq. Qed.

Lemma eqc_refl (a : char) : eqc a a = true.
Proof. apply N.eqb_refl. Qed.

Lemma eqc_sym (a b : char) : eqc a b = eqc b a.
Proof. apply N.eqb_sym. Qed.

Lemma starts_with_spec (w s : str) :
  starts_with w s = true <-> exists t, s = w ++ t.
Proof.
  revert s; induction w as [|a w IH]; intros s; simpl.
  - split; [intros _; now exists s | reflexivity].
  - destruct s as [|b s]; simpl.
    + split; [discriminate | intros [t H]; discriminate].
    + rewrite andb_true_iff, eqc_eq, IH. split.
      * intros [-> [t ->]]. now exists t.
      * intros [t H]. injection H as -> ->. split; [reflexivity | now exists t].
Qed.

Lemma starts_with_app (w s : str) : starts_with w (w ++ s) = true.
Proof. apply starts_with_spec. now exists s. Qed.

Lemma contains_spec (w s : str) :
  contains w s = true <-> exists a b, s = a ++ w ++ b.
Proof.
  induction s as [|c s IH]; simpl.
  - rewrite orb_false_r, starts_with_spec. split.
    + intros [t H]. exists [], t. exact H.
    + intros [a [b H]]. destruct a; simpl in H.
      * now exists b.
      * discriminate.
  - rewrite orb_true_iff, starts_with_spec, IH. split.
    + intros [[t H] | [a [b H]]].
      * exists [], t. exact H.
      * exists (c :: a), b. simpl. now rewrite H.
    + intros [a [b H]]. destruct a as [|c' a]; simpl in H.
      * left. now exists b.
      * right. injection H as _ H. now exists a, b.
Qed.

Lemma contains_tail (w : str) (c : char) (t : str) :
  contains w (c :: t) = false -> contains w t = false.
Proof. simpl. intros H. now apply orb_false_elim in H. Qed.

Lemma contains_head (w : str) (c : char) (t : str) :
  contains w (c :: t) = false -> starts_with w (c :: t) = false.
Proof.
  intros H. change (starts_with w (c :: t) || contains w t = false) in H.
  now apply orb_false_elim in H.
Qed.

Lemma contains_cons (w : str) (c : char) (t : str) :
  contains w (c :: t) = starts_with w (c :: t) || contains w t.
Proof. reflexivity. Qed.

(** A word whose first character is not in [x] does not start in [x]. *)
Lemma starts_with_foreign (p : char -> bool) (w x y : str) :
  forallb p x = true -> x <> [] ->
  match w with [] => False | a :: _ => p a = false end ->
  starts_with w (x ++ y) = false.
Proof.
  intros Hx Hne Hw. destruct w as [|a w]; [contradiction|].
  destruct x as [|b x]; [contradiction|]. simpl in *.
  apply andb_true_iff in Hx as [Hb _].
  destruct (eqc a b) eqn:E; [|reflexivity].
  apply eqc_eq in E. subst. congruence.
Qed.

(** An occurrence of [w] in [x ++ y] lies in [y] when no character of [w]
    is in the set [p] that all of [x] is in. *)
Lemma contains_skip (p : char -> bool) (w x y : str) :
  forallb p x = true -> forallb (fun c => negb (p c)) w = true -> w <> [] ->
  contains w (x ++ y) = contains w y.
Proof.
  intros Hx Hw Hne. induction x as [|b x IH]; [reflexivity|].
  simpl in Hx. apply andb_true_iff in Hx as [Hb Hx].
  change ((b :: x) ++ y) with (b :: (x ++ y)).
  rewrite contains_cons, (IH Hx).
  destruct w as [|a w]; [contradiction|].
  simpl in Hw. apply andb_true_iff in Hw as [Ha _].
  simpl. destruct (eqc a b) eqn:E; [|reflexivity].
  apply eqc_eq in E. subst. rewrite Hb in Ha. discriminate.
Qed.

Lemma lstrip_spec (s : str) :
  exists w, s = w ++ lstrip s /\ forallb is_space w = true.
Proof.
  induction s as [|c s [w [E F]]]; simpl.
  - now exists [].
  - destruct (is_space c) eqn:Hc.
    + exists (c :: w). simpl. rewrite Hc, F. split; [now rewrite <- E | reflexivity].
    + now exists [].
Qed.

Lemma lstrip_head (s : str) :
  match lstrip s with [] => True | c :: _ => is_space c = false end.
Proof.
  induction s as [|c s IH]; simpl; [exact I|].
  destruct (is_space c) eqn:Hc; [exact IH | exact Hc].
Qed.

Lemma lstrip_app_spaces (w s : str) :
  forallb is_space w = true -> lstrip (w ++ s) = lstrip s.
Proof.
  induction w as [|c w IH]; simpl; [reflexivity|].
  intros H. apply andb_true_iff in H as [Hc Hw]. now rewrite Hc, IH.
Qed.

Lemma lstrip_fixed (s : str) :
  match s with [] => True | c :: _ => is_space c = false end -> lstrip s = s.
Proof. destruct s as [|c s]; simpl; [reflexivity|]. now intros ->. Qed.

Lemma lstrip_idem (s : str) : lstrip (lstrip s) = lstrip s.
Proof. apply lstrip_fixed, lstrip_head. Qed.

Lemma forallb_lstrip (p : char -> bool) (s : str) :
  forallb p s = true -> forallb p (lstrip s) = true.
Proof.
  destruct (lstrip_spec s) as [w [E _]]. intros H. rewrite E in H.
  rewrite forallb_app in H. now apply andb_true_iff in H.
Qed.

Lemma forallb_rev (p : char -> bool) (s : str) :
  forallb p (rev s) = forallb p s.
Proof.
  induction s as [|c s IH]; simpl; [reflexivity|].
  rewrite forallb_app, IH. simpl. rewrite andb_true_r. apply andb_comm.
Qed.

Lemma forallb_rstrip (p : char -> bool) (s : str) :
  forallb p s = true -> forallb p (rstrip s) = true.
Proof.
  intros H. unfold rstrip. rewrite forallb_rev. apply forallb_lstrip.
  now rewrite forallb_rev.
Qed.

Lemma forallb_strip (p : char -> bool) (s : str) :
  forallb p s = true -> forallb p (strip s) = true.
Proof. intros H. now apply forallb_rstrip, forallb_lstrip. Qed.

(** [rstrip] takes a run of whitespace off the end. *)
Lemma rstrip_spec (s : str) :
  exists w, s = rstrip s ++ w /\ forallb is_space w = true.
Proof.
  unfold rstrip. destruct (lstrip_spec (rev s)) as [w [E F]].
  exists (rev w). split.
  - rewrite <- rev_app_distr, <- E. now rewrite rev_involutive.
  - now rewrite forallb_rev.
Qed.

Lemma rstrip_app_spaces (s w : str) :
  forallb is_space w = true -> rstrip (s ++ w) = rstrip s.
Proof.
  intros H. unfold rstrip. rewrite rev_app_distr, lstrip_app_spaces;
    [reflexivity | now rewrite forallb_rev].
Qed.

Lemma rstrip_snoc (s : str) (c : char) :
  is_space c = false -> rstrip (s ++ [c]) = s ++ [c].
Proof.
  intros H. unfold rstrip. rewrite rev_app_distr. simpl. rewrite H.
  simpl. now rewrite rev_involutive.
Qed.

Lemma rstrip_nil : rstrip [] = [].
Proof. reflexivity. Qed.

(** The last character of [rstrip s] is not whitespace. *)
Lemma rstrip_last (s x : str) (c : char) :
  rstrip s = x ++ [c] -> is_space c = false.
Proof.
  unfold rstrip. intros H.
  assert (E : lstrip (rev s) = c :: rev x).
  { rewrite <- (rev_involutive (lstrip (rev s))), H, rev_app_distr.
    reflexivity. }
  pose proof (lstrip_head (rev s)) as L. now rewrite E in L.
Qed.

End StrFacts.
Import StrFacts.

(* ================================================================== *)
(** * Facts about the matcher and about [sub] *)
(* ================================================================== *)

Module ReFacts.

Lemma star_g_sound (p : char -> bool) (k : str -> option str) (s x : str) :
  star_g p k s = Some x ->
  exists pre rest, s = pre ++ rest /\ forallb p pre = true /\ k rest = Some x.
Proof.
  induction s as [|c t IH]; simpl; intros H.
  - now exists [], [].
  - destruct (p c) eqn:Hc.
    + destruct (star_g p k t) as [y|] eqn:E.
      * injection H as ->. destruct (IH eq_refl) as [pre [rest [-> [F K]]]].
        exists (c :: pre), rest. simpl. now rewrite Hc, F.
      * now exists [], (c :: t).
    + now exists [], (c :: t).
Qed.

Lemma star_l_sound (p : char -> bool) (k : str -> option str) (s x : str) :
  star_l p k s = Some x ->
  exists pre rest, s = pre ++ rest /\ forallb p pre = true /\ k rest = Some x.
Proof.
  induction s as [|c t IH]; simpl; intros H.
  - destruct (k []) eqn:K; [|discriminate]. exists [], []. now rewrite K.
  - destruct (k (c :: t)) eqn:K.
    + exists [], (c :: t). now rewrite K.
    + destruct (p c) eqn:Hc; [|discriminate].
      destruct (IH H) as [pre [rest [-> [F K']]]].
      exists (c :: pre), rest. simpl. now rewrite Hc, F.
Qed.

(** Soundness: a successful match splits the text into a word of the
    pattern and the rest, on which the continuation succeeded. *)
Lemma m_sound (r : regex) :
  forall (k : str -> option str) (s x : str),
    m r k s = Some x ->
    exists pre rest, s = pre ++ rest /\ den r pre rest /\ k rest = Some x.
Proof.
  induction r as [|p|r1 IH1 r2 IH2|r1 IH1|p|p|]; intros k s x H; simpl in *.
  - now exists [], s.
  - destruct s as [|c t]; [discriminate|].
    destruct (p c) eqn:Hc; [|discriminate].
    exists [c], t. repeat split; [|exact H]. now exists c.
  - destruct (IH1 _ _ _ H) as [a [rest1 [-> [D1 H2]]]].
    destruct (IH2 _ _ _ H2) as [b [rest [-> [D2 K]]]].
    exists (a ++ b), rest. rewrite app_assoc. repeat split; [|exact K].
    now exists a, b.
  - destruct (m r1 k s) as [y|] eqn:E.
    + injection H as ->. destruct (IH1 _ _ _ E) as [pre [rest [-> [D K]]]].
      exists pre, rest. repeat split; [now right | exact K].
    + exists [], s. repeat split; [now left | exact H].
  - exact (star_g_sound p k s x H).
  - exact (star_l_sound p k s x H).
  - destruct (at_eol s) eqn:E; [|discriminate].
    exists [], s. repeat split; [exact E | exact H].
Qed.

Lemma match_rest_sound (r : regex) (s rest : str) :
  match_rest r s = Some rest -> exists pre, s = pre ++ rest /\ den r pre rest.
Proof.
  intros H. destruct (m_sound r Some s rest H) as [pre [rest' [E [D K]]]].
  injection K as ->. now exists pre.
Qed.

Lemma match_len_sound (r : regex) (s : str) (n : nat) :
  match_len r s = Some n ->
  exists pre rest, s = pre ++ rest /\ length pre = n /\ den r pre rest.
Proof.
  unfold match_len. destruct (match_rest r s) as [rest|] eqn:E; [|discriminate].
  intros H. injection H as <-.
  destruct (match_rest_sound r s rest E) as [pre [-> D]].
  exists pre, rest. repeat split; [|exact D].
  rewrite length_app. lia.
Qed.

Lemma match_len_none (r : regex) (s : str) :
  match_rest r s = None -> match_len r s = None.
Proof. unfold match_len. now intros ->. Qed.

Lemma match_len_some (r : regex) (pre rest : str) :
  match_rest r (pre ++ rest) = Some rest ->
  match_len r (pre ++ rest) = Some (length pre).
Proof.
  unfold match_len. intros ->. f_equal. rewrite length_app. lia.
Qed.

(** A greedy star whose continuation takes the rest after the whole run
    stops there. *)
Lemma star_g_app (p : char -> bool) (k : str -> option str) (w rest x : str) :
  forallb p w = true -> star_g p k rest = Some x ->
  star_g p k (w ++ rest) = Some x.
Proof.
  induction w as [|c w IH]; simpl; intros F H; [exact H|].
  apply andb_true_iff in F as [Hc F]. now rewrite Hc, (IH F H).
Qed.

Lemma star_g_stop (p : char -> bool) (k : str -> option str) (s : str) :
  match s with [] => True | c :: _ => p c = false end ->
  star_g p k s = k s.
Proof. destruct s as [|c t]; simpl; [reflexivity|]. now intros ->. Qed.

(** With a continuation that never fails, the greedy star takes the whole
    run. *)
Lemma star_g_Some (p : char -> bool) (w rest : str) :
  forallb p w = true ->
  match rest with [] => True | c :: _ => p c = false end ->
  star_g p Some (w ++ rest) = Some rest.
Proof.
  intros F H. apply star_g_app; [exact F|]. now rewrite star_g_stop.
Qed.

Lemma star_g_total (p : char -> bool) (s : str) :
  exists pre rest, s = pre ++ rest /\ star_g p Some s = Some rest.
Proof.
  induction s as [|c t [pre [rest [E H]]]]; simpl.
  - now exists [], [].
  - destruct (p c).
    + rewrite H. exists (c :: pre), rest. simpl. now rewrite <- E.
    + now exists [], (c :: t).
Qed.

(** ** [sub] *)

Section Sub.

Variable r : regex.
Variable repl : str.

(** Every character of the result is one of the text or of [repl]. *)
Lemma sub_from_forallb (p : char -> bool) :
  forallb p repl = true ->
  forall (s : str) (skip : nat),
    forallb p s = true -> forallb p (sub_from r repl skip s) = true.
Proof.
  intros Hr. induction s as [|c t IH]; intros skip Hs; simpl.
  - destruct (match_len r []); [exact Hr | reflexivity].
  - simpl in Hs. apply andb_true_iff in Hs as [Hc Ht].
    destruct skip as [|k]; [|now apply IH].
    destruct (match_len r (c :: t)) as [[|n]|].
    + rewrite forallb_app, Hr. simpl. now rewrite Hc, IH.
    + rewrite forallb_app, Hr. now rewrite IH.
    + simpl. now rewrite Hc, IH.
Qed.

(** When the pattern matches, and not the empty word, wherever a character
    outside [p] starts, the result is within [p]. *)
Lemma sub_from_kills (p : char -> bool) :
  forallb p repl = true ->
  (forall c t, p c = false -> exists n, match_len r (c :: t) = Some (S n)) ->
  forall (s : str) (skip : nat), forallb p (sub_from r repl skip s) = true.
Proof.
  intros Hr Hm. induction s as [|c t IH]; intros skip; simpl.
  - destruct (match_len r []); [exact Hr | reflexivity].
  - destruct skip as [|k]; [|apply IH].
    destruct (p c) eqn:Hc.
    + destruct (match_len r (c :: t)) as [[|n]|].
      * rewrite forallb_app, Hr. simpl. now rewrite Hc, IH.
      * rewrite forallb_app, Hr. now rewrite IH.
      * simpl. now rewrite Hc, IH.
    + destruct (Hm c t Hc) as [n ->]. rewrite forallb_app, Hr. now rewrite IH.
Qed.

Lemma no_match_tail (c : char) (t : str) :
  no_match r (c :: t) -> no_match r t.
Proof. intros H a u E. apply (H (c :: a) u). simpl. now rewrite E. Qed.

Lemma sub_from_id (s : str) : no_match r s -> sub_from r repl 0 s = s.
Proof.
  induction s as [|c t IH]; intros H; simpl.
  - now rewrite (match_len_none r [] (H [] [] eq_refl)).
  - rewrite (match_len_none r (c :: t) (H [] (c :: t) eq_refl)).
    now rewrite (IH (no_match_tail c t H)).
Qed.

(** Passing over the characters of a match. *)
Lemma sub_from_skip (x y : str) :
  sub_from r repl (length x) (x ++ y) = sub_from r repl 0 y.
Proof.
  induction x as [|c x IH]; simpl; [|exact IH].
  destruct y; reflexivity.
Qed.

(** A prefix in which no match starts is copied. *)
Lemma sub_from_copy (x y : str) :
  (forall a c t, x = a ++ c :: t -> match_rest r (c :: t ++ y) = None) ->
  sub_from r repl 0 (x ++ y) = x ++ sub_from r repl 0 y.
Proof.
  induction x as [|c x IH]; intros H; [reflexivity|].
  change ((c :: x) ++ y) with (c :: (x ++ y)).
  cbn [sub_from]. rewrite (match_len_none r (c :: x ++ y) (H [] c x eq_refl)).
  rewrite IH; [reflexivity|].
  intros a d t E. apply (H (c :: a) d t). simpl. now rewrite E.
Qed.

(** A match at the start is replaced. *)
Lemma sub_from_match (x y : str) :
  x <> [] -> match_rest r (x ++ y) = Some y ->
  sub_from r repl 0 (x ++ y) = repl ++ sub_from r repl 0 y.
Proof.
  intros Hne H. destruct x as [|c x]; [contradiction|].
  pose proof (match_len_some r (c :: x) y H) as L.
  change ((c :: x) ++ y) with (c :: (x ++ y)) in *.
  cbn [sub_from]. rewrite L. cbn [length]. now rewrite sub_from_skip.
Qed.

(** No new occurrence of a word [w] that shares no character with a
    non-empty [repl]. *)
Lemma sub_from_prefix (q : char -> bool) (u : str) :
  forallb q repl = true -> repl <> [] ->
  forallb (fun c => negb (q c)) u = true ->
  forall s, starts_with u (sub_from r repl 0 s) = true ->
            starts_with u s = true.
Proof.
  intros Hr Hne. revert u.
  assert (R : forall u y, forallb (fun c => negb (q c)) u = true ->
                          starts_with u (repl ++ y) = true -> u = []).
  { intros u y Hu H. destruct u as [|a u]; [reflexivity|].
    rewrite (starts_with_foreign q (a :: u) repl y Hr Hne) in H;
      [discriminate|].
    simpl in Hu. apply andb_true_iff in Hu as [Ha _].
    now apply negb_true_iff in Ha. }
  intros u Hu s. revert u Hu. induction s as [|c t IH]; intros u Hu; simpl.
  - destruct (match_len r []); intros H.
    + rewrite <- (app_nil_r repl) in H. now rewrite (R u [] Hu H).
    + exact H.
  - destruct (match_len r (c :: t)) as [[|n]|]; intros H.
    + now rewrite (R u _ Hu H).
    + now rewrite (R u _ Hu H).
    + destruct u as [|a u]; [reflexivity|]. simpl in *.
      apply andb_true_iff in Hu as [_ Hu].
      apply andb_true_iff in H as [-> H]. now apply IH.
Qed.

Lemma sub_from_no_new (q : char -> bool) (w : str) :
  forallb q repl = true -> repl <> [] ->
  forallb (fun c => negb (q c)) w = true -> w <> [] ->
  forall (s : str) (skip : nat),
    contains w s = false -> contains w (sub_from r repl skip s) = false.
Proof.
  intros Hr Hne Hw Hwne. induction s as [|c t IH]; intros skip Hs.
  - simpl. destruct (match_len r []); [|exact Hs].
    rewrite <- (app_nil_r repl), (contains_skip q w repl [] Hr Hw Hwne).
    exact Hs.
  - pose proof (contains_tail w c t Hs) as Ht.
    destruct skip as [|k]; [|now apply IH].
    destruct (starts_with w (sub_from r repl 0 (c :: t))) eqn:P.
    { apply (sub_from_prefix q w Hr Hne Hw) in P.
      now rewrite (contains_head w c t Hs) in P. }
    cbn [sub_from] in *. destruct (match_len r (c :: t)) as [[|n]|].
    + rewrite (contains_skip q w repl _ Hr Hw Hwne).
      rewrite contains_cons, (IH 0 Ht), orb_false_r.
      destruct w as [|a w]; [contradiction|].
      rewrite (starts_with_foreign q (a :: w) repl _ Hr Hne) in P.
      * clear P. destruct (starts_with (a :: w) (c :: sub_from r repl 0 t)) eqn:Q;
          [|reflexivity].
        assert (Q' : starts_with (a :: w) (c :: t) = true).
        { simpl in Q |- *. apply andb_true_iff in Q as [-> Q].
          simpl in Hw. apply andb_true_iff in Hw as [_ Hw].
          now apply (sub_from_prefix q w Hr Hne Hw). }
        now rewrite (contains_head _ c t Hs) in Q'.
      * simpl in Hw. apply andb_true_iff in Hw as [Ha _].
        now apply negb_true_iff in Ha.
    + rewrite (contains_skip q w repl _ Hr Hw Hwne). now apply IH.
    + rewrite contains_cons, P. now apply IH.
Qed.

End Sub.

End ReFacts.
Import ReFacts.

(* ================================================================== *)
(** * [str.replace] as a substitution of a literal word *)
(* ================================================================== *)

Module ReplaceFacts.

Lemma m_word (w : str) (k : str -> option str) (s : str) :
  m (word w) k s
  = if starts_with w s then k (skipn (length w) s) else None.
Proof.
  revert s; induction w as [|a w IH]; intros s; simpl.
  - reflexivity.
  - destruct s as [|b s]; [reflexivity|]. simpl.
    destruct (eqc a b); simpl; [apply IH | reflexivity].
Qed.

Lemma match_len_word (w s : str) :
  match_len (word w) s
  = if starts_with w s then Some (length w) else None.
Proof.
  unfold match_len, match_rest. rewrite m_word.
  destruct (starts_with w s) eqn:E; [|reflexivity].
  apply starts_with_spec in E as [t ->]. f_equal.
  rewrite skipn_app, skipn_all, Nat.sub_diag, length_app. simpl. lia.
Qed.

(** [s.replace(old, new)] is [re.sub] of the literal [old]. *)
Lemma replace_from_sub (old new : str) :
  old <> [] ->
  forall (s : str) (skip : nat),
    replace_from old new skip s = sub_from (word old) new skip s.
Proof.
  intros Hne. induction s as [|c t IH]; intros skip; simpl.
  - rewrite match_len_word. destruct old; [contradiction | reflexivity].
  - destruct skip as [|k]; [|apply IH].
    rewrite match_len_word. change (starts_with old (c :: t))
      with (starts_with old (c :: t)).
    destruct (starts_with old (c :: t)).
    + destruct old as [|a old]; [contradiction|]. simpl.
      rewrite Nat.sub_0_r. now rewrite IH.
    + now rewrite IH.
Qed.

Lemma replace_sub (old new s : str) :
  old <> [] -> replace old new s = sub (word old) new s.
Proof. intros H. now apply replace_from_sub. Qed.

Lemma word_no_match (w s : str) :
  w <> [] -> contains w s = false -> no_match (word w) s.
Proof.
  intros Hne H a t ->. unfold match_rest. rewrite m_word.
  destruct (starts_with w t) eqn:E; [|reflexivity].
  apply starts_with_spec in E as [u ->].
  assert (C : contains w (a ++ w ++ u) = true)
    by (apply contains_spec; now exists a, u).
  congruence.
Qed.

(** Without an occurrence of [old], nothing changes. *)
Lemma replace_id (old new s : str) :
  old <> [] -> contains old s = false -> replace old new s = s.
Proof.
  intros Hne H. rewrite replace_sub by exact Hne.
  now apply sub_from_id, word_no_match.
Qed.

End ReplaceFacts.
Import ReplaceFacts.

(* ================================================================== *)
(** * Words that a pass removes, words that a pass cannot form *)
(* ================================================================== *)

Module Occurrences.

Lemma char_of_self (x : str) : forallb (char_of x) x = true.
Proof.
  apply forallb_forall. intros c H. apply existsb_exists.
  exists c. split; [exact H | apply eqc_refl].
Qed.

Section Pass.

Variable r : regex.
Variable repl : str.

(** A substitution whose replacement shares no character with [w] forms no
    occurrence of [w]. *)
Lemma sub_keeps_out (w s : str) :
  repl <> [] -> w <> [] -> apart w repl = true ->
  contains w s = false -> contains w (sub r repl s) = false.
Proof.
  intros Hr Hw Ha H.
  exact (sub_from_no_new r repl (char_of repl) w (char_of_self repl)
           Hr Ha Hw s 0 H).
Qed.

(** When every place the pattern does not match is a place where [w] does
    not start, and the pattern has no empty match, no occurrence of [w] is
    left. *)
Lemma sub_kills_word (w : str) :
  repl <> [] -> w <> [] -> apart w repl = true ->
  (forall s, match_len r s = None -> starts_with w s = false) ->
  (forall s, match_len r s <> Some 0) ->
  forall (s : str) (skip : nat),
    contains w (sub_from r repl skip s) = false.
Proof.
  intros Hr Hw Ha Hm H0.
  assert (E : contains w [] = false) by (destruct w; [contradiction | reflexivity]).
  induction s as [|c t IH]; intros skip.
  - simpl. destruct (match_len r []); [|exact E].
    rewrite <- (app_nil_r repl).
    now rewrite (contains_skip (char_of repl) w repl [] (char_of_self repl) Ha Hw).
  - destruct skip as [|k]; [|apply IH].
    destruct (starts_with w (sub_from r repl 0 (c :: t))) eqn:P.
    { pose proof (sub_from_prefix r repl (char_of repl) w (char_of_self repl)
                    Hr Ha (c :: t) P) as Q.
      cbn [sub_from] in P.
      destruct (match_len r (c :: t)) as [[|n]|] eqn:M.
      - now destruct (H0 (c :: t)).
      - rewrite (starts_with_foreign (char_of repl) w repl _
                   (char_of_self repl) Hr) in P; [discriminate|].
        destruct w as [|a w]; [contradiction|].
        simpl in Ha. apply andb_true_iff in Ha as [Ha _].
        now apply negb_true_iff in Ha.
      - rewrite (Hm _ M) in Q. discriminate. }
    cbn [sub_from] in *. destruct (match_len r (c :: t)) as [[|n]|] eqn:M.
    + now destruct (H0 (c :: t)).
    + rewrite (contains_skip (char_of repl) w repl _ (char_of_self repl) Ha Hw).
      apply IH.
    + rewrite contains_cons, P. apply IH.
Qed.

End Pass.

(** [replace] leaves no occurrence of [old] when [new] shares no character
    with it. *)
Lemma replace_kills (old new s : str) :
  old <> [] -> new <> [] -> apart old new = true ->
  contains old (replace old new s) = false.
Proof.
  intros Ho Hn Ha. rewrite replace_sub by exact Ho.
  apply sub_kills_word; try assumption.
  - intros u. rewrite match_len_word. now destruct (starts_with old u).
  - intros u. rewrite match_len_word.
    destruct (starts_with old u); [|discriminate].
    destruct old; [contradiction | discriminate].
Qed.


(** A part of a text has no occurrence the text has not. *)
Lemma contains_part (w a x b : str) :
  contains w (a ++ x ++ b) = false -> contains w x = false.
Proof.
  intros H. destruct (contains w x) eqn:E; [|reflexivity].
  apply contains_spec in E as [u [v ->]].
  assert (C : contains w (a ++ (u ++ w ++ v) ++ b) = true).
  { apply contains_spec. exists (a ++ u), (v ++ b).
    now rewrite <- !app_assoc. }
  congruence.
Qed.

Lemma strip_keeps_out (w s : str) :
  contains w s = false -> contains w (strip s) = false.
Proof.
  intros H. unfold strip.
  destruct (lstrip_spec s) as [a [Ea _]].
  destruct (rstrip_spec (lstrip s)) as [b [Eb _]].
  rewrite Ea, Eb in H. now apply contains_part in H.
Qed.

End Occurrences.
Import Occurrences.

(* ================================================================== *)
(** * The normalized text has no angle bracket *)
(* ================================================================== *)

Module AngleFacts.

Lemma forallb_andb (p q : char -> bool) (s : str) :
  forallb (fun c => p c && q c) s = forallb p s && forallb q s.
Proof.
  induction s as [|c s IH]; simpl; [reflexivity|]. rewrite IH.
  destruct (p c), (q c), (forallb p s), (forallb q s); reflexivity.
Qed.

Lemma star_g_id_total (p : char -> bool) (k : str -> option str) (s : str) :
  (forall u, k u = Some u) ->
  exists pre rest, s = pre ++ rest /\ star_g p k s = Some rest.
Proof.
  intros K. induction s as [|c t [pre [rest [E H]]]]; simpl.
  - exists [], []. now rewrite K.
  - destruct (p c).
    + rewrite H. exists (c :: pre), rest. simpl. now rewrite <- E.
    + exists [], (c :: t). now rewrite K.
Qed.

(** [\s*X\s*] matches wherever [X] stands, and not the empty word. *)
Lemma sep_matches (x : string) (t : str) :
  is_space (chr x) = false ->
  exists n,
    match_len (seq [Star is_space; ch x; Star is_space]) (chr x :: t)
    = Some (S n).
Proof.
  intros Hx. unfold match_len, match_rest. cbn [seq fold_right m ch].
  rewrite star_g_stop by exact Hx. rewrite eqc_refl.
  destruct (star_g_id_total is_space (fun u => Some u) t (fun u => eq_refl))
    as [pre [rest [-> ->]]].
  exists (length pre). f_equal. cbn [length]. rewrite length_app. lia.
Qed.




(** ** The angle-bracket entities *)





End AngleFacts.
Import AngleFacts.

(* ================================================================== *)
(** * What [process_text_for_tts] returns and what it changes *)
(* ================================================================== *)

Module TtsFacts.

(** The processor of the fixtures is the one [__init__] makes of the test
    configuration. *)
Lemma init_test_config :
  init env_ok test_config (world_of []) = (Ok proc_default, world_of []).
Proof. reflexivity. Qed.

(** The debug log never lets an exception out and only appends to the
    log. *)
Lemma debug_log_outcome (self : Processor) (env : Env) (t x : str) (w : World) :
  exists l,
    (if debug_mode self
     then try_except (write_debug_log env t x) (fun _ => ret tt)
     else ret tt) w
    = (Ok tt,
       {| note := note w; files := files w; media := media w;
          convert_log := convert_log w ++ l;
          notices := notices w; reloads := reloads w |})
    /\ (debug_mode self = false -> l = []).
Proof.
  assert (W : forall l, l = [] ->
            w = {| note := note w; files := files w; media := media w;
                   convert_log := convert_log w ++ l;
                   notices := notices w; reloads := reloads w |}).
  { intros l ->. rewrite app_nil_r. now destruct w. }
  destruct (debug_mode self).
  - unfold try_except, write_debug_log, bind, check, ret, raise, append_log.
    destruct (makedirs_fails env).
    { exists []. split; [|reflexivity]. now rewrite <- W. }
    destruct (open_fails env _).
    { exists []. split; [|reflexivity]. now rewrite <- W. }
    destruct (write_fails env _).
    { exists []. split; [|reflexivity]. now rewrite <- W. }
    cbn. exists [LogOriginal (now_log env) t; LogProcessed (now_log env) x].
    split; [|discriminate]. now rewrite <- app_assoc.
  - exists []. split; [|reflexivity]. unfold ret. now rewrite <- W.
Qed.

(** The guard: the truth test raises, or the call goes on with the truth
    value. *)
Lemma tts_run (self : Processor) (env : Env) (text : PyValue) (w : World) :
  exists l,
    process_text_for_tts self env text w
    = (match truth text with
       | inr _ => Ok (tts_output (speech_rate self) text)
       | inl e => Raised e
       end,
       {| note := note w; files := files w; media := media w;
          convert_log := convert_log w ++ l;
          notices := notices w; reloads := reloads w |})
    /\ (debug_mode self = false -> l = []).
Proof.
  assert (W : w = {| note := note w; files := files w; media := media w;
                     convert_log := convert_log w ++ [];
                     notices := notices w; reloads := reloads w |})
    by (rewrite app_nil_r; now destruct w).
  unfold process_text_for_tts.
  destruct text as [|b|z|[|c t]|b|l|b|e];
    try (exists []; split; [|reflexivity]; unfold bind, call, ret, raise;
         cbn; try destruct b; try destruct l;
         try destruct (negb (Z.eqb z 0)); cbn; now rewrite <- W).
  unfold bind at 1.
  cbn [truth truthy call ret is_str negb orb length Nat.eqb].
  destruct (debug_log_outcome self env (c :: t) (normalized (c :: t)) w)
    as [l [E L]].
  exists l. split; [|exact L].
  unfold bind at 1. rewrite E. cbn [tts_output].
  destruct (rate_is_one (speech_rate self)); cbn [negb].
  - destruct (normalized (c :: t)); reflexivity.
  - unfold prosody, prosody_open. reflexivity.
Qed.

Lemma tts_result (self : Processor) (env : Env) (text : PyValue) (w : World) :
  fst (process_text_for_tts self env text w)
  = match truth text with
    | inr _ => Ok (tts_output (speech_rate self) text)
    | inl e => Raised e
    end.
Proof. destruct (tts_run self env text w) as [l [-> _]]. reflexivity. Qed.

(** For a string the truth test returns. *)
Lemma tts_result_str (self : Processor) (env : Env) (text : str) (w : World) :
  fst (process_text_for_tts self env (PyStr text) w)
  = Ok (tts_output (speech_rate self) (PyStr text)).
Proof. now rewrite tts_result. Qed.

End TtsFacts.
Import TtsFacts.


(* ================================================================== *)
(** * Stripped text *)
(* ================================================================== *)

Module StripFacts.

Lemma rstrip_idem (s : str) : rstrip (rstrip s) = rstrip s.
Proof. unfold rstrip. now rewrite rev_involutive, lstrip_idem. Qed.

Lemma rstrip_keeps_head (s : str) :
  match s with [] => True | c :: _ => is_space c = false end ->
  match rstrip s with [] => True | c :: _ => is_space c = false end.
Proof.
  intros H. destruct (rstrip_spec s) as [w [E F]].
  destruct (rstrip s) as [|c x]; [exact I|].
  rewrite E in H. exact H.
Qed.

Lemma strip_idem (s : str) : strip (strip s) = strip s.
Proof.
  unfold strip.
  rewrite (lstrip_fixed (rstrip (lstrip s))).
  - apply rstrip_idem.
  - apply rstrip_keeps_head, lstrip_head.
Qed.

(** A stripped text that is all whitespace is empty. *)
Lemma strip_blank (s : str) :
  forallb is_space (strip s) = true -> strip s = [].
Proof.
  unfold strip. intros H.
  pose proof (rstrip_keeps_head (lstrip s) (lstrip_head s)) as K.
  destruct (rstrip (lstrip s)) as [|c x]; [reflexivity|].
  simpl in H. rewrite K in H. discriminate.
Qed.

Lemma normalized_stripped (text : str) :
  strip (normalized text) = normalized text.
Proof. unfold normalized, clean_whitespace. apply strip_idem. Qed.

Lemma normalized_blank (text : str) :
  forallb is_space (normalized text) = true -> normalized text = [].
Proof. unfold normalized, clean_whitespace. apply strip_blank. Qed.

End StripFacts.
Import StripFacts.

(* ================================================================== *)
(** * The dot runs *)
(* ================================================================== *)

Module DotFacts.

Lemma is_dot_dot : is_dot dot = true.
Proof. reflexivity. Qed.

Lemma is_dot_eq (c : char) : is_dot c = true -> c = dot.
Proof. intros H. symmetry. now apply eqc_eq. Qed.

(** Every text is a run of periods, followed by nothing or by another
    character and a text. *)
Lemma run_ind (P : str -> Prop) :
  (forall n, P (repeat dot n)) ->
  (forall n c t, is_dot c = false -> P t -> P (repeat dot n ++ c :: t)) ->
  forall s, P s.
Proof.
  intros Hb Hs s. change s with (repeat dot 0 ++ s). generalize 0.
  induction s as [|c t IH]; intros n.
  - rewrite app_nil_r. apply Hb.
  - destruct (is_dot c) eqn:Hc.
    + apply is_dot_eq in Hc. subst c.
      replace (repeat dot n ++ dot :: t) with (repeat dot (S n) ++ t).
      * apply IH.
      * change (dot :: t) with ([dot] ++ t). rewrite app_assoc.
        f_equal. now rewrite <- repeat_cons.
    + apply Hs; [exact Hc | apply (IH 0)].
Qed.

Lemma classify_runs_run (long short : str) (n k : nat) (s : str) :
  classify_runs long short k (repeat dot n ++ s)
  = classify_runs long short (k + n) s.
Proof.
  revert k; induction n as [|n IH]; intros k.
  - simpl. now rewrite Nat.add_0_r.
  - cbn [repeat app classify_runs]. rewrite is_dot_dot, IH. f_equal. lia.
Qed.

Lemma classify_runs_all (long short : str) (n : nat) :
  classify_runs long short 0 (repeat dot n) = run_marker long short n.
Proof.
  rewrite <- (app_nil_r (repeat dot n)), classify_runs_run. reflexivity.
Qed.

Lemma classify_runs_step (long short : str) (n : nat) (c : char) (t : str) :
  is_dot c = false ->
  classify_runs long short 0 (repeat dot n ++ c :: t)
  = run_marker long short n ++ c :: classify_runs long short 0 t.
Proof.
  intros Hc. rewrite classify_runs_run. simpl. now rewrite Hc.
Qed.

(** ** Copying what the pattern cannot start in *)

Lemma sub_copy_chars (r : regex) (f : char -> bool) (repl x y : str) :
  starts_in r f -> forallb (fun c => negb (f c)) x = true ->
  sub r repl (x ++ y) = x ++ sub r repl y.
Proof.
  intros Hr Hx. apply sub_from_copy. intros a c t ->.
  rewrite forallb_app in Hx. apply andb_true_iff in Hx as [_ Hx].
  simpl in Hx. apply andb_true_iff in Hx as [Hc _].
  apply Hr. now apply negb_true_iff.
Qed.

Lemma sub_copy_char (r : regex) (f : char -> bool) (repl : str)
      (c : char) (y : str) :
  starts_in r f -> f c = false -> sub r repl (c :: y) = c :: sub r repl y.
Proof.
  intros Hr Hc. apply (sub_copy_chars r f repl [c] y Hr).
  simpl. now rewrite Hc.
Qed.

Lemma sub_nil (r : regex) (repl : str) :
  match_rest r [] = None -> sub r repl [] = [].
Proof. intros H. unfold sub. simpl. unfold match_len. now rewrite H. Qed.

Lemma sub_match (r : regex) (repl x y : str) :
  x <> [] -> match_rest r (x ++ y) = Some y ->
  sub r repl (x ++ y) = repl ++ sub r repl y.
Proof. apply sub_from_match. Qed.

Lemma dots4_starts : starts_in re_dots4 is_dot.
Proof.
  intros c u Hc. unfold match_rest, re_dots4, re_dots3, re_dots2, AtLeast, Times.
  cbn [m seq fold_right repeat]. now rewrite Hc.
Qed.

Lemma dots3_starts : starts_in re_dots3 is_dot.
Proof.
  intros c u Hc. unfold match_rest, re_dots4, re_dots3, re_dots2, AtLeast, Times.
  cbn [m seq fold_right repeat]. now rewrite Hc.
Qed.

Lemma dots2_starts : starts_in re_dots2 is_dot.
Proof.
  intros c u Hc. unfold match_rest, re_dots4, re_dots3, re_dots2, AtLeast, Times.
  cbn [m seq fold_right repeat]. now rewrite Hc.
Qed.

Lemma sub_short_run (r : regex) (repl : str) (n : nat) (y : str) :
  starts_in r is_dot ->
  (forall k, k <= n -> k <> 0 -> match_rest r (repeat dot k ++ y) = None) ->
  sub r repl (repeat dot n ++ y) = repeat dot n ++ sub r repl y.
Proof.
  intros Hr H. apply sub_from_copy. intros a c t E.
  assert (Hc : c = dot).
  { apply (repeat_spec n dot c). rewrite E. apply in_or_app. right. now left. }
  subst c.
  assert (Ht : t = repeat dot (length t)).
  { apply Forall_eq_repeat, Forall_forall. intros d Hd.
    symmetry. apply (repeat_spec n dot d). rewrite E. apply in_or_app.
    right. now right. }
  assert (L : S (length t) <= n).
  { apply (f_equal (@length char)) in E. rewrite repeat_length in E.
    rewrite length_app in E. simpl in E. lia. }
  rewrite Ht. change (dot :: repeat dot (length t) ++ y)
    with (repeat dot (S (length t)) ++ y).
  apply H; [exact L | discriminate].
Qed.

End DotFacts.
Import DotFacts.

Module DotRuns.

Lemma run_ends_sub (r : regex) (repl y : str) :
  starts_in r is_dot -> match_rest r [] = None ->
  run_ends y -> run_ends (sub r repl y).
Proof.
  intros Hr Hn Hy. destruct y as [|c t].
  - now rewrite sub_nil.
  - simpl in Hy. now rewrite (sub_copy_char r is_dot repl c t Hr Hy).
Qed.

Lemma star_dots (k : nat) (y : str) :
  run_ends y ->
  star_g is_dot (fun u => Some u) (repeat dot k ++ y) = Some y.
Proof.
  intros Hy. apply star_g_app.
  - apply forallb_forall. intros c Hc. apply repeat_spec in Hc. now subst.
  - now rewrite star_g_stop.
Qed.

Lemma dots4_long_run (k : nat) (y : str) :
  run_ends y -> match_rest re_dots4 (repeat dot (4 + k) ++ y) = Some y.
Proof.
  intros Hy. unfold match_rest, re_dots4, AtLeast, Times.
  cbn [m seq fold_right repeat app Nat.add]. rewrite !is_dot_dot.
  now apply star_dots.
Qed.

(** A run that ends: nothing or a character that is not a period follows. *)
Ltac run_cases y Hy :=
  destruct y as [|? ?];
  [ | simpl in Hy ];
  unfold match_rest, re_dots4, re_dots3, re_dots2, AtLeast, Times;
  cbn [m seq fold_right repeat app Nat.add star_g];
  rewrite ?is_dot_dot, ?Hy; try reflexivity.

Lemma dots4_run (n : nat) (y : str) :
  run_ends y ->
  sub re_dots4 LONG_PAUSE (repeat dot n ++ y)
  = (if 4 <=? n then LONG_PAUSE else repeat dot n)
      ++ sub re_dots4 LONG_PAUSE y.
Proof.
  intros Hy. destruct (4 <=? n) eqn:E.
  - apply Nat.leb_le in E. replace n with (4 + (n - 4)) by lia.
    apply sub_match; [discriminate | now apply dots4_long_run].
  - apply Nat.leb_gt in E. apply sub_short_run; [apply dots4_starts|].
    intros k Hk Hk0.
    assert (C : k = 1 \/ k = 2 \/ k = 3) by lia.
    destruct C as [-> | [-> | ->]]; run_cases y Hy.
Qed.

Lemma dots3_run (n : nat) (y : str) :
  run_ends y -> n <= 3 ->
  sub re_dots3 LONG_PAUSE (repeat dot n ++ y)
  = (if n =? 3 then LONG_PAUSE else repeat dot n)
      ++ sub re_dots3 LONG_PAUSE y.
Proof.
  intros Hy Hn. destruct (n =? 3) eqn:E.
  - apply Nat.eqb_eq in E. subst n.
    apply sub_match; [discriminate|]. unfold match_rest, re_dots3, Times.
    cbn [m seq fold_right repeat app]. now rewrite !is_dot_dot.
  - apply Nat.eqb_neq in E. apply sub_short_run; [apply dots3_starts|].
    intros k Hk Hk0.
    assert (C : k = 1 \/ k = 2) by lia.
    destruct C as [-> | ->]; run_cases y Hy.
Qed.

Lemma dots2_run (n : nat) (y : str) :
  run_ends y -> n <= 2 ->
  sub re_dots2 MED_PAUSE (repeat dot n ++ y)
  = (if n =? 2 then MED_PAUSE else repeat dot n)
      ++ sub re_dots2 MED_PAUSE y.
Proof.
  intros Hy Hn. destruct (n =? 2) eqn:E.
  - apply Nat.eqb_eq in E. subst n.
    apply sub_match; [discriminate|]. unfold match_rest, re_dots2, Times.
    cbn [m seq fold_right repeat app]. now rewrite !is_dot_dot.
  - apply Nat.eqb_neq in E. apply sub_short_run; [apply dots2_starts|].
    intros k Hk Hk0.
    assert (C : k = 1) by lia. subst k. run_cases y Hy.
Qed.

Lemma dots4_nil : match_rest re_dots4 [] = None.
Proof. reflexivity. Qed.
Lemma dots3_nil : match_rest re_dots3 [] = None.
Proof. reflexivity. Qed.
Lemma dots2_nil : match_rest re_dots2 [] = None.
Proof. reflexivity. Qed.

Lemma classify_dots_nil : classify_dots [] = [].
Proof. reflexivity. Qed.

Lemma classify_dots_char (c : char) (t : str) :
  is_dot c = false -> classify_dots (c :: t) = c :: classify_dots t.
Proof.
  intros Hc. unfold classify_dots.
  rewrite (sub_copy_char re_dots4 is_dot _ c _ dots4_starts Hc).
  rewrite (sub_copy_char re_dots3 is_dot _ c _ dots3_starts Hc).
  now rewrite (sub_copy_char re_dots2 is_dot _ c _ dots2_starts Hc).
Qed.

Lemma placeholders_no_dot :
  forallb (fun c => negb (is_dot c)) LONG_PAUSE = true
  /\ forallb (fun c => negb (is_dot c)) MED_PAUSE = true.
Proof. split; reflexivity. Qed.

(** The three substitutions on a maximal run. *)
Lemma classify_dots_run (n : nat) (y : str) :
  run_ends y ->
  classify_dots (repeat dot n ++ y)
  = run_marker LONG_PAUSE MED_PAUSE n ++ classify_dots y.
Proof.
  intros Hy. unfold classify_dots.
  pose proof (run_ends_sub re_dots4 LONG_PAUSE y dots4_starts dots4_nil Hy)
    as Hy4.
  pose proof (run_ends_sub re_dots3 LONG_PAUSE _ dots3_starts dots3_nil Hy4)
    as Hy3.
  destruct placeholders_no_dot as [PL PM].
  rewrite (dots4_run n y Hy).
  destruct (4 <=? n) eqn:E4.
  - apply Nat.leb_le in E4.
    rewrite (sub_copy_chars re_dots3 is_dot _ LONG_PAUSE _ dots3_starts PL).
    rewrite (sub_copy_chars re_dots2 is_dot _ LONG_PAUSE _ dots2_starts PL).
    do 4 (destruct n as [|n]; [lia|]). reflexivity.
  - apply Nat.leb_gt in E4.
    rewrite (dots3_run n _ Hy4) by lia.
    destruct (n =? 3) eqn:E3.
    + apply Nat.eqb_eq in E3. subst n.
      now rewrite (sub_copy_chars re_dots2 is_dot _ LONG_PAUSE _ dots2_starts PL).
    + apply Nat.eqb_neq in E3.
      rewrite (dots2_run n _ Hy3) by lia.
      assert (C : n = 0 \/ n = 1 \/ n = 2) by lia.
      destruct C as [-> | [-> | ->]]; reflexivity.
Qed.

(** The classification of the code is the classification of the
    specification: every maximal run, as a whole. *)
Lemma classify_dots_spec (s : str) : classify_dots s = placeholder_runs s.
Proof.
  unfold placeholder_runs. induction s as [n | n c t Hc IH] using run_ind.
  - rewrite classify_runs_all, <- (app_nil_r (repeat dot n)).
    rewrite classify_dots_run by exact I.
    now rewrite classify_dots_nil, !app_nil_r.
  - rewrite classify_runs_step by exact Hc.
    rewrite classify_dots_run by exact Hc.
    now rewrite classify_dots_char, IH.
Qed.

End DotRuns.
Import DotRuns.

Module PauseFacts.

Lemma match_word_here (w y : str) : match_rest (word w) (w ++ y) = Some y.
Proof.
  unfold match_rest. rewrite m_word, starts_with_app.
  now rewrite skipn_app, skipn_all, Nat.sub_diag.
Qed.

Lemma word_starts (a : char) (w : str) : starts_in (word (a :: w)) (eqc a).
Proof.
  intros c u Hc. unfold match_rest. rewrite m_word. simpl. now rewrite Hc.
Qed.

Lemma long_starts : starts_in (word LONG_PAUSE) (eqc langle).
Proof. apply word_starts. Qed.

Lemma med_starts : starts_in (word MED_PAUSE) (eqc langle).
Proof. apply word_starts. Qed.

Lemma sub_copy_here (r : regex) (repl : str) (c : char) (y : str) :
  match_rest r (c :: y) = None -> sub r repl (c :: y) = c :: sub r repl y.
Proof.
  intros H. unfold sub. cbn [sub_from].
  now rewrite (match_len_none r (c :: y) H).
Qed.

Lemma resolve_nil : resolve_placeholders [] = [].
Proof. reflexivity. Qed.

(** A character that is neither a period nor the opening bracket of a
    placeholder stays. *)
Lemma resolve_char (c : char) (y : str) :
  eqc langle c = false ->
  resolve_placeholders (c :: y) = c :: resolve_placeholders y.
Proof.
  intros Hc. unfold resolve_placeholders.
  rewrite (sub_copy_char _ (eqc langle) _ c _ long_starts Hc).
  now rewrite (sub_copy_char _ (eqc langle) _ c _ med_starts Hc).
Qed.

Lemma resolve_chars (x y : str) :
  forallb (fun c => negb (eqc langle c)) x = true ->
  resolve_placeholders (x ++ y) = x ++ resolve_placeholders y.
Proof.
  intros Hx. unfold resolve_placeholders.
  rewrite (sub_copy_chars _ (eqc langle) _ x _ long_starts Hx).
  now rewrite (sub_copy_chars _ (eqc langle) _ x _ med_starts Hx).
Qed.

Lemma resolve_long (y : str) :
  resolve_placeholders (LONG_PAUSE ++ y)
  = lit " ... " ++ resolve_placeholders y.
Proof.
  unfold resolve_placeholders.
  rewrite (sub_match (word LONG_PAUSE) (lit " ... ") LONG_PAUSE y)
    by (try discriminate; apply match_word_here).
  now rewrite (sub_copy_chars _ (eqc langle) _ (lit " ... ") _ med_starts).
Qed.

Lemma resolve_med (y : str) :
  resolve_placeholders (MED_PAUSE ++ y)
  = lit " .. " ++ resolve_placeholders y.
Proof.
  unfold resolve_placeholders.
  assert (E : sub (word LONG_PAUSE) (lit " ... ") (MED_PAUSE ++ y)
              = MED_PAUSE ++ sub (word LONG_PAUSE) (lit " ... ") y).
  { unfold MED_PAUSE at 1. cbn [app].
    rewrite sub_copy_here.
    - change (lit "MED_PAUSE" ++ [rangle] ++ y)
        with ((lit "MED_PAUSE" ++ [rangle]) ++ y).
      now rewrite (sub_copy_chars _ (eqc langle) _
                     (lit "MED_PAUSE" ++ [rangle]) _ long_starts).
    - unfold match_rest. rewrite m_word. reflexivity. }
  rewrite E.
  now rewrite (sub_match (word MED_PAUSE) (lit " .. ") MED_PAUSE _)
    by (try discriminate; apply match_word_here).
Qed.

(** The placeholder of a run becomes the pause of the run. *)
Lemma resolve_marker (n : nat) (y : str) :
  resolve_placeholders (run_marker LONG_PAUSE MED_PAUSE n ++ y)
  = run_marker (lit " ... ") (lit " .. ") n ++ resolve_placeholders y.
Proof.
  destruct n as [|[|[|n]]]; cbn [run_marker].
  - reflexivity.
  - now apply resolve_chars.
  - apply resolve_med.
  - apply resolve_long.
Qed.

(** In a text without the opening bracket of the placeholders, every
    maximal run of periods becomes its pause. *)
Lemma dot_runs_spec (s : str) :
  forallb (fun c => negb (eqc langle c)) s = true ->
  dot_runs s = pause_runs s.
Proof.
  unfold dot_runs, pause_runs.
  induction s as [n | n c t Hc IH] using run_ind; intros Hs.
  - rewrite classify_runs_all, <- (app_nil_r (repeat dot n)).
    rewrite classify_dots_run by exact I.
    rewrite resolve_marker, classify_dots_nil, resolve_nil.
    now rewrite !app_nil_r.
  - rewrite forallb_app in Hs. apply andb_true_iff in Hs as [_ Hs].
    simpl in Hs. apply andb_true_iff in Hs as [Hl Hs].
    apply negb_true_iff in Hl.
    rewrite classify_runs_step by exact Hc.
    rewrite classify_dots_run by exact Hc.
    rewrite resolve_marker, classify_dots_char by exact Hc.
    now rewrite resolve_char, IH.
Qed.

End PauseFacts.
Import PauseFacts.

(* ================================================================== *)
(** * The dash pass *)
(* ================================================================== *)

Module DashFacts.

(** a hyphen among characters that are not hyphens *)
Ltac hyphen_absurd H :=
  exfalso; cbn in H; try discriminate H;
  unfold not_hyphen in H; rewrite ?eqc_refl in H; cbn in H; discriminate H.

Lemma space_not_hyphen (x : str) :
  forallb is_space x = true -> forallb not_hyphen x = true.
Proof.
  intros H. rewrite forallb_forall in *. intros c Hc. specialize (H c Hc).
  unfold not_hyphen. destruct (eqc hyphen c) eqn:E; [|reflexivity].
  apply eqc_eq in E. subst c. discriminate.
Qed.

(** The text before the first hyphen is determined. *)
Lemma first_hyphen (x a r1 r2 : str) :
  forallb not_hyphen x = true -> forallb not_hyphen a = true ->
  x ++ hyphen :: r1 = a ++ hyphen :: r2 -> x = a /\ r1 = r2.
Proof.
  revert a; induction x as [|c x IH]; intros a Hx Ha E.
  - destruct a as [|d a]; simpl in E.
    + injection E as ->. now split.
    + injection E as <- _. hyphen_absurd Ha.
  - destruct a as [|d a]; simpl in E.
    + injection E as -> _. hyphen_absurd Hx.
    + injection E as -> E. simpl in Hx, Ha.
      apply andb_true_iff in Hx as [_ Hx]. apply andb_true_iff in Ha as [_ Ha].
      destruct (IH a Hx Ha E) as [-> ->]. now split.
Qed.

(** What a match of [\s+-\s+] consumes. *)
Lemma dash_match (s rest : str) :
  match_rest re_dash s = Some rest ->
  exists x y, s = x ++ hyphen :: y ++ rest
              /\ x <> [] /\ forallb is_space x = true
              /\ y <> [] /\ forallb is_space y = true.
Proof.
  intros H. apply match_rest_sound in H as [pre [-> D]].
  unfold re_dash, Plus, ch in D. cbn [seq fold_right den] in D.
  destruct D as [a [b [-> [[a1 [a2 [-> [[c [-> Hc]] Ha2]]]] D]]]].
  destruct D as [h [b' [-> [[d [-> Hd]] D]]]].
  destruct D as [y [e [-> [[y1 [y2 [-> [[f [-> Hf]] Hy2]]]] ->]]]].
  apply eqc_eq in Hd. subst d.
  exists ([c] ++ a2), ([f] ++ y2). repeat split.
  - rewrite app_nil_r. now rewrite <- !app_assoc.
  - discriminate.
  - simpl. now rewrite Hc, Ha2.
  - discriminate.
  - simpl. now rewrite Hf, Hy2.
Qed.

(** A run of whitespace, a hyphen and a run of whitespace, all maximal. *)
Lemma dash_match_here (w1 w2 y : str) :
  w1 <> [] -> forallb is_space w1 = true ->
  w2 <> [] -> forallb is_space w2 = true ->
  starts_with_space y = false ->
  match_rest re_dash (w1 ++ hyphen :: w2 ++ y) = Some y.
Proof.
  intros N1 F1 N2 F2 Hy.
  destruct w1 as [|c1 w1]; [contradiction|].
  destruct w2 as [|c2 w2]; [contradiction|].
  simpl in F1, F2.
  apply andb_true_iff in F1 as [C1 F1]. apply andb_true_iff in F2 as [C2 F2].
  unfold match_rest, re_dash, Plus, ch. cbn [seq fold_right m app].
  rewrite C1. erewrite star_g_app; [reflexivity | exact F1 |].
  rewrite star_g_stop by reflexivity.
  change (eqc (chr "-") hyphen) with true. cbn iota. rewrite C2.
  apply star_g_app; [exact F2|].
  rewrite star_g_stop; [reflexivity|].
  destruct y; [exact I | exact Hy].
Qed.

Lemma split_snoc (a a1 : str) (h c : char) (t : str) :
  a ++ [h] = a1 ++ c :: t ->
  (t = [] /\ c = h /\ a = a1)
  \/ exists t', t = t' ++ [h] /\ a = a1 ++ c :: t'.
Proof.
  intros E. destruct (@exists_last _ (c :: t)) as [t0 [z Ez]]; [discriminate|].
  rewrite Ez, app_assoc in E. apply app_inj_tail in E as [-> ->].
  destruct t0 as [|d t0]; simpl in Ez.
  - injection Ez as -> ->. left. now rewrite app_nil_r.
  - injection Ez as -> ->. right. now exists t0.
Qed.

Lemma ends_with_space_app (a1 a2 : str) :
  a2 <> [] -> forallb is_space a2 = true -> ends_with_space (a1 ++ a2) = true.
Proof.
  intros Hn Hf. unfold ends_with_space. rewrite rev_app_distr.
  rewrite <- forallb_rev in Hf.
  destruct (rev a2) as [|c r] eqn:E.
  - apply (f_equal (@rev char)) in E. rewrite rev_involutive in E.
    now subst.
  - simpl in *. now apply andb_true_iff in Hf.
Qed.

Lemma starts_with_space_app (y rest : str) :
  y <> [] -> forallb is_space y = true -> starts_with_space (y ++ rest) = true.
Proof.
  intros Hn Hf. destruct y as [|c y]; [contradiction|]. simpl in *.
  now apply andb_true_iff in Hf.
Qed.

(** A hyphen-free text is left as it is. *)
Lemma dash_no_hyphen_match (a y : str) :
  forallb not_hyphen a = true ->
  forall a1 c t, a = a1 ++ c :: t ->
    forall x r, c :: t ++ y = x ++ hyphen :: r ->
      forallb not_hyphen x = true ->
      exists r0, x = (c :: t) ++ r0.
Proof.
  intros Ha a1 c t -> x r E Hx.
  rewrite forallb_app in Ha. apply andb_true_iff in Ha as [_ Ha].
  revert x E Hx. change (c :: t ++ y) with ((c :: t) ++ y).
  induction (c :: t) as [|d u IH]; intros x E Hx.
  - now exists x.
  - simpl in Ha. apply andb_true_iff in Ha as [Hd Hu].
    destruct x as [|e x]; simpl in E.
    + injection E as -> _. hyphen_absurd Hd.
    + injection E as -> E. simpl in Hx. apply andb_true_iff in Hx as [_ Hx].
      destruct (IH Hu x E Hx) as [r0 ->]. now exists r0.
Qed.

Lemma dash_pass_hyphen_free (a : str) :
  forallb not_hyphen a = true -> dash_pass a = a.
Proof.
  intros Ha. unfold dash_pass. apply sub_from_id. intros a1 t ->.
  destruct (match_rest re_dash t) as [rest|] eqn:M; [|reflexivity].
  apply dash_match in M as [x [y [-> _]]].
  rewrite !forallb_app in Ha. apply andb_true_iff in Ha as [_ Ha].
  apply andb_true_iff in Ha as [_ Ha]. hyphen_absurd Ha.
Qed.

End DashFacts.
Import DashFacts.

Module DashLeftmost.

Lemma ends_with_space_last (s : str) :
  ends_with_space s = true -> exists x c, s = x ++ [c] /\ is_space c = true.
Proof.
  unfold ends_with_space. destruct (rev s) as [|c r] eqn:E; [discriminate|].
  simpl. intros Hc. exists (rev r), c. split; [|exact Hc].
  apply (f_equal (@rev char)) in E. rewrite rev_involutive in E. exact E.
Qed.

Lemma rstrip_not_spaced (s : str) : ends_with_space (rstrip s) = false.
Proof.
  destruct (ends_with_space (rstrip s)) eqn:E; [|reflexivity].
  apply ends_with_space_last in E as [x [c [E Hc]]].
  apply rstrip_last in E. congruence.
Qed.

Lemma lstrip_not_spaced (s : str) : starts_with_space (lstrip s) = false.
Proof.
  pose proof (lstrip_head s) as H. destruct (lstrip s); [reflexivity|exact H].
Qed.

(** The leftmost hyphen stays when whitespace is missing on a side. *)
Lemma dash_leftmost_kept (a b : str) :
  forallb not_hyphen a = true ->
  ends_with_space a && starts_with_space b = false ->
  dash_pass (a ++ hyphen :: b) = a ++ hyphen :: dash_pass b.
Proof.
  intros Ha Hs. unfold dash_pass, sub.
  change (hyphen :: b) with ([hyphen] ++ b). rewrite app_assoc.
  rewrite sub_from_copy; [now rewrite <- app_assoc|].
  intros a1 c t E.
  destruct (match_rest re_dash (c :: t ++ b)) as [rest|] eqn:M; [|reflexivity].
  exfalso. apply dash_match in M as [x [y [M [Nx [Fx [Ny Fy]]]]]].
  apply split_snoc in E as [[-> [-> ->]] | [t' [-> ->]]].
  - destruct x as [|e x]; [contradiction|]. simpl in M, Fx.
    injection M as <- _. discriminate.
  - rewrite <- app_assoc in M. cbn [app] in M.
    rewrite forallb_app in Ha. apply andb_true_iff in Ha as [_ Hc].
    destruct (first_hyphen (c :: t') x b (y ++ rest) Hc
                (space_not_hyphen x Fx) M) as [Ex Eb].
    rewrite (ends_with_space_app a1 (c :: t')) in Hs;
      [|discriminate | now rewrite Ex].
    simpl in Eb. rewrite Eb, (starts_with_space_app y rest Ny Fy) in Hs.
    discriminate.
Qed.

(** The leftmost hyphen becomes a comma, with all the whitespace around
    it, when whitespace stands on both sides. *)
Lemma dash_leftmost_converted (a b : str) :
  forallb not_hyphen a = true ->
  ends_with_space a = true -> starts_with_space b = true ->
  dash_pass (a ++ hyphen :: b)
  = rstrip a ++ lit ", " ++ dash_pass (lstrip b).
Proof.
  intros Ha Ea Eb.
  pose proof (rstrip_not_spaced a) as Ra.
  pose proof (lstrip_not_spaced b) as Lb.
  pose proof (forallb_rstrip not_hyphen a Ha) as Hra.
  pose proof (rstrip_last a) as Last.
  destruct (rstrip_spec a) as [w1 [Sa F1]].
  destruct (lstrip_spec b) as [w2 [Sb F2]].
  set (ra := rstrip a) in *. set (lb := lstrip b) in *.
  assert (N1 : w1 <> []).
  { intros ->. rewrite app_nil_r in Sa. congruence. }
  assert (N2 : w2 <> []).
  { intros ->. simpl in Sb. congruence. }
  rewrite Sa, Sb. unfold dash_pass, sub. rewrite <- app_assoc.
  rewrite sub_from_copy.
  - f_equal.
    change (w1 ++ hyphen :: w2 ++ lb) with (w1 ++ (hyphen :: w2) ++ lb).
    rewrite app_assoc. apply sub_from_match.
    + destruct w1; [contradiction | discriminate].
    + rewrite <- app_assoc. now apply dash_match_here.
  - intros a1 c t E.
    destruct (match_rest re_dash (c :: t ++ w1 ++ hyphen :: w2 ++ lb))
      as [rest|] eqn:M; [|reflexivity].
    exfalso. apply dash_match in M as [x [y [M [Nx [Fx _]]]]].
    change (c :: t ++ w1 ++ hyphen :: w2 ++ lb)
      with ((c :: t) ++ w1 ++ hyphen :: w2 ++ lb) in M.
    rewrite app_assoc in M.
    assert (Hc : forallb not_hyphen ((c :: t) ++ w1) = true).
    { rewrite forallb_app. apply andb_true_iff. split.
      - rewrite E, forallb_app in Hra. now apply andb_true_iff in Hra.
      - now apply space_not_hyphen. }
    destruct (first_hyphen ((c :: t) ++ w1) x (w2 ++ lb) (y ++ rest) Hc
                (space_not_hyphen x Fx) M) as [Ex _].
    rewrite <- Ex, forallb_app in Fx. apply andb_true_iff in Fx as [Fc _].
    destruct (@exists_last _ (c :: t)) as [t0 [z Ez]]; [discriminate|].
    rewrite Ez, forallb_app in Fc. apply andb_true_iff in Fc as [_ Fz].
    simpl in Fz. apply andb_true_iff in Fz as [Fz _].
    rewrite Ez, app_assoc in E. apply Last in E. congruence.
Qed.

End DashLeftmost.
Import DashLeftmost.

(* ================================================================== *)
(** * Plain text passes through *)
(* ================================================================== *)

Module PlainFacts.

Lemma requires_den (f : char -> bool) (r : regex) :
  requires f r ->
  forall pre rest, den r pre rest -> exists c, In c pre /\ f c = true.
Proof.
  induction r as [|p|r1 IH1 r2 IH2|r1 IH1|p|p|]; simpl; try contradiction.
  - intros H pre rest [c [-> Hc]]. exists c. split; [now left | now apply H].
  - intros [H|H] pre rest [a [b [-> [D1 D2]]]].
    + destruct (IH1 H _ _ D1) as [c [Hc F]]. exists c.
      split; [apply in_or_app; now left | exact F].
    + destruct (IH2 H _ _ D2) as [c [Hc F]]. exists c.
      split; [apply in_or_app; now right | exact F].
Qed.

(** A pattern that needs a character the text does not have matches
    nowhere in it. *)
Lemma requires_no_match (f : char -> bool) (r : regex) (s : str) :
  requires f r -> forallb (fun c => negb (f c)) s = true -> no_match r s.
Proof.
  intros Hr Hs a t ->.
  destruct (match_rest r t) as [rest|] eqn:M; [|reflexivity]. exfalso.
  apply match_rest_sound in M as [pre [-> D]].
  destruct (requires_den f r Hr pre rest D) as [c [Hc F]].
  rewrite forallb_forall in Hs. specialize (Hs c).
  rewrite F in Hs. discriminate Hs.
  apply in_or_app. right. apply in_or_app. now left.
Qed.

Lemma sub_requires (f : char -> bool) (r : regex) (repl s : str) :
  requires f r -> forallb (fun c => negb (f c)) s = true ->
  sub r repl s = s.
Proof. intros Hr Hs. now apply sub_from_id, (requires_no_match f). Qed.

(** Finding the needed character in the pattern. *)
Ltac find_factor :=
  first [ solve [intros c Hc; exact Hc]
        | left; find_factor
        | right; find_factor ].

Ltac find_required :=
  cbn [seq fold_right app requires ciword map lit br bullet_start Plus ch];
  find_factor.

Lemma bullet_block_requires : requires (eqc bullet) re_bullet_block.
Proof. unfold re_bullet_block. find_required. Qed.

Lemma bullet_tail_requires : requires (eqc bullet) re_bullet_tail.
Proof. unfold re_bullet_tail. find_required. Qed.

Lemma br_br_requires : requires (eqc lt) re_br_br.
Proof. unfold re_br_br. find_required. Qed.

Lemma br_requires : requires (eqc lt) re_br.
Proof. unfold re_br. find_required. Qed.

Lemma between_requires (name : string) : requires (eqc lt) (re_between name).
Proof. unfold re_between. find_required. Qed.

Lemma open_close_requires (name : string) :
  requires (eqc lt) (re_open_close name).
Proof. unfold re_open_close. find_required. Qed.

Lemma tag_requires : requires (eqc lt) re_tag.
Proof. unfold re_tag. find_required. Qed.

Lemma pipe_requires : requires (eqc (chr "|")) re_pipe.
Proof. unfold re_pipe. find_required. Qed.

Lemma lt_requires : requires (eqc lt) re_lt.
Proof. unfold re_lt. find_required. Qed.

Lemma gt_requires : requires (eqc (chr ">")) re_gt.
Proof. unfold re_gt. find_required. Qed.

Lemma newlines_requires : requires (eqc 10%N) re_newlines.
Proof. unfold re_newlines. find_required. Qed.

End PlainFacts.
Import PlainFacts.

Module PlainPasses.

Lemma spaced_hyphen_intro (p : str) (a c : char) (q : str) :
  is_space a = true -> is_space c = true ->
  spaced_hyphen (p ++ a :: hyphen :: c :: q) = true.
Proof.
  intros Ha Hc. induction p as [|d p IH].
  - cbn [app spaced_hyphen]. now rewrite Ha, Hc, eqc_refl.
  - change ((d :: p) ++ a :: hyphen :: c :: q)
      with (d :: (p ++ a :: hyphen :: c :: q)).
    cbn [spaced_hyphen]. rewrite IH. apply orb_true_r.
Qed.

Lemma spaced_hyphen_elim (s : str) :
  spaced_hyphen s = true ->
  exists p a c q, s = p ++ a :: hyphen :: c :: q
                  /\ is_space a = true /\ is_space c = true.
Proof.
  induction s as [|a t IH]; [discriminate|].
  cbn [spaced_hyphen]. intros H. apply orb_true_iff in H as [H|H].
  - destruct t as [|b [|c q]]; try discriminate.
    apply andb_true_iff in H as [H Hc]. apply andb_true_iff in H as [Ha Hb].
    apply eqc_eq in Hb. subst b. now exists [], a, c, q.
  - destruct (IH H) as [p [a' [c [q [-> [Ha Hc]]]]]].
    now exists (a :: p), a', c, q.
Qed.

(** A part of a text without a spaced hyphen has none. *)
Lemma spaced_hyphen_part (x s y : str) :
  spaced_hyphen (x ++ s ++ y) = false -> spaced_hyphen s = false.
Proof.
  intros H. destruct (spaced_hyphen s) eqn:E; [|reflexivity].
  apply spaced_hyphen_elim in E as [p [a [c [q [-> [Ha Hc]]]]]].
  rewrite <- H. symmetry.
  replace (x ++ (p ++ a :: hyphen :: c :: q) ++ y)
    with ((x ++ p) ++ a :: hyphen :: c :: (q ++ y)).
  - now apply spaced_hyphen_intro.
  - now rewrite <- !app_assoc.
Qed.

Lemma strip_part (s : str) : exists x y, s = x ++ strip s ++ y.
Proof.
  unfold strip. destruct (lstrip_spec s) as [x [Ex _]].
  destruct (rstrip_spec (lstrip s)) as [y [Ey _]].
  exists x, y. now rewrite <- Ey.
Qed.

(** The parts of [plain]. *)
Lemma plain_parts (s : str) :
  plain s = true ->
  forallb (fun c => negb (special c)) s = true
  /\ forallb (fun e => negb (contains e s)) all_entities = true
  /\ spaced_hyphen s = false
  /\ contains (lit "..") s = false
  /\ forallb (fun c => negb (eqc bullet c)) s = true
  /\ contains LONG_PAUSE s = false
  /\ contains MED_PAUSE s = false.
Proof.
  unfold plain, plain_as_specified. intros H.
  apply andb_true_iff in H as [H H7]. apply andb_true_iff in H as [H H6].
  apply andb_true_iff in H as [H H5]. apply andb_true_iff in H as [H H4].
  apply andb_true_iff in H as [H H3]. apply andb_true_iff in H as [H1 H2].
  apply negb_true_iff in H3, H4, H6, H7. now repeat split.
Qed.

Lemma plain_strip (s : str) : plain s = true -> plain (strip s) = true.
Proof.
  intros H. apply plain_parts in H as [H1 [H2 [H3 [H4 [H5 [H6 H7]]]]]].
  unfold plain, plain_as_specified.
  apply andb_true_iff; split;
    [apply andb_true_iff; split;
     [apply andb_true_iff; split;
      [apply andb_true_iff; split;
       [apply andb_true_iff; split;
        [apply andb_true_iff; split|]|]|]|]|].
  - now apply forallb_strip.
  - apply forallb_forall. intros e He.
    rewrite forallb_forall in H2. specialize (H2 e He).
    apply negb_true_iff in H2. apply negb_true_iff.
    now apply strip_keeps_out.
  - apply negb_true_iff. destruct (strip_part s) as [x [y E]].
    rewrite E in H3. now apply spaced_hyphen_part in H3.
  - apply negb_true_iff. now apply strip_keeps_out.
  - now apply forallb_strip.
  - apply negb_true_iff. now apply strip_keeps_out.
  - apply negb_true_iff. now apply strip_keeps_out.
Qed.

Lemma not_special (f : char -> bool) (s : str) :
  (forall c, f c = true -> special c = true) ->
  forallb (fun c => negb (special c)) s = true ->
  forallb (fun c => negb (f c)) s = true.
Proof.
  intros Hf H. rewrite forallb_forall in *. intros c Hc.
  specialize (H c Hc). apply negb_true_iff in H. apply negb_true_iff.
  destruct (f c) eqn:E; [|reflexivity]. rewrite (Hf c E) in H. discriminate.
Qed.

Ltac special_char :=
  let c := fresh "c" in
  let H := fresh "H" in
  intros c H; try unfold lt in H; unfold special; rewrite H;
  repeat rewrite orb_true_r; reflexivity.

Lemma no_lt (s : str) :
  forallb (fun c => negb (special c)) s = true ->
  forallb (fun c => negb (eqc lt c)) s = true.
Proof. apply not_special. special_char. Qed.

Lemma no_gt (s : str) :
  forallb (fun c => negb (special c)) s = true ->
  forallb (fun c => negb (eqc (chr ">") c)) s = true.
Proof. apply not_special. special_char. Qed.

Lemma no_pipe (s : str) :
  forallb (fun c => negb (special c)) s = true ->
  forallb (fun c => negb (eqc (chr "|") c)) s = true.
Proof. apply not_special. special_char. Qed.

Lemma no_newline (s : str) :
  forallb (fun c => negb (special c)) s = true ->
  forallb (fun c => negb (eqc 10%N c)) s = true.
Proof. apply not_special. special_char. Qed.

Lemma decode_table_id (table : list (str * str)) (s : str) :
  forallb (fun e => negb (contains (fst e) s)) table = true ->
  Forall (fun e => fst e <> []) table ->
  fold_left (fun acc er => replace (fst er) (snd er) acc) table s = s.
Proof.
  induction table as [|[e r] table IH]; intros H N; simpl; [reflexivity|].
  simpl in H. apply andb_true_iff in H as [He H].
  apply negb_true_iff in He. inversion N as [|? ? Ne N']; subst.
  rewrite replace_id by assumption. now apply IH.
Qed.

Lemma entities_nonempty : Forall (fun e => fst e <> []) html_entities.
Proof. unfold html_entities. repeat constructor; discriminate. Qed.

Lemma dots_match_start (r : regex) (t : str) :
  r = re_dots4 \/ r = re_dots3 \/ r = re_dots2 ->
  match_rest r t <> None -> starts_with (lit "..") t = true.
Proof.
  intros Hr H.
  destruct t as [|c1 [|c2 t]];
    [ exfalso; apply H; destruct Hr as [-> | [-> | ->]]; reflexivity | | ].
  - exfalso. apply H. unfold match_rest.
    destruct Hr as [-> | [-> | ->]];
      unfold re_dots4, re_dots3, re_dots2, AtLeast, Times;
      cbn [m seq fold_right repeat]; now destruct (is_dot c1).
  - destruct (is_dot c1) eqn:E1.
    + destruct (is_dot c2) eqn:E2.
      * apply is_dot_eq in E1, E2. subst. reflexivity.
      * exfalso. apply H. unfold match_rest.
        destruct Hr as [-> | [-> | ->]];
          unfold re_dots4, re_dots3, re_dots2, AtLeast, Times;
          cbn [m seq fold_right repeat]; now rewrite E1, E2.
    + exfalso. apply H. unfold match_rest.
      destruct Hr as [-> | [-> | ->]];
        unfold re_dots4, re_dots3, re_dots2, AtLeast, Times;
        cbn [m seq fold_right repeat]; now rewrite E1.
Qed.

Lemma dots_no_match (r : regex) (s : str) :
  r = re_dots4 \/ r = re_dots3 \/ r = re_dots2 ->
  contains (lit "..") s = false -> no_match r s.
Proof.
  intros Hr H a t ->.
  destruct (match_rest r t) as [rest|] eqn:M; [|reflexivity]. exfalso.
  assert (S : starts_with (lit "..") t = true)
    by (apply (dots_match_start r); [exact Hr | now rewrite M]).
  apply starts_with_spec in S as [u ->].
  assert (C : contains (lit "..") (a ++ lit ".." ++ u) = true)
    by (apply contains_spec; now exists a, u).
  congruence.
Qed.

Lemma dash_no_match (s : str) : spaced_hyphen s = false -> no_match re_dash s.
Proof.
  intros H a t ->.
  destruct (match_rest re_dash t) as [rest|] eqn:M; [|reflexivity]. exfalso.
  apply dash_match in M as [x [y [-> [Nx [Fx [Ny Fy]]]]]].
  destruct (@exists_last _ x Nx) as [x' [z ->]].
  destruct y as [|c y]; [contradiction|].
  rewrite forallb_app in Fx. apply andb_true_iff in Fx as [_ Fz].
  simpl in Fz, Fy. apply andb_true_iff in Fz as [Fz _].
  apply andb_true_iff in Fy as [Fc _].
  assert (T : spaced_hyphen (a ++ (x' ++ [z]) ++ hyphen :: (c :: y) ++ rest)
              = true).
  { replace (a ++ (x' ++ [z]) ++ hyphen :: (c :: y) ++ rest)
      with ((a ++ x') ++ z :: hyphen :: c :: (y ++ rest)).
    - now apply spaced_hyphen_intro.
    - rewrite <- !app_assoc. reflexivity. }
  congruence.
Qed.

End PlainPasses.
Import PlainPasses.

Module PlainIdentity.

Lemma entity_absent (e s : str) :
  forallb (fun e => negb (contains e s)) all_entities = true ->
  In e all_entities -> contains e s = false.
Proof.
  intros H He. rewrite forallb_forall in H.
  now apply negb_true_iff, H.
Qed.

(** On plain text every pass before the whitespace pass changes nothing. *)
Lemma plain_passes (u : str) :
  plain u = true ->
  remove_bullets u = u /\ decode_entities u = u /\ markup_pauses u = u
  /\ strip_tags u = u /\ decode_angles u = u /\ separators u = u
  /\ linebreaks u = u /\ dot_runs u = u.
Proof.
  intros H. apply plain_parts in H as [H1 [H2 [H3 [H4 [Hb [H5 H6]]]]]].
  pose proof (no_lt u H1) as Hlt. pose proof (no_gt u H1) as Hgt.
  pose proof (no_pipe u H1) as Hpipe. pose proof (no_newline u H1) as Hnl.
  repeat split.
  - unfold remove_bullets.
    rewrite (sub_requires _ _ _ u bullet_block_requires Hb).
    now rewrite (sub_requires _ _ _ u bullet_tail_requires Hb).
  - unfold decode_entities. apply decode_table_id; [|apply entities_nonempty].
    apply forallb_forall. intros [e r] He. apply negb_true_iff.
    apply (entity_absent e u H2). unfold all_entities.
    apply in_or_app. left. now apply (in_map fst) in He.
  - unfold markup_pauses.
    rewrite (sub_requires _ _ _ u br_br_requires Hlt).
    rewrite (sub_requires _ _ _ u br_requires Hlt).
    rewrite (sub_requires _ _ _ u (between_requires "li") Hlt).
    rewrite (sub_requires _ _ _ u (open_close_requires "li") Hlt).
    rewrite (sub_requires _ _ _ u (open_close_requires "ul") Hlt).
    rewrite (sub_requires _ _ _ u (open_close_requires "ol") Hlt).
    rewrite (sub_requires _ _ _ u (between_requires "div") Hlt).
    now rewrite (sub_requires _ _ _ u (open_close_requires "div") Hlt).
  - unfold strip_tags. now rewrite (sub_requires _ _ _ u tag_requires Hlt).
  - unfold decode_angles.
    rewrite (replace_id (lit "&lt;") _ u); [|discriminate|].
    + apply replace_id; [discriminate|].
      apply (entity_absent _ u H2). unfold all_entities.
      apply in_or_app. right. right. now left.
    + apply (entity_absent _ u H2). unfold all_entities.
      apply in_or_app. right. now left.
  - unfold separators, pipe_pass, dash_pass, angle_pass.
    rewrite (sub_requires _ _ _ u pipe_requires Hpipe).
    unfold sub at 3. rewrite (sub_from_id re_dash _ u (dash_no_match u H3)).
    rewrite (sub_requires _ _ _ u lt_requires Hlt).
    now rewrite (sub_requires _ _ _ u gt_requires Hgt).
  - unfold linebreaks.
    now rewrite (sub_requires _ _ _ u newlines_requires Hnl).
  - unfold dot_runs, classify_dots, resolve_placeholders, sub.
    rewrite (sub_from_id re_dots4 _ u)
      by (apply dots_no_match; [now left | exact H4]).
    rewrite (sub_from_id re_dots3 _ u)
      by (apply dots_no_match; [right; now left | exact H4]).
    rewrite (sub_from_id re_dots2 _ u)
      by (apply dots_no_match; [right; now right | exact H4]).
    rewrite (sub_from_id (word LONG_PAUSE) _ u)
      by (apply word_no_match; [discriminate | exact H5]).
    apply sub_from_id, word_no_match; [discriminate | exact H6].
Qed.

Lemma plain_normalized (text : str) :
  plain text = true -> normalized text = clean_whitespace (strip text).
Proof.
  intros H. apply plain_strip, plain_passes in H
    as [E1 [E2 [E3 [E4 [E5 [E6 [E7 E8]]]]]]].
  unfold normalized, before_dots. now rewrite E1, E2, E3, E4, E5, E6, E7, E8.
Qed.

End PlainIdentity.
Import PlainIdentity.

(* ================================================================== *)
(** * The whitespace pass *)
(* ================================================================== *)

Module WhitespaceFacts.

Lemma star_spaces (t : str) :
  star_g is_space (fun u => Some u) t = Some (lstrip t).
Proof.
  induction t as [|c t IH]; simpl; [reflexivity|].
  destruct (is_space c); [now rewrite IH | reflexivity].
Qed.

Lemma spaces_match (c : char) (t : str) :
  match_rest re_spaces (c :: t)
  = if is_space c then Some (lstrip t) else None.
Proof.
  unfold match_rest, re_spaces, Plus. cbn [m].
  destruct (is_space c); [apply star_spaces | reflexivity].
Qed.

Lemma lstrip_length (t : str) : length (lstrip t) <= length t.
Proof.
  destruct (lstrip_spec t) as [w [E _]]. rewrite E at 2.
  rewrite length_app. lia.
Qed.

(** The substitution of [\s+] by one space, character by character. *)
Lemma sub_spaces_squeeze (s : str) :
  sub_from re_spaces (lit " ") 0 s = squeeze false s
  /\ sub_from re_spaces (lit " ") (length s - length (lstrip s)) s
     = squeeze true s.
Proof.
  induction s as [|c t [IH0 IH1]]; [split; reflexivity|].
  pose proof (lstrip_length t) as L.
  assert (M : match_len re_spaces (c :: t)
              = if is_space c
                then Some (S (length t - length (lstrip t))) else None).
  { unfold match_len. rewrite spaces_match.
    destruct (is_space c); [|reflexivity]. f_equal. cbn [length]. lia. }
  cbn [squeeze lstrip]. destruct (is_space c) eqn:Hc.
  - cbn [length].
    replace (S (length t) - length (lstrip t))
      with (S (length t - length (lstrip t))) by lia.
    cbn [sub_from]. rewrite M. split; [now rewrite IH1 | exact IH1].
  - rewrite Nat.sub_diag. cbn [sub_from]. rewrite M.
    split; now rewrite IH0.
Qed.

Lemma squeeze_lstrip (s : str) : squeeze true s = squeeze false (lstrip s).
Proof.
  induction s as [|c t IH]; [reflexivity|]. cbn [squeeze lstrip].
  destruct (is_space c) eqn:Hc; [exact IH|]. cbn [squeeze]. now rewrite Hc.
Qed.

Lemma rstrip_spaces (w : str) : forallb is_space w = true -> rstrip w = [].
Proof.
  intros H. rewrite <- (app_nil_l w). now rewrite rstrip_app_spaces.
Qed.

Lemma rstrip_cons (c : char) (x : str) :
  rstrip (c :: x)
  = match rstrip x with
    | [] => if is_space c then [] else [c]
    | _ => c :: rstrip x
    end.
Proof.
  destruct (rstrip_spec x) as [w [E F]].
  pose proof (rstrip_last x) as Last.
  destruct (rstrip x) as [|d y] eqn:R.
  - simpl in E. subst x. destruct (is_space c) eqn:Hc.
    + apply rstrip_spaces. simpl. now rewrite Hc.
    + change (c :: w) with ([c] ++ w). rewrite rstrip_app_spaces by exact F.
      now apply (rstrip_snoc []).
  - destruct (@exists_last _ (d :: y)) as [y0 [z Ez]]; [discriminate|].
    rewrite Ez in *. rewrite E.
    change (c :: (y0 ++ [z]) ++ w) with ((c :: y0 ++ [z]) ++ w).
    rewrite rstrip_app_spaces by exact F.
    change (c :: y0 ++ [z]) with ((c :: y0) ++ [z]).
    apply rstrip_snoc. now apply (Last y0 z).
Qed.

(** The words of [split] are not empty. *)
Lemma split_ws_nonempty (s cur : str) :
  Forall (fun w => w <> []) (split_ws cur s).
Proof.
  revert cur; induction s as [|c t IH]; intros cur; simpl.
  - destruct cur; [constructor | repeat constructor; discriminate].
  - destruct (is_space c); [|apply IH].
    destruct cur; [apply IH | constructor; [discriminate | apply IH]].
Qed.

Lemma join_nonempty (sep w : str) (l : list str) :
  w <> [] -> join sep (w :: l) <> [].
Proof.
  intros H. simpl. destruct l; [exact H|].
  destruct w; [contradiction | discriminate].
Qed.

(** [join] and [split] against the pass. *)
Lemma join_split_squeeze (s : str) :
  join (lit " ") (split_ws [] s) = rstrip (squeeze true s)
  /\ forall cur, cur <> [] ->
       join (lit " ") (split_ws cur s) = cur ++ rstrip (squeeze false s).
Proof.
  induction s as [|c t [IH1 IH2]].
  - split; [reflexivity|]. intros cur H. simpl.
    destruct cur; [contradiction|]. now rewrite app_nil_r.
  - cbn [split_ws squeeze]. destruct (is_space c) eqn:Hc.
    + split; [exact IH1|]. intros cur H.
      destruct cur as [|a cur]; [contradiction|].
      rewrite rstrip_cons. rewrite <- IH1.
      pose proof (split_ws_nonempty t []) as N.
      destruct (split_ws [] t) as [|w l] eqn:E.
      * simpl. now rewrite app_nil_r.
      * inversion N as [|? ? Nw _]; subst.
        pose proof (join_nonempty (lit " ") w l Nw) as J.
        change (join (lit " ") ((a :: cur) :: w :: l))
          with ((a :: cur) ++ lit " " ++ join (lit " ") (w :: l)).
        destruct (join (lit " ") (w :: l)) as [|j1 j]; [contradiction|].
        reflexivity.
    + assert (R : rstrip (c :: squeeze false t) = c :: rstrip (squeeze false t)).
      { rewrite rstrip_cons, Hc. now destruct (rstrip (squeeze false t)). }
      rewrite R. split.
      * change (split_ws ([] ++ [c]) t) with (split_ws [c] t).
        now rewrite (IH2 [c]) by discriminate.
      * intros cur H. rewrite (IH2 (cur ++ [c])).
        -- now rewrite <- app_assoc.
        -- destruct cur; discriminate.
Qed.

(** Whitespace at the end does not show after [rstrip]. *)
Lemma squeeze_app_spaces (x w : str) (b : bool) :
  forallb is_space w = true ->
  exists w', squeeze b (x ++ w) = squeeze b x ++ w'
             /\ forallb is_space w' = true.
Proof.
  intros F. revert b. induction x as [|c x IH]; intros b.
  - exists (squeeze b w). split; [reflexivity|].
    revert b. induction w as [|d w IHw]; intros b; [reflexivity|].
    simpl in F. apply andb_true_iff in F as [Hd F]. cbn [squeeze].
    rewrite Hd. destruct b; [now apply IHw|].
    simpl. now apply IHw.
  - cbn [app squeeze]. destruct (is_space c).
    + destruct (IH true) as [w' [E F']]. destruct b.
      * now exists w'.
      * exists w'. split; [now rewrite E | exact F'].
    + destruct (IH false) as [w' [E F']]. exists w'.
      split; [now rewrite E | exact F'].
Qed.

Lemma squeeze_head (s : str) :
  match s with [] => True | c :: _ => is_space c = false end ->
  match squeeze false s with [] => True | c :: _ => is_space c = false end.
Proof.
  destruct s as [|c t]; [trivial|]. intros Hc. cbn [squeeze]. now rewrite Hc.
Qed.

(** The whitespace pass is [" ".join(s.split())]. *)
Lemma clean_whitespace_spec (s : str) :
  clean_whitespace (strip s) = collapse_whitespace s.
Proof.
  unfold clean_whitespace, collapse_whitespace, sub.
  rewrite (proj1 (sub_spaces_squeeze (strip s))).
  rewrite (proj1 (join_split_squeeze s)), squeeze_lstrip.
  unfold strip at 1.
  rewrite (lstrip_fixed (squeeze false (strip s))).
  - unfold strip. destruct (rstrip_spec (lstrip s)) as [w [E F]].
    rewrite E at 2.
    destruct (squeeze_app_spaces (rstrip (lstrip s)) w false F) as [w' [-> F']].
    now rewrite rstrip_app_spaces.
  - apply squeeze_head. unfold strip. apply rstrip_keeps_head, lstrip_head.
Qed.

End WhitespaceFacts.
Import WhitespaceFacts.

(* ================================================================== *)
(** * [process_text] and the note *)
(* ================================================================== *)

Module NoteFacts.

Lemma note_has_set (name f : string) (v : str) (n : Note) :
  note_has name (note_set f v n) = note_has name n.
Proof.
  induction n as [|[k x] n IH]; [reflexivity|]. simpl.
  destruct (String.eqb k f); simpl; [reflexivity | now rewrite IH].
Qed.

Lemma find_audio_field_set (f : string) (v : str) (n : Note) :
  find_audio_field (note_set f v n) = find_audio_field n.
Proof.
  unfold find_audio_field. induction audio_fields as [|a l IH]; [reflexivity|].
  simpl. now rewrite note_has_set, IH.
Qed.

Lemma note_set_set (f : string) (v v' : str) (n : Note) :
  note_set f v' (note_set f v n) = note_set f v' n.
Proof.
  induction n as [|[k x] n IH]; [reflexivity|]. simpl.
  destruct (String.eqb k f) eqn:E; simpl; rewrite E; [reflexivity|].
  now rewrite IH.
Qed.

Lemma audio_field_only_refl (n : option Note) : audio_field_only n n.
Proof. now left. Qed.

Lemma audio_field_only_trans (a b c : option Note) :
  audio_field_only a b -> audio_field_only b c -> audio_field_only a c.
Proof.
  intros [-> | [n [f [v [-> [F ->]]]]]] H; [exact H|].
  destruct H as [-> | [n' [f' [v' [E [F' ->]]]]]].
  - right. now exists n, f, v.
  - injection E as <-. rewrite find_audio_field_set, F in F'.
    injection F' as <-. right. exists n, f, v'.
    now rewrite note_set_set.
Qed.

(** ** Commands that keep the note *)

Lemma keeps_ret {A} (a : A) : keeps_note (ret a).
Proof. now intros w. Qed.

Lemma keeps_raise {A} (e : Exn) : keeps_note (@raise A e).
Proof. now intros w. Qed.

Lemma keeps_get : keeps_note get.
Proof. now intros w. Qed.

Lemma keeps_check (o : option Exn) : keeps_note (check o).
Proof. destruct o; now intros w. Qed.

Lemma keeps_call {A} (r : Exn + A) : keeps_note (call r).
Proof. destruct r; now intros w. Qed.

Lemma keeps_show (n : Notice) : keeps_note (show_notice n).
Proof. now intros w. Qed.

Lemma keeps_set_files (fs : list (str * list N)) : keeps_note (set_files fs).
Proof. now intros w. Qed.

Lemma keeps_add_media (name : str) : keeps_note (add_media name).
Proof. now intros w. Qed.

Lemma keeps_count_reload : keeps_note count_reload.
Proof. now intros w. Qed.

Lemma keeps_bind {A B} (c : M A) (f : A -> M B) :
  keeps_note c -> (forall a, keeps_note (f a)) -> keeps_note (bind c f).
Proof.
  intros Hc Hf w. unfold bind. specialize (Hc w).
  destruct (c w) as [[a|e] w']; simpl in *; [|exact Hc].
  now rewrite (Hf a w').
Qed.

Lemma keeps_try {A} (c : M A) (h : Exn -> M A) :
  keeps_note c -> (forall e, keeps_note (h e)) -> keeps_note (try_except c h).
Proof.
  intros Hc Hh w. unfold try_except. specialize (Hc w).
  destruct (c w) as [[a|e] w']; simpl in *; [exact Hc|].
  now rewrite (Hh e w').
Qed.

Lemma keeps_tts (self : Processor) (env : Env) (text : PyValue) :
  keeps_note (process_text_for_tts self env text).
Proof. intros w. destruct (tts_run self env text w) as [l [-> _]]. reflexivity. Qed.

(** Going through a command built from the ones above. *)
Ltac keeps :=
  repeat first
    [ apply keeps_ret | apply keeps_raise | apply keeps_get
    | apply keeps_check | apply keeps_call | apply keeps_show
    | apply keeps_set_files | apply keeps_add_media
    | apply keeps_count_reload | apply keeps_tts
    | apply keeps_bind; [|intros ?]
    | apply keeps_try; [|intros ?]
    | match goal with
      | |- keeps_note (if ?b then _ else _) => destruct b
      | |- keeps_note (match ?x with _ => _ end) => destruct x
      end ].

Lemma keeps_create_audio_file (self : Processor) (env : Env) (text : str) :
  keeps_note (create_audio_file self env text).
Proof. unfold create_audio_file, showCritical. keeps. Qed.

Lemma keeps_get_field_content (self : Processor) :
  keeps_note (get_field_content self).
Proof. unfold get_field_content, showCritical. keeps. Qed.

Lemma keeps_os_remove (env : Env) (path : str) : keeps_note (os_remove env path).
Proof. unfold os_remove. keeps. Qed.

(** ** Commands that may write the audio field *)

Lemma touches_keeps {A} (c : M A) : keeps_note c -> touches_audio_only c.
Proof. intros H w. left. apply H. Qed.

Lemma touches_bind {A B} (c : M A) (f : A -> M B) :
  touches_audio_only c -> (forall a, touches_audio_only (f a)) ->
  touches_audio_only (bind c f).
Proof.
  intros Hc Hf w. unfold bind. specialize (Hc w).
  destruct (c w) as [[a|e] w']; simpl in *; [|exact Hc].
  exact (audio_field_only_trans _ _ _ Hc (Hf a w')).
Qed.

Lemma touches_try {A} (c : M A) (h : Exn -> M A) :
  touches_audio_only c -> (forall e, touches_audio_only (h e)) ->
  touches_audio_only (try_except c h).
Proof.
  intros Hc Hh w. unfold try_except. specialize (Hc w).
  destruct (c w) as [[a|e] w']; simpl in *; [exact Hc|].
  exact (audio_field_only_trans _ _ _ Hc (Hh e w')).
Qed.

Lemma touches_clear_audio_field : touches_audio_only clear_audio_field.
Proof.
  intros w. unfold clear_audio_field, try_except, bind, get, set_note, ret.
  destruct (note w) as [n|] eqn:E; simpl; [|now left].
  destruct (find_audio_field n) as [f|] eqn:F; simpl; [|now left].
  right. now exists n, f, [].
Qed.

End NoteFacts.
Import NoteFacts.

Module ProcessFacts.

Lemma touches_get_bind {B} (f : World -> M B) :
  (forall w, audio_field_only (note w) (note (snd (f w w)))) ->
  touches_audio_only (bind get f).
Proof. intros H w. exact (H w). Qed.

Ltac keeps_all :=
  unfold showInfo, showCritical;
  repeat first
    [ apply keeps_ret | apply keeps_raise | apply keeps_get
    | apply keeps_check | apply keeps_call | apply keeps_show
    | apply keeps_set_files | apply keeps_add_media
    | apply keeps_count_reload | apply keeps_tts
    | apply keeps_create_audio_file | apply keeps_get_field_content
    | apply keeps_os_remove
    | apply keeps_bind; [|intros ?]
    | apply keeps_try; [|intros ?]
    | match goal with
      | |- keeps_note (if ?b then _ else _) => destruct b
      | |- keeps_note (match ?x with _ => _ end) => destruct x
      end ].

Lemma touches_add_audio_to_note (env : Env) (audio_path : str) :
  touches_audio_only (add_audio_to_note env audio_path).
Proof.
  unfold add_audio_to_note.
  apply touches_try; [|intros e; apply touches_keeps; solve [keeps_all]].
  apply touches_bind; [apply touches_keeps, keeps_get|]. intros w0.
  destruct (negb (file_exists audio_path (files w0)));
    [apply touches_keeps; solve [keeps_all]|].
  apply touches_bind; [apply touches_keeps; solve [keeps_all]|]. intros media_name.
  apply touches_get_bind. intros w.
  destruct (note w) as [n|] eqn:E; [|left; cbn; exact E].
  destruct (find_audio_field n) as [f|] eqn:F.
  - right. exists n, f, (lit "[sound:" ++ media_name ++ lit "]").
    now repeat split.
  - left. cbn. exact E.
Qed.

(** Whatever happens, [process_text] changes no field of the note but the
    first audio field it has. *)
Lemma touches_process_text (self : Processor) (env : Env) :
  touches_audio_only (process_text self env).
Proof.
  unfold process_text.
  destruct (negb (enabled self)); [apply touches_keeps; solve [keeps_all]|].
  destruct (negb (SPEECHIFY_AVAILABLE env)); [apply touches_keeps; solve [keeps_all]|].
  destruct (negb (truthy (PyStr (api_key self)))
            || str_eqb (api_key self) (lit "your-api-key-here"));
    [apply touches_keeps; solve [keeps_all]|].
  apply touches_try; [|intros e; apply touches_keeps; solve [keeps_all]].
  apply touches_bind; [apply touches_keeps; solve [keeps_all]|]. intros text.
  destruct text as [|c t]; [apply touches_keeps; solve [keeps_all]|].
  destruct (strip (c :: t)); [apply touches_keeps; solve [keeps_all]|].
  destruct (max_chars self <? N.of_nat (length (c :: t)))%N;
    [apply touches_keeps; solve [keeps_all]|].
  apply touches_bind; [apply touches_clear_audio_field|]. intros _.
  apply touches_bind; [apply touches_keeps; solve [keeps_all]|]. intros audio_path.
  destruct audio_path as [[|p0 p]|]; try (apply touches_keeps; solve [keeps_all]).
  apply touches_bind; [apply touches_add_audio_to_note|]. intros success.
  destruct success; apply touches_keeps; solve [keeps_all].
Qed.

Lemma get_field_content_run (self : Processor) (w : World) :
  get_field_content self w = (Ok (field_content w), w).
Proof.
  unfold get_field_content, field_content, try_except, bind, get, ret.
  destruct (note w) as [n|]; [|reflexivity].
  now destruct (1 <? length n).
Qed.

(** A call that fails one of the checks before the audio field is cleared
    returns [False], shows one message, and changes nothing else. *)
Lemma rejected_early_run (self : Processor) (env : Env) (w : World) :
  rejected_early self env w = true ->
  exists msg,
    process_text self env w
    = (Ok false,
       {| note := note w; files := files w; media := media w;
          convert_log := convert_log w;
          notices := notices w ++ [msg]; reloads := reloads w |}).
Proof.
  unfold rejected_early, process_text. intros H.
  destruct (negb (enabled self)); [eexists; reflexivity|].
  destruct (negb (SPEECHIFY_AVAILABLE env)); [eexists; reflexivity|].
  destruct (negb (truthy (PyStr (api_key self)))); [eexists; reflexivity|].
  destruct (str_eqb (api_key self) (lit "your-api-key-here"));
    [eexists; reflexivity|].
  cbn [orb] in H |- *. unfold try_except, bind at 1.
  rewrite get_field_content_run.
  destruct (field_content w) as [|c t]; [eexists; reflexivity|].
  destruct (strip (c :: t)); [eexists; reflexivity|].
  rewrite H. eexists; reflexivity.
Qed.

End ProcessFacts.
Import ProcessFacts.

(* ================================================================== *)
(** * [process_text] once the checks have passed *)
(* ================================================================== *)

Module ProcessRuns.

Lemma with_audio_twice (v v' : str) (n : Note) :
  with_audio v' (with_audio v n) = with_audio v' n.
Proof.
  unfold with_audio. destruct (find_audio_field n) as [f|] eqn:F.
  - now rewrite find_audio_field_set, F, note_set_set.
  - now rewrite F.
Qed.

Lemma with_audio_twice_opt (v v' : str) (n : option Note) :
  option_map (with_audio v') (option_map (with_audio v) n)
  = option_map (with_audio v') n.
Proof. destruct n; [|reflexivity]. simpl. now rewrite with_audio_twice. Qed.

Lemma clear_run (w : World) :
  exists w', clear_audio_field w = (Ok tt, w')
             /\ note w' = option_map (with_audio []) (note w).
Proof.
  unfold clear_audio_field, try_except, bind, get, set_note, ret, with_audio.
  destruct (note w) as [n|] eqn:E; cbn [option_map fst snd].
  - destruct (find_audio_field n) as [f|]; eexists; split;
      try reflexivity; cbn [note]; now rewrite ?E.
  - eexists; split; [reflexivity | now rewrite E].
Qed.

Lemma create_run (self : Processor) (env : Env) (text : str) (w : World) :
  exists r w', create_audio_file self env text w = (Ok r, w')
               /\ note w' = note w.
Proof.
  pose proof (keeps_create_audio_file self env text w) as K.
  destruct (create_audio_file self env text w) as [r w'] eqn:E.
  simpl in K. unfold create_audio_file in E.
  destruct (negb (enabled self) || negb (SPEECHIFY_AVAILABLE env)).
  - injection E as <- <-. now exists None, w.
  - unfold try_except in E.
    match type of E with
    | (match ?c with _ => _ end) = _ => destruct c as [[a|e] w1]
    end.
    + injection E as <- <-. now exists a, w1.
    + cbn in E. injection E as <- <-. eexists; eexists; split;
        [reflexivity | exact K].
Qed.

Lemma add_run (env : Env) (path : str) (w : World) :
  exists b w',
    add_audio_to_note env path w = (Ok b, w')
    /\ ((b = true
         /\ exists m n f,
              note w = Some n /\ find_audio_field n = Some f
              /\ note w' = option_map (with_audio (sound_tag m)) (note w))
        \/ (b = false /\ note w' = note w)).
Proof.
  unfold add_audio_to_note, try_except, bind at 1, get.
  destruct (negb (file_exists path (files w))).
  { eexists; eexists; split; [reflexivity | right; now split]. }
  unfold bind at 1.
  assert (Hm : exists r w1,
             (if mw_col env
              then bind (call (add_file env path))
                     (fun name => bind (add_media name) (fun _ => ret name))
              else bind (showInfo (lit "TEST MODE: Would add audio file "
                                       ++ basename env path))
                     (fun _ => ret (basename env path))) w = (r, w1)
             /\ note w1 = note w).
  { destruct (mw_col env).
    - destruct (add_file env path) as [e|name]; eexists; eexists;
        split; reflexivity.
    - eexists; eexists; split; reflexivity. }
  destruct Hm as [r [w1 [-> N1]]].
  destruct r as [media_name|e].
  - unfold bind at 1. cbn [fst snd].
    destruct (note w1) as [n|] eqn:E.
    + destruct (find_audio_field n) as [f|] eqn:F.
      * eexists; eexists; split; [reflexivity|]. left. split; [reflexivity|].
        exists media_name, n, f.
        split; [now rewrite <- N1|]. split; [exact F|].
        rewrite <- N1. cbn [option_map note snd]. unfold with_audio.
        now rewrite F.
      * eexists; eexists; split; [reflexivity|]. right.
        split; [reflexivity|]. cbn. congruence.
    + eexists; eexists; split; [reflexivity|]. right.
      split; [reflexivity|]. cbn. congruence.
  - eexists; eexists; split; [reflexivity|]. right.
    split; [reflexivity|]. cbn. exact N1.
Qed.

(** After a successful attach: the reload and the removal of the file. *)
Lemma tail_run (env : Env) (path : str) (w : World) :
  exists r w',
    bind (if ANKI_AVAILABLE env && has_loadNote env
          then bind (check (loadNote_fails env)) (fun _ => count_reload)
          else ret tt)
      (fun _ => bind (try_except (os_remove env path) (fun _ => ret tt))
                  (fun _ => ret true)) w = (r, w')
    /\ note w' = note w
    /\ (r = Ok true \/ exists e, r = Raised e).
Proof.
  match goal with
  | |- exists r w', ?c w = _ /\ _ =>
      assert (K : keeps_note c) by keeps_all;
      specialize (K w); destruct (c w) as [r w'] eqn:E
  end.
  exists r, w'. split; [reflexivity|]. split; [exact K|].
  unfold bind, try_except, check, count_reload, ret, raise in E.
  destruct (ANKI_AVAILABLE env && has_loadNote env).
  - destruct (loadNote_fails env) as [e|].
    + injection E as <- _. right. now exists e.
    + match type of E with
      | (match (match ?c with _ => _ end) with _ => _ end) = _ =>
          destruct c as [[[]|e] w1]
      end; injection E as <- _; now left.
  - match type of E with
    | (match (match ?c with _ => _ end) with _ => _ end) = _ =>
        destruct c as [[[]|e] w1]
    end; injection E as <- _; now left.
Qed.

End ProcessRuns.
Import ProcessRuns.

Module ProcessLate.

Lemma process_text_late_run (self : Processor) (env : Env) (w : World) :
  rejected_early self env w = false ->
  forall r w', process_text self env w = (r, w') ->
  exists v,
    note w' = option_map (with_audio v) (note w)
    /\ (v = [] \/ exists m, v = sound_tag m)
    /\ (r = Ok true ->
        (exists m, v = sound_tag m)
        /\ exists n f, note w = Some n /\ find_audio_field n = Some f).
Proof.
  unfold rejected_early, process_text. intros H r w' E.
  destruct (negb (enabled self)); [discriminate H|].
  destruct (negb (SPEECHIFY_AVAILABLE env)); [discriminate H|].
  destruct (negb (truthy (PyStr (api_key self)))); [discriminate H|].
  destruct (str_eqb (api_key self) (lit "your-api-key-here"));
    [discriminate H|].
  cbn [orb] in H, E. unfold try_except, bind at 1 in E.
  rewrite get_field_content_run in E.
  destruct (field_content w) as [|c t]; [discriminate H|].
  destruct (strip (c :: t)); [discriminate H|]. rewrite H in E.
  unfold bind at 1 in E. destruct (clear_run w) as [w1 [C1 N1]].
  rewrite C1 in E. unfold bind at 1 in E.
  destruct (create_run self env (c :: t) w1) as [a [w2 [C2 N2]]].
  rewrite C2 in E.
  assert (Failed : forall msg,
             (let (r0, w0) :=
                bind (showCritical msg) (fun _ => ret false) w2 in
              match r0 with
              | Ok a => (Ok a, w0)
              | Raised e =>
                  bind (showCritical
                          (lit "Speechify TTS processing error: "
                               ++ exn_msg e))
                    (fun _ => ret false) w0
              end) = (r, w') ->
             exists v,
               note w' = option_map (with_audio v) (note w)
               /\ (v = [] \/ exists m, v = sound_tag m)
               /\ (r = Ok true ->
                   (exists m, v = sound_tag m)
                   /\ exists n f, note w = Some n
                                  /\ find_audio_field n = Some f)).
  { intros msg E'. cbn in E'. injection E' as <- <-. exists [].
    cbn [note]. rewrite N2, N1.
    split; [reflexivity|]. split; [now left | discriminate]. }
  destruct a as [[|p0 p]|]; [exact (Failed _ E) | | exact (Failed _ E)].
  clear Failed. unfold bind at 1 in E.
  destruct (add_run env (p0 :: p) w2) as [b [w3 [C3 Hb]]].
  rewrite C3 in E.
  destruct Hb as [[-> [m [n [f [Hn [Hf N3]]]]]] | [-> N3]].
  - cbv beta iota in E.
    destruct (tail_run env (p0 :: p) w3) as [r4 [w4 [C4 [N4 Hr]]]].
    unfold try_except in C4. rewrite C4 in E.
    exists (sound_tag m).
    assert (N : note w4 = option_map (with_audio (sound_tag m)) (note w)).
    { rewrite N4, N3, N2, N1. apply with_audio_twice_opt. }
    destruct Hr as [-> | [e ->]]; cbn in E; injection E as <- <-.
    + split; [exact N|]. split; [right; now exists m|]. intros _.
      split; [now exists m|].
      rewrite N2, N1 in Hn. destruct (note w) as [n0|]; [|discriminate].
      exists n0. cbn [option_map] in Hn. injection Hn as <-.
      unfold with_audio in Hf.
      destruct (find_audio_field n0) as [f0|] eqn:F0.
      * now exists f0.
      * congruence.
    + split; [exact N|]. split; [right; now exists m | discriminate].
  - cbn in E. injection E as <- <-. exists []. cbn [note]. rewrite N3, N2, N1.
    split; [reflexivity|]. split; [now left | discriminate].
Qed.

(** Once the checks have passed, the first audio field is empty or holds
    the tag of the new recording; it holds the tag when [process_text]
    returns [True]. *)
Lemma process_text_late (self : Processor) (env : Env) (w : World) :
  rejected_early self env w = false ->
  exists v,
    note (snd (process_text self env w))
    = option_map (with_audio v) (note w)
    /\ (v = [] \/ exists m, v = sound_tag m)
    /\ (fst (process_text self env w) = Ok true ->
        (exists m, v = sound_tag m)
        /\ exists n f, note w = Some n /\ find_audio_field n = Some f).
Proof.
  intros H. destruct (process_text self env w) as [r w'] eqn:E.
  exact (process_text_late_run self env w H r w' E).
Qed.

End ProcessLate.
Import ProcessLate.

(* ================================================================== *)
(** * No pattern of the handler matches the empty string *)
(* ================================================================== *)

Module EmptyMatch.

Lemma requires_not_empty (f : char -> bool) (r : regex) (s : str) :
  requires f r -> match_len r s <> Some 0.
Proof.
  intros Hr H. apply match_len_sound in H as [pre [rest [_ [L D]]]].
  destruct (requires_den f r Hr pre rest D) as [c [Hc _]].
  destruct pre; [contradiction | discriminate].
Qed.

Lemma patterns_never_match_empty :
  Forall (fun r => forall s, match_len r s <> Some 0) patterns.
Proof.
  unfold patterns.
  repeat (apply Forall_cons; [intros s|]); [..|apply Forall_nil].
  - apply (requires_not_empty _ _ s bullet_block_requires).
  - apply (requires_not_empty _ _ s bullet_tail_requires).
  - apply (requires_not_empty _ _ s br_br_requires).
  - apply (requires_not_empty _ _ s br_requires).
  - apply (requires_not_empty _ _ s (between_requires "li")).
  - apply (requires_not_empty _ _ s (open_close_requires "li")).
  - apply (requires_not_empty _ _ s (open_close_requires "ul")).
  - apply (requires_not_empty _ _ s (open_close_requires "ol")).
  - apply (requires_not_empty _ _ s (between_requires "div")).
  - apply (requires_not_empty _ _ s (open_close_requires "div")).
  - apply (requires_not_empty _ _ s tag_requires).
  - apply (requires_not_empty _ _ s pipe_requires).
  - apply (requires_not_empty (eqc hyphen)). unfold re_dash. find_required.
  - apply (requires_not_empty _ _ s lt_requires).
  - apply (requires_not_empty _ _ s gt_requires).
  - apply (requires_not_empty _ _ s newlines_requires).
  - apply (requires_not_empty is_dot).
    unfold re_dots4, AtLeast, Times. cbn [repeat]. find_required.
  - apply (requires_not_empty is_dot).
    unfold re_dots3, Times. cbn [repeat]. find_required.
  - apply (requires_not_empty is_dot).
    unfold re_dots2, Times. cbn [repeat]. find_required.
  - apply (requires_not_empty (eqc langle)).
    unfold word, LONG_PAUSE. find_required.
  - apply (requires_not_empty (eqc langle)).
    unfold word, MED_PAUSE. find_required.
  - apply (requires_not_empty is_space). unfold re_spaces. find_required.
Qed.

End EmptyMatch.

(* ================================================================== *)
(** * The entities of the table *)
(* ================================================================== *)

Module EntityFacts.

Lemma sub_forallb (p : char -> bool) (r : regex) (repl s : str) :
  forallb p repl = true -> forallb p s = true ->
  forallb p (sub r repl s) = true.
Proof. intros Hr Hs. now apply sub_from_forallb. Qed.

Lemma replace_forallb (p : char -> bool) (old new s : str) :
  old <> [] -> forallb p new = true -> forallb p s = true ->
  forallb p (replace old new s) = true.
Proof.
  intros Ho Hn Hs. rewrite replace_sub by exact Ho. now apply sub_forallb.
Qed.

Lemma decode_entities_forallb (p : char -> bool) (s : str) :
  forallb (fun e => forallb p (snd e)) html_entities = true ->
  forallb p s = true -> forallb p (decode_entities s) = true.
Proof.
  unfold decode_entities. pose proof entities_nonempty as N.
  revert s N. induction html_entities as [|[e r] l IH]; intros s N Hl Hs;
    [exact Hs|].
  simpl in Hl. apply andb_true_iff in Hl as [Hr Hl].
  inversion N as [|? ? Ne N']; subst. simpl.
  apply IH; [exact N' | exact Hl |]. now apply replace_forallb.
Qed.






End EntityFacts.
Import EntityFacts.

(* ================================================================== *)
(** * The properties of the specification *)
(* ================================================================== *)

(** ** Markup in the output *)



(** The turn of [&quot;] comes after that of [&amp;]: [&amp;quot;] is
    decoded twice. *)
Lemma entity_decoded_twice : normalized (lit "&amp;quot;") = [34%N].
Proof. vm_compute; reflexivity. Qed.


(** ** The empty result *)

(** C3, as the code has it: with the neutral speech rate the returned
    string is the normalized text; it has no whitespace at either end, so it
    is empty as soon as it is all whitespace.  This is so for every string,
    and for every other value whose truth test returns. *)
Theorem neutral_rate_output_is_stripped
  (self : Processor) (env : Env) (text : PyValue) (w : World) :
  rate_is_one (speech_rate self) = true ->
  truth text = inr (truthy text) ->
  exists out,
    fst (process_text_for_tts self env text w) = Ok out
    /\ out = match text with
             | PyStr (c :: t) => normalized (c :: t)
             | _ => []
             end
    /\ strip out = out
    /\ (forallb is_space out = true -> out = []).
Proof.
  intros H T. rewrite tts_result, T.
  exists (tts_output (speech_rate self) text).
  split; [reflexivity|]. unfold tts_output. rewrite H.
  destruct text as [|b|z|[|c t]|b|l|b|e];
    try (repeat split; reflexivity).
  repeat split; [apply normalized_stripped | apply normalized_blank].
Qed.

Lemma neutral_rate_output_is_stripped_witness :
  rate_is_one (speech_rate proc_neutral) = true
  /\ truth (PyStr (lit " <b> </b> ")) = inr (truthy (PyStr (lit " <b> </b> ")))
  /\ exists out,
       fst (process_text_for_tts proc_neutral env_ok (PyStr (lit " <b> </b> "))
              (world_of [])) = Ok out
       /\ out = normalized (lit " <b> </b> ")
       /\ strip out = out
       /\ (forallb is_space out = true -> out = []).
Proof.
  split; [reflexivity|]. split; [reflexivity|].
  exact (neutral_rate_output_is_stripped proc_neutral env_ok
           (PyStr (lit " <b> </b> ")) (world_of []) eq_refl eq_refl).
Defined.

(** C3 fails as it is stated: a line break alone is returned as the short
    pause, which is output of a pause marker and nothing spoken. *)
Lemma line_break_alone_gives_pause_only :
  fst (process_text_for_tts proc_neutral env_ok (PyStr (lit "<br>"))
         (world_of []))
  = Ok (strip (lit " .. "))
  /\ strip (lit " .. ") = lit "..".
Proof. split; vm_compute; reflexivity. Qed.

(** The check for an empty result comes after the wrapping: with the
    default rate an empty normalized text is returned inside the wrapper. *)
Lemma empty_text_is_wrapped :
  normalized (lit "<b></b>") = []
  /\ fst (process_text_for_tts proc_default env_ok (PyStr (lit "<b></b>"))
            (world_of []))
     = Ok (prosody default_rate []).
Proof. split; vm_compute; reflexivity. Qed.

(** ** The speech rate *)



(** ** Failures *)




(** ** Determinism *)

(** C10: the returned string depends on the text and on the speech rate
    only, not on the rest of the configuration, on the environment or on
    the state; the call changes nothing but the debug log, and not even
    that when the debug mode is off. *)
Theorem tts_result_depends_on_text_and_rate
  (self1 self2 : Processor) (env1 env2 : Env) (w1 w2 : World)
  (text : PyValue) :
  speech_rate self1 = speech_rate self2 ->
  fst (process_text_for_tts self1 env1 text w1)
  = fst (process_text_for_tts self2 env2 text w2)
  /\ (let w' := snd (process_text_for_tts self1 env1 text w1) in
      note w' = note w1 /\ files w' = files w1 /\ media w' = media w1
      /\ notices w' = notices w1 /\ reloads w' = reloads w1
      /\ (if debug_mode self1 then True else w' = w1)).
Proof.
  intros H. rewrite !tts_result, H. split; [reflexivity|].
  destruct (tts_run self1 env1 text w1) as [l [-> L]]. cbn.
  repeat split. destruct (debug_mode self1); [exact I|].
  rewrite (L eq_refl), app_nil_r. now destruct w1.
Qed.

Lemma tts_result_depends_on_text_and_rate_witness :
  speech_rate proc_default = speech_rate proc_debug
  /\ fst (process_text_for_tts proc_default env_ok
            (PyStr (lit "hei | verden")) (world_of note_with_audio))
     = fst (process_text_for_tts proc_debug env_vendor_down
              (PyStr (lit "hei | verden")) (world_of []))
  /\ snd (process_text_for_tts proc_default env_ok
            (PyStr (lit "hei | verden")) (world_of note_with_audio))
     = world_of note_with_audio.
Proof.
  split; [reflexivity|].
  pose proof (tts_result_depends_on_text_and_rate proc_default proc_debug
                env_ok env_vendor_down (world_of note_with_audio)
                (world_of []) (PyStr (lit "hei | verden")) eq_refl) as H.
  destruct H as [H1 [_ [_ [_ [_ [_ H2]]]]]].
  split; [exact H1 | exact H2].
Defined.

(** ** Runs of periods *)

(** C4: the three substitutions, longest run first, replace every maximal
    run of periods as a whole: a run of three or more by the placeholder of
    the long pause, a run of two by the placeholder of the short pause, and
    a lone period stays; once the placeholders are resolved the runs are
    the pauses (in a text that does not bring the opening bracket of a
    placeholder itself); the normalized text is the whitespace pass of
    that. *)
Theorem dot_runs_are_classified_whole (s text : str) :
  classify_dots s = placeholder_runs s
  /\ (forallb (fun c => negb (eqc langle c)) s = true ->
      dot_runs s = pause_runs s)
  /\ normalized text
     = clean_whitespace
         (resolve_placeholders (placeholder_runs (before_dots text))).
Proof.
  split; [apply classify_dots_spec|]. split; [apply dot_runs_spec|].
  unfold normalized, dot_runs. now rewrite classify_dots_spec.
Qed.

Lemma dot_runs_are_classified_whole_witness :
  forallb (fun c => negb (eqc langle c)) (lit "a....b...c..d.e......") = true
  /\ dot_runs (lit "a....b...c..d.e......")
     = lit "a ... b ... c .. d.e ... ".
Proof.
  split; [reflexivity|].
  exact (proj1 (proj2 (dot_runs_are_classified_whole
                         (lit "a....b...c..d.e......") []))
           eq_refl).
Defined.

(** ** Plain text *)

(** C6, as the code has it: a text without markup, entities, special
    characters, spaced hyphens and runs of periods, and also without the
    bullet glyph and the handler's own placeholders, is returned with its
    runs of whitespace collapsed to single spaces and trimmed when the
    speech rate is 1.0; with another rate that result, when it is not
    empty, is returned inside the prosody tag. *)
Theorem plain_text_is_whitespace_normalized
  (self : Processor) (env : Env) (text : str) (w : World) :
  plain text = true ->
  (rate_is_one (speech_rate self) = true ->
   fst (process_text_for_tts self env (PyStr text) w)
   = Ok (collapse_whitespace text))
  /\ (rate_is_one (speech_rate self) = false ->
      collapse_whitespace text <> [] ->
      fst (process_text_for_tts self env (PyStr text) w)
      = Ok (lit "<prosody rate=" ++ 34%N :: rate_text (speech_rate self)
                ++ 34%N :: lit ">"
                ++ collapse_whitespace text ++ lit "</prosody>")).
Proof.
  intros Hp. rewrite tts_result_str.
  destruct text as [|c t].
  - split; [reflexivity|]. intros _ H. now destruct H.
  - cbn [tts_output].
    rewrite (plain_normalized (c :: t) Hp), clean_whitespace_spec.
    split; intros Hr; rewrite Hr; [reflexivity|]. intros _.
    unfold prosody, prosody_open, prosody_close.
    repeat (rewrite <- app_assoc || rewrite <- app_comm_cons). reflexivity.
Qed.

Lemma plain_text_is_whitespace_normalized_witness :
  plain (lit "  Jeg  heter  PC-en. Hva? ") = true
  /\ rate_is_one (speech_rate proc_neutral) = true
  /\ fst (process_text_for_tts proc_neutral env_ok
            (PyStr (lit "  Jeg  heter  PC-en. Hva? ")) (world_of []))
     = Ok (lit "Jeg heter PC-en. Hva?")
  /\ rate_is_one (speech_rate proc_default) = false
  /\ collapse_whitespace (lit "  Jeg  heter  PC-en. Hva? ") <> []
  /\ fst (process_text_for_tts proc_default env_ok
            (PyStr (lit "  Jeg  heter  PC-en. Hva? ")) (world_of []))
     = Ok (lit "<prosody rate=" ++ 34%N :: lit "0.8" ++ 34%N
               :: lit ">Jeg heter PC-en. Hva?</prosody>").
Proof.
  assert (N : collapse_whitespace (lit "  Jeg  heter  PC-en. Hva? ") <> [])
    by (vm_compute; discriminate).
  split; [reflexivity|]. split; [reflexivity|].
  split; [exact (proj1 (plain_text_is_whitespace_normalized proc_neutral
                          env_ok (lit "  Jeg  heter  PC-en. Hva? ")
                          (world_of []) eq_refl) eq_refl)|].
  split; [reflexivity|]. split; [exact N|].
  exact (proj2 (plain_text_is_whitespace_normalized proc_default env_ok
                  (lit "  Jeg  heter  PC-en. Hva? ") (world_of []) eq_refl)
           eq_refl N).
Defined.

(** C6 fails as it is stated: with the default rate [0.8] plain text comes
    back inside the wrapper; with the neutral rate, text with the bullet
    glyph loses everything from the glyph on, and the text of a placeholder
    becomes a pause. *)
Lemma plain_text_is_changed :
  plain_as_specified (lit "hello") = true
  /\ fst (process_text_for_tts proc_default env_ok (PyStr (lit "hello"))
            (world_of []))
     = Ok (prosody default_rate (lit "hello"))
  /\ plain_as_specified (lit "a " ++ bullet :: lit " b") = true
  /\ fst (process_text_for_tts proc_neutral env_ok
            (PyStr (lit "a " ++ bullet :: lit " b")) (world_of []))
     = Ok (lit "a")
  /\ plain_as_specified (lit "a" ++ LONG_PAUSE ++ lit "b") = true
  /\ fst (process_text_for_tts proc_neutral env_ok
            (PyStr (lit "a" ++ LONG_PAUSE ++ lit "b")) (world_of []))
     = Ok (lit "a ... b").
Proof. repeat split; vm_compute; reflexivity. Qed.

(** ** Hyphens *)

(** C7, as the code has it: the dash pass goes from left to right.  With
    no hyphen the text stays; the leftmost hyphen becomes a comma and a
    space, together with all the whitespace around it, when whitespace
    stands on both sides, and stays otherwise; the text after it (after the
    whitespace that went with it) is treated in the same way. *)
Theorem dash_pass_leftmost_hyphen (a b : str) :
  forallb not_hyphen a = true ->
  dash_pass a = a
  /\ dash_pass (a ++ hyphen :: b)
     = if ends_with_space a && starts_with_space b
       then rstrip a ++ lit ", " ++ dash_pass (lstrip b)
       else a ++ hyphen :: dash_pass b.
Proof.
  intros Ha. split; [now apply dash_pass_hyphen_free|].
  destruct (ends_with_space a) eqn:Ea.
  - destruct (starts_with_space b) eqn:Eb.
    + now apply dash_leftmost_converted.
    + apply dash_leftmost_kept; [exact Ha | now rewrite Ea, Eb].
  - apply dash_leftmost_kept; [exact Ha | now rewrite Ea].
Qed.

Lemma dash_pass_leftmost_hyphen_witness :
  forallb not_hyphen (lit "hei  ") = true
  /\ dash_pass (lit "hei  ") = lit "hei  "
  /\ dash_pass (lit "hei  " ++ hyphen :: lit " PC-en")
     = lit "hei, " ++ dash_pass (lit "PC-en").
Proof.
  split; [reflexivity|].
  exact (dash_pass_leftmost_hyphen (lit "hei  ") (lit " PC-en") eq_refl).
Defined.

(** C7 fails as it is stated: of two hyphens that share the whitespace
    between them the second stays, though whitespace stands on both of its
    sides in the input. *)
Lemma second_spaced_hyphen_stays :
  hyphens_spaced false (lit "a - - b") = true
  /\ fst (process_text_for_tts proc_neutral env_ok (PyStr (lit "a - - b"))
            (world_of []))
     = Ok (lit "a, - b")
  /\ contains [hyphen] (lit "a, - b") = true.
Proof. repeat split; vm_compute; reflexivity. Qed.

(** ** The note *)

(** C2, as the code has it: [process_text] changes no field of the note
    but the first audio field the note has.  A call rejected by one of the
    checks that come before that field is cleared (handler disabled,
    library missing, API key not configured, field empty or too long)
    returns [False] and leaves the note, the files and the media store as
    they were.  Once the checks have passed, the audio field is left empty
    or with the tag of the new recording, whatever it held before; it holds
    the tag when [True] is returned. *)
Theorem process_text_note_effect
  (self : Processor) (env : Env) (w : World) :
  audio_field_only (note w) (note (snd (process_text self env w)))
  /\ (if rejected_early self env w
      then fst (process_text self env w) = Ok false
           /\ note (snd (process_text self env w)) = note w
           /\ files (snd (process_text self env w)) = files w
           /\ media (snd (process_text self env w)) = media w
      else exists v,
          note (snd (process_text self env w))
          = option_map (with_audio v) (note w)
          /\ (v = [] \/ exists m, v = sound_tag m)
          /\ (fst (process_text self env w) = Ok true ->
              (exists m, v = sound_tag m)
              /\ exists n f, note w = Some n
                             /\ find_audio_field n = Some f)).
Proof.
  split; [apply touches_process_text|].
  destruct (rejected_early self env w) eqn:H.
  - destruct (rejected_early_run self env w H) as [msg ->]. now repeat split.
  - now apply process_text_late.
Qed.

Lemma process_text_note_effect_witness :
  fst (process_text proc_default env_ok (world_of note_with_audio)) = Ok true
  /\ exists v,
       note (snd (process_text proc_default env_ok
                    (world_of note_with_audio)))
       = Some (with_audio v note_with_audio)
       /\ exists m, v = sound_tag m.
Proof.
  split; [vm_compute; reflexivity|].
  destruct (proj2 (process_text_note_effect proc_default env_ok
                     (world_of note_with_audio)))
    as [v [Hn [_ Hv]]].
  exists v. split; [exact Hn|].
  exact (proj1 (Hv ltac:(vm_compute; reflexivity))).
Defined.

(** C2 fails as it is stated: the audio field is cleared before the audio
    is made, so a call in which the vendor fails returns [False] and leaves
    the note without the recording it had. *)
Lemma failed_synthesis_clears_audio_field :
  note_get "Audio" note_with_audio = Some (lit "[sound:old.mp3]")
  /\ fst (process_text proc_default env_vendor_down
            (world_of note_with_audio)) = Ok false
  /\ option_map (note_get "Audio")
       (note (snd (process_text proc_default env_vendor_down
                     (world_of note_with_audio))))
     = Some (Some []).
Proof. repeat split; vm_compute; reflexivity. Qed.

(** ** The temporary file *)

(** C9 at a note without an audio field: the audio is made and written to
    the temporary file, attaching it fails, and [process_text] returns
    [False] with the temporary file still there.  The same happens when the
    reload of the editor raises after the audio was attached.  On the path
    where everything succeeds the file is removed. *)
Theorem temp_file_left_when_attach_fails :
  fst (process_text proc_default env_ok (world_of note_without_audio))
  = Ok false
  /\ map fst (files (snd (process_text proc_default env_ok
                            (world_of note_without_audio))))
     = [lit "/tmp/inferanki-speechify-tts-261103-120000.mp3"]
  /\ fst (process_text proc_default env_reload_fails
            (world_of note_with_audio))
     = Ok false
  /\ map fst (files (snd (process_text proc_default env_reload_fails
                            (world_of note_with_audio))))
     = [lit "/tmp/inferanki-speechify-tts-261103-120000.mp3"]
  /\ fst (process_text proc_default env_ok (world_of note_with_audio))
     = Ok true
  /\ files (snd (process_text proc_default env_ok (world_of note_with_audio)))
     = [].
Proof. repeat split; vm_compute; reflexivity. Qed.

(* ================================================================== *)
(** * Further properties of the normalization *)
(* ================================================================== *)

Module OutputShape.

Lemma lstrip_squeeze (s : str) : lstrip (squeeze false s) = squeeze true s.
Proof.
  destruct s as [|c t]; [reflexivity|]. cbn [squeeze].
  destruct (is_space c) eqn:Hc.
  - change (lstrip (32%N :: squeeze true t)) with (lstrip (squeeze true t)).
    rewrite squeeze_lstrip. apply lstrip_fixed, squeeze_head, lstrip_head.
  - cbn [lstrip]. now rewrite Hc.
Qed.

(** The whitespace pass is [" ".join(s.split())], whatever the text. *)
Lemma clean_whitespace_all (s : str) :
  clean_whitespace s = collapse_whitespace s.
Proof.
  unfold clean_whitespace, collapse_whitespace, sub, strip.
  rewrite (proj1 (sub_spaces_squeeze s)), lstrip_squeeze.
  now rewrite (proj1 (join_split_squeeze s)).
Qed.

Lemma squeeze_spaces (b : bool) (s : str) :
  forallb (fun c => negb (is_space c) || eqc 32%N c) (squeeze b s) = true.
Proof.
  revert b; induction s as [|c t IH]; intros b; [reflexivity|].
  cbn [squeeze]. destruct (is_space c) eqn:Hc.
  - destruct b; [apply IH|]. cbn [forallb]. now rewrite IH.
  - cbn [forallb]. now rewrite Hc, IH.
Qed.

Lemma squeeze_true_head (s : str) : starts_with_space (squeeze true s) = false.
Proof.
  rewrite squeeze_lstrip.
  pose proof (squeeze_head (lstrip s) (lstrip_head s)) as H.
  destruct (squeeze false (lstrip s)); [reflexivity | exact H].
Qed.

Lemma squeeze_no_double (b : bool) (s : str) :
  contains [32%N; 32%N] (squeeze b s) = false.
Proof.
  revert b; induction s as [|c t IH]; intros b; [reflexivity|].
  cbn [squeeze]. destruct (is_space c) eqn:Hc.
  - destruct b; [apply IH|].
    rewrite contains_cons, IH, orb_false_r.
    pose proof (squeeze_true_head t) as H.
    destruct (squeeze true t) as [|d x]; [reflexivity|].
    simpl in H. cbn [starts_with].
    destruct (eqc 32%N d) eqn:E; [|now rewrite andb_false_r].
    apply eqc_eq in E. subst d. discriminate.
  - rewrite contains_cons, IH, orb_false_r. cbn [starts_with].
    destruct (eqc 32%N c) eqn:E; [|reflexivity].
    apply eqc_eq in E. subst c. discriminate.
Qed.

Lemma strip_not_spaced (s : str) :
  starts_with_space (strip s) = false /\ ends_with_space (strip s) = false.
Proof.
  unfold strip. split; [|apply rstrip_not_spaced].
  pose proof (rstrip_keeps_head (lstrip s) (lstrip_head s)) as H.
  destruct (rstrip (lstrip s)); [reflexivity | exact H].
Qed.

Lemma clean_whitespace_shape (s : str) : well_spaced (clean_whitespace s) = true.
Proof.
  unfold well_spaced, clean_whitespace, sub.
  rewrite (proj1 (sub_spaces_squeeze s)).
  destruct (strip_not_spaced (squeeze false s)) as [H1 H2].
  rewrite H1, H2, (forallb_strip _ _ (squeeze_spaces false s)).
  now rewrite (strip_keeps_out _ _ (squeeze_no_double false s)).
Qed.

End OutputShape.
Import OutputShape.

Module NeverSpoken.

(** The pattern of the bullet at the end matches wherever a bullet
    stands, up to the end of the text. *)
Lemma bullet_tail_matches (t : str) :
  exists n, match_len re_bullet_tail (bullet :: t) = Some (S n).
Proof.
  exists (length t). unfold match_len, match_rest, re_bullet_tail, bullet_start.
  cbn [seq fold_right app m ch].
  change (eqc (chr "<") bullet) with false. cbn iota.
  rewrite eqc_refl.
  rewrite <- (app_nil_r t) at 1.
  rewrite (star_g_app any _ t [] []); [now rewrite Nat.sub_0_r | | reflexivity].
  apply forallb_forall. reflexivity.
Qed.

Lemma remove_bullets_clean (s : str) :
  forallb (fun c => negb (eqc bullet c)) (remove_bullets s) = true.
Proof.
  unfold remove_bullets. apply sub_from_kills; [reflexivity|].
  intros c t Hc. apply negb_false_iff, eqc_eq in Hc. subst c.
  apply bullet_tail_matches.
Qed.

Lemma pipe_pass_clean (s : str) :
  forallb (fun c => negb (eqc (chr "|") c)) (pipe_pass s) = true.
Proof.
  unfold pipe_pass. apply sub_from_kills; [reflexivity|].
  intros c t Hc. apply negb_false_iff, eqc_eq in Hc. subst c.
  now apply (sep_matches "|").
Qed.

Lemma normalized_no_bullet (text : str) :
  forallb (fun c => negb (eqc bullet c)) (normalized text) = true.
Proof.
  unfold normalized, clean_whitespace, dot_runs, resolve_placeholders,
    classify_dots, before_dots, linebreaks, separators, angle_pass,
    dash_pass, pipe_pass, decode_angles, strip_tags, markup_pauses.
  apply forallb_strip.
  do 6 (apply sub_forallb; [reflexivity|]).
  do 5 (apply sub_forallb; [reflexivity|]).
  do 2 (apply replace_forallb; [discriminate | reflexivity |]).
  do 9 (apply sub_forallb; [reflexivity|]).
  apply decode_entities_forallb; [reflexivity|].
  apply remove_bullets_clean.
Qed.

Lemma normalized_no_pipe (text : str) :
  forallb (fun c => negb (eqc (chr "|") c)) (normalized text) = true.
Proof.
  unfold normalized, clean_whitespace, dot_runs, resolve_placeholders,
    classify_dots, before_dots, linebreaks, separators, angle_pass,
    dash_pass.
  apply forallb_strip.
  do 6 (apply sub_forallb; [reflexivity|]).
  do 4 (apply sub_forallb; [reflexivity|]).
  apply pipe_pass_clean.
Qed.

End NeverSpoken.
Import NeverSpoken.

Module BulletAsides.

Lemma bullet_block_needs_tag : requires (eqc lt) re_bullet_block.
Proof. unfold re_bullet_block. find_required. Qed.

(** Neither bullet pattern can start at a character that is neither [<]
    nor the bullet. *)
Lemma bullet_block_starts :
  starts_in re_bullet_block (fun c => eqc lt c || eqc bullet c).
Proof.
  intros c u Hc. apply orb_false_elim in Hc as [H1 H2].
  unfold match_rest, re_bullet_block, bullet_start.
  cbn [seq fold_right app m ch]. unfold lt in H1. now rewrite H1, H2.
Qed.

Lemma bullet_tail_starts :
  starts_in re_bullet_tail (fun c => eqc lt c || eqc bullet c).
Proof.
  intros c u Hc. apply orb_false_elim in Hc as [H1 H2].
  unfold match_rest, re_bullet_tail, bullet_start.
  cbn [seq fold_right app m ch]. unfold lt in H1. now rewrite H1, H2.
Qed.

Lemma bullet_tail_match (t : str) :
  match_rest re_bullet_tail ((bullet :: t) ++ []) = Some [].
Proof.
  unfold match_rest, re_bullet_tail, bullet_start.
  cbn [seq fold_right app m ch].
  change (eqc (chr "<") bullet) with false. cbn iota. rewrite eqc_refl.
  apply star_g_app; [apply forallb_forall; reflexivity | reflexivity].
Qed.

Lemma plain_prefix (a : str) :
  forallb (fun c => negb (eqc lt c)) a = true ->
  forallb (fun c => negb (eqc bullet c)) a = true ->
  forallb (fun c => negb (eqc lt c || eqc bullet c)) a = true.
Proof.
  intros H1 H2. rewrite forallb_forall in *. intros c Hc.
  specialize (H1 c Hc). specialize (H2 c Hc).
  apply negb_true_iff in H1, H2. now rewrite H1, H2.
Qed.

(** An aside that runs to the end of the text goes, with its bullet. *)
Lemma aside_at_end (a b : str) :
  forallb (fun c => negb (eqc lt c)) (a ++ b) = true ->
  forallb (fun c => negb (eqc bullet c)) a = true ->
  remove_bullets (a ++ bullet :: b) = a.
Proof.
  intros Hlt Hb. unfold remove_bullets.
  rewrite (sub_requires (eqc lt) re_bullet_block [] (a ++ bullet :: b)
             bullet_block_needs_tag).
  - rewrite forallb_app in Hlt. apply andb_true_iff in Hlt as [Ha _].
    rewrite (sub_copy_chars re_bullet_tail _ [] a (bullet :: b)
               bullet_tail_starts (plain_prefix a Ha Hb)).
    rewrite <- (app_nil_r (bullet :: b)).
    rewrite (sub_match re_bullet_tail [] (bullet :: b) []);
      [| discriminate | apply bullet_tail_match].
    rewrite sub_nil by reflexivity. now rewrite app_nil_r.
  - rewrite forallb_app in *. apply andb_true_iff in Hlt as [Ha Hb'].
    rewrite Ha. cbn [forallb]. now rewrite Hb'.
Qed.

(** The lazy star passes over what the rest of the pattern cannot start
    in. *)
Lemma star_l_skip (f : char -> bool) (k : str -> option str) (x y : str) :
  (forall c u, f c = false -> k (c :: u) = None) ->
  forallb (fun c => negb (f c)) x = true ->
  star_l any k (x ++ y) = star_l any k y.
Proof.
  intros Hk. induction x as [|c x IH]; intros Hx; [reflexivity|].
  simpl in Hx. apply andb_true_iff in Hx as [Hc Hx].
  apply negb_true_iff in Hc. cbn [app star_l].
  rewrite (Hk c (x ++ y) Hc). cbn [any]. now apply IH.
Qed.

(** [<br><br>] and what follows it. *)
Lemma br_br_here (k : str -> option str) (c : str) :
  m (seq (br ++ [Star is_space] ++ br)) k (lit "<br><br>" ++ c) = k c.
Proof. reflexivity. Qed.

Lemma bullet_block_match (x c : str) :
  forallb (fun d => negb (eqc lt d)) x = true ->
  match_rest re_bullet_block ((bullet :: x ++ lit "<br><br>") ++ c) = Some c.
Proof.
  intros Hx. unfold match_rest, re_bullet_block, bullet_start.
  change ((bullet :: x ++ lit "<br><br>") ++ c)
    with (bullet :: (x ++ lit "<br><br>") ++ c).
  rewrite <- app_assoc. cbn [seq fold_right app m ch].
  change (eqc (chr "<") bullet) with false. cbn iota. rewrite eqc_refl.
  rewrite (star_l_skip (eqc lt) _ x _); [| | exact Hx].
  - reflexivity.
  - intros d u Hd. cbn [br seq fold_right app m ch]. unfold lt in Hd.
    now rewrite Hd.
Qed.

(** An aside that ends in a double line break goes, with its bullet and
    the line break; the text after it is treated in the same way. *)
Lemma aside_in_block (a x c : str) :
  forallb (fun d => negb (eqc lt d)) (a ++ x) = true ->
  forallb (fun d => negb (eqc bullet d)) a = true ->
  remove_bullets (a ++ bullet :: x ++ lit "<br><br>" ++ c)
  = a ++ remove_bullets c.
Proof.
  intros Hlt Hb. unfold remove_bullets.
  rewrite forallb_app in Hlt. apply andb_true_iff in Hlt as [Ha Hx].
  pose proof (plain_prefix a Ha Hb) as Hp.
  rewrite (sub_copy_chars re_bullet_block _ [] a _ bullet_block_starts Hp).
  replace (bullet :: x ++ lit "<br><br>" ++ c)
    with ((bullet :: x ++ lit "<br><br>") ++ c)
    by (cbn [app]; now rewrite <- app_assoc).
  rewrite (sub_match re_bullet_block [] _ c);
    [| discriminate | now apply bullet_block_match].
  cbn [app].
  now rewrite (sub_copy_chars re_bullet_tail _ [] a _ bullet_tail_starts Hp).
Qed.

End BulletAsides.
Import BulletAsides.

(* ================================================================== *)
(** * Further properties of the host functions *)
(* ================================================================== *)

Module InitFacts.





End InitFacts.
Import InitFacts.

(* ================================================================== *)
(** * Further properties: the normalization *)
(* ================================================================== *)

(** X1: the whitespace pass (the substitution of [\s+] by a space, then
    [strip]) is [" ".join(s.split())] for every text. *)
Theorem whitespace_pass_is_join_of_split (s : str) :
  clean_whitespace s = join (lit " ") (split_ws [] s).
Proof. apply clean_whitespace_all. Qed.

(** X2: in the normalized text of every input the only whitespace
    character is the space, no two spaces are adjacent, and none stands at
    the start or at the end. *)
Theorem normalized_text_is_well_spaced (text : str) :
  well_spaced (normalized text) = true.
Proof. unfold normalized. apply clean_whitespace_shape. Qed.

(** X3: the normalized text of every input has neither the bullet glyph
    nor a pipe. *)
Theorem normalized_text_has_no_bullet_and_no_pipe (text : str) :
  forallb no_bullet_no_pipe (normalized text) = true.
Proof.
  unfold no_bullet_no_pipe. rewrite forallb_andb.
  now rewrite normalized_no_bullet, normalized_no_pipe.
Qed.

(** X4: in a text without [<], everything from the first bullet glyph to
    the end is removed by the bullet pass. *)
Theorem aside_at_end_is_removed (a b : str) :
  forallb (fun c => negb (eqc lt c)) (a ++ b) = true ->
  forallb (fun c => negb (eqc bullet c)) a = true ->
  remove_bullets (a ++ bullet :: b) = a.
Proof. apply aside_at_end. Qed.

Lemma aside_at_end_is_removed_witness :
  forallb (fun c => negb (eqc lt c)) (lit "hus " ++ lit " et bygg") = true
  /\ forallb (fun c => negb (eqc bullet c)) (lit "hus ") = true
  /\ remove_bullets (lit "hus " ++ bullet :: lit " et bygg") = lit "hus ".
Proof.
  split; [reflexivity|]. split; [reflexivity|].
  exact (aside_at_end_is_removed (lit "hus ") (lit " et bygg")
           eq_refl eq_refl).
Defined.

(** X5: a bullet glyph, the text after it and the double line break that
    ends it are removed together, and the text after the line break is
    treated in the same way, when no [<] stands before the line break and no
    bullet before the first one. *)
Theorem aside_before_double_break_is_removed (a x c : str) :
  forallb (fun d => negb (eqc lt d)) (a ++ x) = true ->
  forallb (fun d => negb (eqc bullet d)) a = true ->
  remove_bullets (a ++ bullet :: x ++ lit "<br><br>" ++ c)
  = a ++ remove_bullets c.
Proof. apply aside_in_block. Qed.

Lemma aside_before_double_break_is_removed_witness :
  forallb (fun d => negb (eqc lt d)) (lit "hus " ++ lit " et bygg") = true
  /\ forallb (fun d => negb (eqc bullet d)) (lit "hus ") = true
  /\ remove_bullets
       (lit "hus " ++ bullet :: lit " et bygg" ++ lit "<br><br>" ++ lit "bil")
     = lit "hus bil".
Proof.
  split; [reflexivity|]. split; [reflexivity|].
  exact (aside_before_double_break_is_removed (lit "hus ") (lit " et bygg")
           (lit "bil") eq_refl eq_refl).
Defined.

(* ================================================================== *)
(** * Further properties: the constructor *)
(* ================================================================== *)


(* ================================================================== *)
(** * Files and note fields *)
(* ================================================================== *)

Module FileFacts.

Lemma starts_with_refl (a : str) : starts_with a a = true.
Proof. rewrite <- (app_nil_r a) at 2. apply starts_with_app. Qed.

Lemma str_eqb_eq (a b : str) : str_eqb a b = true <-> a = b.
Proof.
  unfold str_eqb. split.
  - intros H. apply andb_true_iff in H as [L S].
    apply Nat.eqb_eq in L. apply starts_with_spec in S as [t ->].
    rewrite length_app in L. destruct t; [now rewrite app_nil_r|].
    simpl in L. lia.
  - intros ->. now rewrite Nat.eqb_refl, starts_with_refl.
Qed.

Lemma str_eqb_refl (a : str) : str_eqb a a = true.
Proof. now apply str_eqb_eq. Qed.

Lemma file_exists_remove (p : str) (fs : list (str * list N)) :
  file_exists p (file_remove p fs) = false.
Proof.
  unfold file_exists, file_remove. induction fs as [|[q d] fs IH];
    [reflexivity|].
  cbn [filter fst]. destruct (str_eqb q p) eqn:E; cbn [negb]; [exact IH|].
  cbn [existsb fst]. now rewrite E, IH.
Qed.

Lemma file_remove_idem (p : str) (fs : list (str * list N)) :
  file_remove p (file_remove p fs) = file_remove p fs.
Proof.
  unfold file_remove. induction fs as [|[q d] fs IH]; [reflexivity|].
  cbn [filter fst]. destruct (str_eqb q p) eqn:E; cbn [negb]; [exact IH|].
  cbn [filter fst]. now rewrite E, IH.
Qed.

Lemma file_remove_write (p : str) (d : list N) (fs : list (str * list N)) :
  file_remove p (file_write p d fs) = file_remove p fs.
Proof.
  unfold file_write. unfold file_remove at 1. cbn [filter fst].
  rewrite str_eqb_refl. cbn [negb]. apply file_remove_idem.
Qed.

Lemma file_read_remove_other (p q : str) (fs : list (str * list N)) :
  q <> p -> file_read q (file_remove p fs) = file_read q fs.
Proof.
  intros H. unfold file_read, file_remove.
  induction fs as [|[x d] fs IH]; [reflexivity|].
  cbn [filter fst find]. destruct (str_eqb x p) eqn:E; cbn [negb].
  - apply str_eqb_eq in E. subst x.
    destruct (str_eqb p q) eqn:E'; [|exact IH].
    apply str_eqb_eq in E'. congruence.
  - cbn [find fst]. destruct (str_eqb x q); [reflexivity | exact IH].
Qed.

Lemma file_read_write (p : str) (d : list N) (fs : list (str * list N)) :
  file_read p (file_write p d fs) = Some d.
Proof.
  unfold file_read, file_write. cbn [find fst]. now rewrite str_eqb_refl.
Qed.

Lemma file_read_write_other (p q : str) (d : list N)
      (fs : list (str * list N)) :
  q <> p -> file_read q (file_write p d fs) = file_read q fs.
Proof.
  intros H. unfold file_write.
  change (file_read q ((p, d) :: file_remove p fs))
    with (option_map snd
            (if str_eqb p q then Some (p, d)
             else find (fun f => str_eqb (fst f) q) (file_remove p fs))).
  destruct (str_eqb p q) eqn:E.
  - apply str_eqb_eq in E. congruence.
  - now apply file_read_remove_other.
Qed.

Lemma file_exists_read (p : str) (fs : list (str * list N)) :
  file_exists p fs = match file_read p fs with Some _ => true | None => false end.
Proof.
  unfold file_exists, file_read. induction fs as [|[q d] fs IH];
    [reflexivity|].
  cbn [existsb find fst]. destruct (str_eqb q p); [reflexivity | exact IH].
Qed.

End FileFacts.
Import FileFacts.

Module NoteRoundTrip.

Lemma note_set_names (f : string) (v : str) (n : Note) :
  map fst (note_set f v n) = map fst n.
Proof.
  induction n as [|[k x] n IH]; [reflexivity|]. simpl.
  destruct (String.eqb k f); simpl; [reflexivity | now rewrite IH].
Qed.

Lemma note_get_set (f : string) (v : str) (n : Note) :
  note_has f n = true -> note_get f (note_set f v n) = Some v.
Proof.
  unfold note_has, note_get. induction n as [|[k x] n IH]; [discriminate|].
  cbn [existsb fst note_set]. destruct (String.eqb k f) eqn:E.
  - intros _. cbn [find fst]. now rewrite E.
  - cbn [orb find fst]. rewrite E. exact IH.
Qed.

Lemma note_get_set_other (f g : string) (v : str) (n : Note) :
  g <> f -> note_get g (note_set f v n) = note_get g n.
Proof.
  intros H. unfold note_get. induction n as [|[k x] n IH]; [reflexivity|].
  cbn [note_set]. destruct (String.eqb k f) eqn:E.
  - apply String.eqb_eq in E. subst k. cbn [find fst].
    destruct (String.eqb f g) eqn:E'; [|reflexivity].
    apply String.eqb_eq in E'. congruence.
  - cbn [find fst]. destruct (String.eqb k g); [reflexivity | exact IH].
Qed.

(** The audio field is the first of the four names that the note has. *)
Lemma find_audio_field_first (n : Note) (f : string) :
  find_audio_field n = Some f ->
  exists before after,
    audio_fields = before ++ f :: after
    /\ note_has f n = true
    /\ forallb (fun g => negb (note_has g n)) before = true.
Proof.
  unfold find_audio_field. induction audio_fields as [|a l IH];
    [discriminate|].
  cbn [find]. destruct (note_has a n) eqn:E.
  - intros H. injection H as <-. now exists [], l.
  - intros H. destruct (IH H) as [b [c [-> [Hf Hb]]]].
    exists (a :: b), c. repeat split; [exact Hf|].
    cbn [forallb]. now rewrite E, Hb.
Qed.

(** What writing the audio field does to the note. *)
Lemma with_audio_effect (v : str) (n : Note) (f : string) :
  find_audio_field n = Some f ->
  note_get f (with_audio v n) = Some v
  /\ (forall g, g <> f -> note_get g (with_audio v n) = note_get g n)
  /\ map fst (with_audio v n) = map fst n.
Proof.
  intros F. destruct (find_audio_field_first n f F) as [_ [_ [_ [Hf _]]]].
  unfold with_audio. rewrite F. repeat split.
  - now apply note_get_set.
  - intros g Hg. now apply note_get_set_other.
  - apply note_set_names.
Qed.

End NoteRoundTrip.
Import NoteRoundTrip.

(* ================================================================== *)
(** * What the host functions leave alone *)
(* ================================================================== *)

Module FrameFacts.

Lemma preserves_bind {A B X} (part : World -> X) (c : M A) (f : A -> M B) :
  preserves part c -> (forall a, preserves part (f a)) ->
  preserves part (bind c f).
Proof.
  intros Hc Hf w. unfold bind. specialize (Hc w).
  destruct (c w) as [[a|e] w']; simpl in *; [|exact Hc].
  now rewrite (Hf a w').
Qed.

Lemma preserves_try {A X} (part : World -> X) (c : M A) (h : Exn -> M A) :
  preserves part c -> (forall e, preserves part (h e)) ->
  preserves part (try_except c h).
Proof.
  intros Hc Hh w. unfold try_except. specialize (Hc w).
  destruct (c w) as [[a|e] w']; simpl in *; [exact Hc|].
  now rewrite (Hh e w').
Qed.

Lemma preserves_check {X} (part : World -> X) (o : option Exn) :
  preserves part (check o).
Proof. destruct o; now intros w. Qed.

Lemma preserves_call {A X} (part : World -> X) (r : Exn + A) :
  preserves part (call r).
Proof. destruct r; now intros w. Qed.

Lemma preserves_tts {X} (part : World -> X) (self : Processor) (env : Env)
      (text : PyValue) :
  (forall w l, part {| note := note w; files := files w; media := media w;
                       convert_log := convert_log w ++ l;
                       notices := notices w; reloads := reloads w |}
               = part w) ->
  preserves part (process_text_for_tts self env text).
Proof.
  intros H w. destruct (tts_run self env text w) as [l [-> _]]. apply H.
Qed.

(** Going through a command; what is left is a primitive that writes
    another part of the state. *)
Ltac frame :=
  unfold showInfo, showCritical;
  repeat first
    [ apply preserves_check | apply preserves_call
    | apply preserves_tts; intros ? ?; reflexivity
    | apply preserves_bind; [|intros ?]
    | apply preserves_try; [|intros ?]
    | match goal with
      | |- preserves _ (if ?b then _ else _) => destruct b
      | |- preserves _ (match ?x with _ => _ end) => destruct x
      end
    | solve [intros ?; reflexivity] ].

Lemma clear_keeps_files : preserves files clear_audio_field.
Proof. unfold clear_audio_field. frame. Qed.

Lemma clear_keeps_media : preserves media clear_audio_field.
Proof. unfold clear_audio_field. frame. Qed.

Lemma clear_keeps_notices : preserves notices clear_audio_field.
Proof. unfold clear_audio_field. frame. Qed.

Lemma clear_keeps_reloads : preserves reloads clear_audio_field.
Proof. unfold clear_audio_field. frame. Qed.

Lemma add_keeps_files (env : Env) (path : str) :
  preserves files (add_audio_to_note env path).
Proof. unfold add_audio_to_note. frame. Qed.

Lemma add_keeps_reloads (env : Env) (path : str) :
  preserves reloads (add_audio_to_note env path).
Proof. unfold add_audio_to_note. frame. Qed.

Lemma create_keeps_media (self : Processor) (env : Env) (text : str) :
  preserves media (create_audio_file self env text).
Proof. unfold create_audio_file. frame. Qed.

Lemma create_keeps_reloads (self : Processor) (env : Env) (text : str) :
  preserves reloads (create_audio_file self env text).
Proof. unfold create_audio_file. frame. Qed.

End FrameFacts.
Import FrameFacts.

(* ================================================================== *)
(** * The audio file and its way into the note *)
(* ================================================================== *)

Module HostRuns.

Lemma file_write_write (p : str) (d d' : list N) (fs : list (str * list N)) :
  file_write p d' (file_write p d fs) = file_write p d' fs.
Proof. unfold file_write at 1 3. now rewrite file_remove_write. Qed.

Lemma file_exists_write (p : str) (d : list N) (fs : list (str * list N)) :
  file_exists p (file_write p d fs) = true.
Proof.
  unfold file_exists, file_write. cbn [existsb fst].
  now rewrite str_eqb_refl.
Qed.

(** [create_audio_file] returns and does not raise.  A path it returns is
    the one in the temporary directory, and the file there holds what the
    vendor returned for the processed text. *)
Lemma create_spec (self : Processor) (env : Env) (text : str) (w : World) :
  exists r w',
    create_audio_file self env text w = (Ok r, w')
    /\ note w' = note w
    /\ media w' = media w
    /\ reloads w' = reloads w
    /\ (exists l, notices w' = notices w ++ l)
    /\ match r with
       | Some p =>
           p = temp_path self env
           /\ enabled self = true
           /\ SPEECHIFY_AVAILABLE env = true
           /\ strip (tts_output (speech_rate self) (PyStr text)) <> []
           /\ notices w' = notices w
           /\ exists bytes,
                speech env (speech_request self
                              (tts_output (speech_rate self) (PyStr text)))
                = inr bytes
                /\ files w' = file_write p bytes (files w)
       | None =>
           files w' = files w
           \/ files w' = file_write (temp_path self env) [] (files w)
       end.
Proof.
  unfold create_audio_file.
  destruct (enabled self) eqn:En; cbn [negb orb].
  2:{ exists None, w. repeat split; try reflexivity.
      - exists []. now rewrite app_nil_r.
      - now left. }
  destruct (SPEECHIFY_AVAILABLE env) eqn:Av; cbn [negb].
  2:{ exists None, w. repeat split; try reflexivity.
      - exists []. now rewrite app_nil_r.
      - now left. }
  unfold try_except, bind at 1.
  destruct (tts_run self env (PyStr text) w) as [l [-> _]].
  cbn [truth]. unfold speech_request.
  destruct (tts_output (speech_rate self) (PyStr text)) as [|c0 t0] eqn:T.
  { eexists; eexists; split; [reflexivity|]. cbn.
    repeat split; try reflexivity.
    - exists []. now rewrite app_nil_r.
    - now left. }
  destruct (strip (c0 :: t0)) as [|s0 st] eqn:S.
  { eexists; eexists; split; [reflexivity|]. cbn.
    repeat split; try reflexivity.
    - exists []. now rewrite app_nil_r.
    - now left. }
  unfold bind at 1, call.
  match goal with
  | |- context [speech env ?req] => destruct (speech env req) as [e|bytes]
  end.
  { eexists; eexists; split; [reflexivity|]. cbn.
    repeat split; try reflexivity.
    - eexists; reflexivity.
    - now left. }
  unfold ret at 1. unfold bind at 1, check.
  fold (temp_path self env).
  destruct (open_fails env (temp_path self env)).
  { eexists; eexists; split; [reflexivity|]. cbn.
    repeat split; try reflexivity.
    - eexists; reflexivity.
    - now left. }
  unfold ret at 1, bind at 1, get, bind at 1, set_files, bind at 1.
  cbn [files note media convert_log notices reloads].
  destruct (write_fails env (temp_path self env)).
  { eexists; eexists; split; [reflexivity|]. cbn.
    repeat split; try reflexivity.
    - eexists; reflexivity.
    - now right. }
  eexists; eexists; split; [reflexivity|]. cbn.
  repeat split; try reflexivity.
  - exists []. now rewrite app_nil_r.
  - discriminate.
  - exists bytes. split; [reflexivity|]. apply file_write_write.
Qed.

(** The parts of the state after a run, one by one. *)
Ltac now_frame :=
  cbn [files reloads convert_log notices media note option_map];
  repeat split;
  first [ reflexivity | assumption
        | match goal with F : find_audio_field _ = _ |- _ => now rewrite F end
        | exists []; now rewrite app_nil_r
        | eexists; reflexivity
        | eexists; rewrite <- app_assoc; reflexivity
        | idtac ].

(** [add_audio_to_note] returns and does not raise; it returns [True]
    exactly when the audio can be attached, and then the tag of the media
    name is in the first audio field. *)
Lemma add_spec (env : Env) (path : str) (w : World) :
  exists w',
    add_audio_to_note env path w = (Ok (can_attach env path w), w')
    /\ files w' = files w
    /\ reloads w' = reloads w
    /\ convert_log w' = convert_log w
    /\ (exists l, notices w' = notices w ++ l)
    /\ media w'
       = (if file_exists path (files w) && mw_col env
          then match add_file env path with
               | inr m => media w ++ [m]
               | inl _ => media w
               end
          else media w)
    /\ note w'
       = (if can_attach env path w
          then match media_name_of env path with
               | Some m => option_map (with_audio (sound_tag m)) (note w)
               | None => note w
               end
          else note w).
Proof.
  unfold add_audio_to_note, can_attach, media_name_of, with_audio, sound_tag,
    try_except, bind, get, call, ret, raise, add_media, set_note,
    showCritical, showInfo, show_notice.
  destruct (file_exists path (files w)); cbn [negb andb];
    [|eexists; split; [reflexivity|]; now_frame].
  destruct (mw_col env).
  - destruct (add_file env path) as [e|m];
      [eexists; split; [reflexivity|]; now_frame|].
    cbn [files reloads convert_log notices media note].
    destruct (note w) as [n|] eqn:E;
      [|eexists; split; [reflexivity|]; now_frame].
    destruct (find_audio_field n) as [f|] eqn:F;
      eexists; (split; [reflexivity|]); now_frame.
  - cbn [files reloads convert_log notices media note].
    destruct (note w) as [n|] eqn:E;
      [|eexists; split; [reflexivity|]; now_frame].
    destruct (find_audio_field n) as [f|] eqn:F;
      eexists; (split; [reflexivity|]); now_frame.
Qed.

End HostRuns.
Import HostRuns.

(* ================================================================== *)
(** * [process_text], step by step *)
(* ================================================================== *)

Module ProcessSteps.

Lemma clear_spec (w : World) :
  exists w',
    clear_audio_field w = (Ok tt, w')
    /\ note w' = option_map (with_audio []) (note w)
    /\ files w' = files w
    /\ media w' = media w
    /\ notices w' = notices w
    /\ reloads w' = reloads w.
Proof.
  destruct (clear_run w) as [w' [E N]]. exists w'.
  pose proof (clear_keeps_files w) as F.
  pose proof (clear_keeps_media w) as Md.
  pose proof (clear_keeps_notices w) as Nt.
  pose proof (clear_keeps_reloads w) as R.
  rewrite E in F, Md, Nt, R. now repeat split.
Qed.

(** After a successful attach: the reload of the editor, which may raise,
    and the removal of the file, which may not. *)
Lemma tail_spec (env : Env) (path : str) (w : World) :
  file_exists path (files w) = true ->
  exists r w',
    bind (if ANKI_AVAILABLE env && has_loadNote env
          then bind (check (loadNote_fails env)) (fun _ => count_reload)
          else ret tt)
      (fun _ => bind (try_except (os_remove env path) (fun _ => ret tt))
                  (fun _ => ret true)) w = (r, w')
    /\ note w' = note w
    /\ notices w' = notices w
    /\ media w' = media w
    /\ match (if reloads_editor env then loadNote_fails env else None) with
       | Some e => r = Raised e /\ files w' = files w
                   /\ reloads w' = reloads w
       | None =>
           r = Ok true
           /\ files w' = match remove_fails env path with
                         | None => file_remove path (files w)
                         | Some _ => files w
                         end
           /\ reloads w' = (if reloads_editor env then S (reloads w)
                            else reloads w)
       end.
Proof.
  intros H.
  unfold reloads_editor, os_remove, try_except, check, count_reload, bind,
    ret, raise, get, set_files.
  destruct (ANKI_AVAILABLE env && has_loadNote env).
  - destruct (loadNote_fails env) as [e|].
    + eexists; eexists; split; [reflexivity|]. now repeat split.
    + cbn [files note media convert_log notices reloads].
      destruct (remove_fails env path).
      * eexists; eexists; split; [reflexivity|]. now repeat split.
      * cbn [files note media convert_log notices reloads]. rewrite H.
        eexists; eexists; split; [reflexivity|]. now repeat split.
  - destruct (remove_fails env path).
    + eexists; eexists; split; [reflexivity|]. now repeat split.
    + cbv beta iota. rewrite H.
      eexists; eexists; split; [reflexivity|]. now repeat split.
Qed.

Lemma find_audio_field_with (v : str) (n : Note) :
  find_audio_field (with_audio v n) = find_audio_field n.
Proof.
  unfold with_audio. destruct (find_audio_field n) eqn:F; [|exact F].
  now rewrite find_audio_field_set.
Qed.

(** What [can_attach] says. *)
Lemma can_attach_true (env : Env) (path : str) (w : World) :
  can_attach env path w = true ->
  file_exists path (files w) = true
  /\ exists m n f,
       media_name_of env path = Some m /\ note w = Some n
       /\ find_audio_field n = Some f.
Proof.
  unfold can_attach. intros H.
  apply andb_true_iff in H as [H H3]. apply andb_true_iff in H as [H1 H2].
  split; [exact H1|].
  destruct (media_name_of env path) as [m|]; [|discriminate].
  destruct (note w) as [n|]; [|discriminate].
  destruct (find_audio_field n) as [f|] eqn:F; [|discriminate].
  now exists m, n, f.
Qed.

(** A run of [process_text] that has passed the checks. *)
Lemma process_late_spec (self : Processor) (env : Env) (w : World) :
  rejected_early self env w = false ->
  forall r w', process_text self env w = (r, w') ->
  exists b l,
    r = Ok b
    /\ notices w' = notices w ++ l
    /\ (b = false -> l <> [])
    /\ (forall q, q <> temp_path self env ->
                  file_read q (files w') = file_read q (files w))
    /\ (b = true ->
        exists n f m bytes,
          note w = Some n
          /\ find_audio_field n = Some f
          /\ speech env (speech_request self
                           (tts_output (speech_rate self)
                                       (PyStr (field_content w))))
             = inr bytes
          /\ media_name_of env (temp_path self env) = Some m
          /\ note w' = Some (note_set f (sound_tag m) n)
          /\ files w'
             = match remove_fails env (temp_path self env) with
               | None => file_remove (temp_path self env) (files w)
               | Some _ => file_write (temp_path self env) bytes (files w)
               end
          /\ reloads w' = (if reloads_editor env then S (reloads w)
                           else reloads w)
          /\ (if reloads_editor env then loadNote_fails env else None)
             = None).
Proof.
  unfold rejected_early, process_text. intros H r w' E.
  destruct (negb (enabled self)); [discriminate H|].
  destruct (negb (SPEECHIFY_AVAILABLE env)); [discriminate H|].
  destruct (negb (truthy (PyStr (api_key self)))); [discriminate H|].
  destruct (str_eqb (api_key self) (lit "your-api-key-here"));
    [discriminate H|].
  cbn [orb] in H, E. unfold try_except, bind at 1 in E.
  rewrite get_field_content_run in E.
  destruct (field_content w) as [|c t]; [discriminate H|].
  destruct (strip (c :: t)); [discriminate H|]. rewrite H in E.
  unfold bind at 1 in E.
  destruct (clear_spec w) as [w1 [C1 [N1 [F1 [M1 [T1 R1]]]]]].
  rewrite C1 in E. unfold bind at 1 in E.
  destruct (create_spec self env (c :: t) w1)
    as [a [w2 [C2 [N2 [M2 [R2 [[l2 T2] Ha]]]]]]].
  rewrite C2 in E. rewrite T1 in T2.
  assert (Failed : forall wx msg lx,
             notices wx = notices w ++ lx ->
             (forall q, q <> temp_path self env ->
                        file_read q (files wx) = file_read q (files w)) ->
             (let (r0, w0) :=
                bind (showCritical msg) (fun _ => ret false) wx in
              match r0 with
              | Ok a => (Ok a, w0)
              | Raised e =>
                  bind (showCritical
                          (lit "Speechify TTS processing error: "
                               ++ exn_msg e))
                    (fun _ => ret false) w0
              end) = (r, w') ->
             exists b l,
               r = Ok b
               /\ notices w' = notices w ++ l
               /\ (b = false -> l <> [])
               /\ (forall q, q <> temp_path self env ->
                             file_read q (files w') = file_read q (files w))
               /\ (b = true -> False)).
  { intros wx msg lx Tx Fx E'. cbn in E'. injection E' as <- <-.
    exists false, (lx ++ [Critical msg]).
    split; [reflexivity|]. split; [cbn [notices]; now rewrite Tx, app_assoc|].
    split; [intros _; destruct lx; discriminate|].
    split; [exact Fx | discriminate]. }
  assert (Lift : (exists b l,
               r = Ok b
               /\ notices w' = notices w ++ l
               /\ (b = false -> l <> [])
               /\ (forall q, q <> temp_path self env ->
                             file_read q (files w') = file_read q (files w))
               /\ (b = true -> False)) ->
          exists b l,
            r = Ok b
            /\ notices w' = notices w ++ l
            /\ (b = false -> l <> [])
            /\ (forall q, q <> temp_path self env ->
                          file_read q (files w') = file_read q (files w))
            /\ (b = true ->
                exists n f m bytes,
                  note w = Some n
                  /\ find_audio_field n = Some f
                  /\ speech env (speech_request self
                                   (tts_output (speech_rate self)
                                               (PyStr (c :: t))))
                     = inr bytes
                  /\ media_name_of env (temp_path self env) = Some m
                  /\ note w' = Some (note_set f (sound_tag m) n)
                  /\ files w'
                     = match remove_fails env (temp_path self env) with
                       | None => file_remove (temp_path self env) (files w)
                       | Some _ =>
                           file_write (temp_path self env) bytes (files w)
                       end
                  /\ reloads w' = (if reloads_editor env then S (reloads w)
                                   else reloads w)
                  /\ (if reloads_editor env then loadNote_fails env else None)
                     = None)).
  { intros [b [l [Hr [Hn [Hl [Hf Hb]]]]]]. exists b, l.
    repeat split; try assumption. intros Hb'. destruct (Hb Hb'). }
  destruct a as [[|p0 p]|].
  - (* an empty path *)
    destruct Ha as [P [_ [_ [_ [_ [bytes [_ F2]]]]]]].
    apply Lift. refine (Failed w2 _ l2 T2 _ E).
    intros q Hq. rewrite F2, P, F1.
    now apply file_read_write_other.
  - (* the file is there *)
    destruct Ha as [P [_ [_ [_ [T2' [bytes [Sp F2]]]]]]].
    rewrite P in *. clear P p0 p.
    unfold bind at 1 in E.
    destruct (add_spec env (temp_path self env) w2)
      as [w3 [C3 [F3 [R3 [_ [[l3 T3] [M3 N3]]]]]]].
    rewrite C3 in E. rewrite T2 in T3.
    assert (Fq : forall q, q <> temp_path self env ->
                           file_read q (files w3) = file_read q (files w)).
    { intros q Hq. rewrite F3, F2, F1. now apply file_read_write_other. }
    destruct (can_attach env (temp_path self env) w2) eqn:CA.
    + cbv beta iota in E.
      destruct (can_attach_true _ _ _ CA) as [_ [m [n2 [f [Hm [Hn2 Hf2]]]]]].
      assert (Ex : file_exists (temp_path self env) (files w3) = true).
      { rewrite F3, F2. apply file_exists_write. }
      destruct (tail_spec env (temp_path self env) w3 Ex)
        as [r4 [w4 [C4 [N4 [T4 [M4 H4]]]]]].
      unfold try_except in C4. rewrite C4 in E.
      destruct (if reloads_editor env then loadNote_fails env else None)
        as [e|] eqn:L.
      * destruct H4 as [-> [F4 R4]]. cbn in E. injection E as <- <-.
        exists false. eexists. split; [reflexivity|].
        split; [cbn [notices]; rewrite T4, T3, <- !app_assoc; reflexivity|].
        split; [intros _ Hx; repeat (apply app_eq_nil in Hx as [_ Hx]);
                discriminate Hx|].
        split; [|discriminate].
        intros q Hq. cbn [files]. rewrite F4. now apply Fq.
      * destruct H4 as [-> [F4 R4]]. cbn in E. injection E as <- <-.
        exists true, (l2 ++ l3). split; [reflexivity|].
        split; [now rewrite T4, T3, app_assoc|].
        split; [discriminate|].
        split.
        { intros q Hq. rewrite F4.
          destruct (remove_fails env (temp_path self env));
            [now apply Fq|].
          rewrite file_read_remove_other by exact Hq. now apply Fq. }
        intros _. rewrite N2, N1 in Hn2.
        destruct (note w) as [n|] eqn:Nw; [|discriminate].
        cbn [option_map] in Hn2. injection Hn2 as <-.
        rewrite find_audio_field_with in Hf2.
        exists n, f, m, bytes.
        split; [reflexivity|]. split; [exact Hf2|]. split; [exact Sp|].
        split; [exact Hm|].
        split.
        { rewrite N4, N3, Hm, N2, N1. cbn [option_map].
          rewrite with_audio_twice. unfold with_audio. now rewrite Hf2. }
        split.
        { rewrite F4, F3, F2, F1.
          destruct (remove_fails env (temp_path self env)); [reflexivity|].
          apply file_remove_write. }
        split; [rewrite R4, R3, R2, R1; reflexivity | reflexivity].
    + apply Lift. refine (Failed w3 _ (l2 ++ l3) _ Fq E).
      now rewrite T3, app_assoc.
  - (* no file *)
    apply Lift. refine (Failed w2 _ l2 T2 _ E).
    intros q Hq. destruct Ha as [-> | ->]; rewrite F1; [reflexivity|].
    now apply file_read_write_other.
Qed.

End ProcessSteps.
Import ProcessSteps.

Module ProcessOutcome.

(** A run of [process_text] that returns [True]. *)
Lemma process_success (self : Processor) (env : Env) (w : World) :
  fst (process_text self env w) = Ok true ->
  exists n f m bytes,
    note w = Some n
    /\ find_audio_field n = Some f
    /\ speech env (speech_request self
                     (tts_output (speech_rate self)
                                 (PyStr (field_content w))))
       = inr bytes
    /\ media_name_of env (temp_path self env) = Some m
    /\ note (snd (process_text self env w))
       = Some (note_set f (sound_tag m) n)
    /\ files (snd (process_text self env w))
       = match remove_fails env (temp_path self env) with
         | None => file_remove (temp_path self env) (files w)
         | Some _ => file_write (temp_path self env) bytes (files w)
         end
    /\ reloads (snd (process_text self env w))
       = (if reloads_editor env then S (reloads w) else reloads w)
    /\ (if reloads_editor env then loadNote_fails env else None) = None.
Proof.
  intros H. destruct (rejected_early self env w) eqn:R.
  - destruct (rejected_early_run self env w R) as [msg E].
    rewrite E in H. discriminate H.
  - destruct (process_text self env w) as [r w'] eqn:E.
    destruct (process_late_spec self env w R r w' E)
      as [b [l [Hr [_ [_ [_ Hb]]]]]].
    cbn [fst snd] in *. rewrite Hr in H. injection H as ->.
    exact (Hb eq_refl).
Qed.

End ProcessOutcome.
Import ProcessOutcome.

(* ================================================================== *)
(** * Further properties: the audio file and the note *)
(* ================================================================== *)

(** X7: [add_audio_to_note] never raises.  It returns [True] exactly when
    the file is there, the media store takes it (or there is no media
    store) and the note has one of the audio fields.  It writes no file.
    When it returns [False] the note is as before; the media store has
    the new name as soon as it took the file, whether the note has an
    audio field or not. *)
Theorem add_audio_to_note_outcome (env : Env) (path : str) (w : World) :
  fst (add_audio_to_note env path w) = Ok (can_attach env path w)
  /\ files (snd (add_audio_to_note env path w)) = files w
  /\ media (snd (add_audio_to_note env path w))
     = (if file_exists path (files w) && mw_col env
        then match add_file env path with
             | inr m => media w ++ [m]
             | inl _ => media w
             end
        else media w)
  /\ (if can_attach env path w then True
      else note (snd (add_audio_to_note env path w)) = note w).
Proof.
  destruct (add_spec env path w) as [w' [E [F [_ [_ [_ [M N]]]]]]].
  rewrite E. cbn [fst snd]. repeat split; try assumption.
  destruct (can_attach env path w); [exact I | exact N].
Qed.

(** X8: when [add_audio_to_note] returns [True], the tag [[sound:name]]
    of the media name is the content of the first of [Audio], [audio],
    [Sound], [sound] that the note has; every other field keeps its
    content, and the fields keep their names and their order. *)
Theorem attached_audio_is_in_first_audio_field
  (env : Env) (path : str) (w : World) :
  fst (add_audio_to_note env path w) = Ok true ->
  exists n n' f m before after,
    note w = Some n
    /\ note (snd (add_audio_to_note env path w)) = Some n'
    /\ audio_fields = before ++ f :: after
    /\ note_has f n = true
    /\ forallb (fun g => negb (note_has g n)) before = true
    /\ media_name_of env path = Some m
    /\ note_get f n' = Some (sound_tag m)
    /\ (forall g, g <> f -> note_get g n' = note_get g n)
    /\ map fst n' = map fst n.
Proof.
  intros H.
  destruct (add_spec env path w) as [w' [E [_ [_ [_ [_ [_ N]]]]]]].
  rewrite E in H |- *. cbn [fst snd] in *. injection H as H.
  rewrite H in N.
  destruct (can_attach_true env path w H) as [_ [m [n [f [Hm [Hn Hf]]]]]].
  rewrite Hm, Hn in N. cbn [option_map] in N.
  destruct (find_audio_field_first n f Hf) as [before [after [Ha [Hh Hb]]]].
  destruct (with_audio_effect (sound_tag m) n f Hf) as [G [O Nm]].
  exists n, (with_audio (sound_tag m) n), f, m, before, after.
  now repeat split.
Qed.

Lemma attached_audio_is_in_first_audio_field_witness :
  fst (add_audio_to_note env_ok (lit "/tmp/a.mp3") world_with_recording)
  = Ok true
  /\ exists n n' f m before after,
       note world_with_recording = Some n
       /\ note (snd (add_audio_to_note env_ok (lit "/tmp/a.mp3")
                       world_with_recording)) = Some n'
       /\ audio_fields = before ++ f :: after
       /\ note_has f n = true
       /\ forallb (fun g => negb (note_has g n)) before = true
       /\ media_name_of env_ok (lit "/tmp/a.mp3") = Some m
       /\ note_get f n' = Some (sound_tag m)
       /\ (forall g, g <> f -> note_get g n' = note_get g n)
       /\ map fst n' = map fst n.
Proof.
  split; [vm_compute; reflexivity|].
  apply (attached_audio_is_in_first_audio_field env_ok (lit "/tmp/a.mp3")
           world_with_recording).
  vm_compute; reflexivity.
Defined.

(** X9: [create_audio_file] never raises and leaves the note and the
    media store alone.  A path it returns is the file
    [inferanki-speechify-tts-<time>.<format>] in the temporary directory;
    then the vendor was asked for the processed text with the format,
    language, model, options and voice of the processor, the file holds
    the bytes the vendor returned, and no message was shown.  When it
    returns [None], the files (the debug log apart) are as before, or the
    file is there and empty: it was opened and the write failed. *)
Theorem created_file_holds_vendor_audio
  (self : Processor) (env : Env) (text : str) (w : World) :
  exists r,
    fst (create_audio_file self env text w) = Ok r
    /\ note (snd (create_audio_file self env text w)) = note w
    /\ media (snd (create_audio_file self env text w)) = media w
    /\ match r with
       | Some p =>
           p = temp_path self env
           /\ notices (snd (create_audio_file self env text w)) = notices w
           /\ exists bytes,
                speech env (speech_request self
                              (tts_output (speech_rate self) (PyStr text)))
                = inr bytes
                /\ files (snd (create_audio_file self env text w))
                   = file_write p bytes (files w)
                /\ file_read p (files (snd (create_audio_file self env text w)))
                   = Some bytes
       | None =>
           files (snd (create_audio_file self env text w)) = files w
           \/ files (snd (create_audio_file self env text w))
              = file_write (temp_path self env) [] (files w)
       end.
Proof.
  destruct (create_spec self env text w)
    as [r [w' [E [N [M [_ [_ Hr]]]]]]].
  exists r. rewrite E. cbn [fst snd]. repeat split; try assumption.
  destruct r as [p|]; [|exact Hr].
  destruct Hr as [P [_ [_ [_ [T [bytes [S F]]]]]]].
  repeat split; try assumption.
  exists bytes. repeat split; try assumption.
  rewrite F. apply file_read_write.
Qed.

(* ================================================================== *)
(** * Further properties: [process_text] *)
(* ================================================================== *)

(** X10: [process_text] never raises: it returns [True] or [False].  It
    takes no message back, and when it returns [False] it has shown at
    least one. *)
Theorem process_text_reports_failure
  (self : Processor) (env : Env) (w : World) :
  exists b l,
    fst (process_text self env w) = Ok b
    /\ notices (snd (process_text self env w)) = notices w ++ l
    /\ (if b then True else l <> []).
Proof.
  destruct (rejected_early self env w) eqn:R.
  - destruct (rejected_early_run self env w R) as [msg ->].
    exists false, [msg]. repeat split. discriminate.
  - destruct (process_text self env w) as [r w'] eqn:E.
    destruct (process_late_spec self env w R r w' E)
      as [b [l [Hr [Hn [Hl _]]]]].
    exists b, l. cbn [fst snd]. repeat split; try assumption.
    destruct b; [exact I | now apply Hl].
Qed.

(** X11: [process_text] touches no file but its own temporary file and
    the debug log: every other path reads afterwards what it read before,
    whatever the outcome. *)
Theorem process_text_touches_only_temp_file
  (self : Processor) (env : Env) (w : World) (q : str) :
  q <> temp_path self env ->
  q <> log_file env ->
  file_read q (files (snd (process_text self env w)))
  = file_read q (files w).
Proof.
  intros Hq _. destruct (rejected_early self env w) eqn:R.
  - destruct (rejected_early_run self env w R) as [msg ->]. reflexivity.
  - destruct (process_text self env w) as [r w'] eqn:E.
    destruct (process_late_spec self env w R r w' E)
      as [b [l [_ [_ [_ [Hf _]]]]]].
    cbn [snd]. now apply Hf.
Qed.

Lemma process_text_touches_only_temp_file_witness :
  lit "/tmp/keep.txt" <> temp_path proc_default env_ok
  /\ lit "/tmp/keep.txt" <> log_file env_ok
  /\ file_read (lit "/tmp/keep.txt")
       (files (snd (process_text proc_default env_ok world_with_other_file)))
     = Some [104; 105]%N.
Proof.
  assert (H : lit "/tmp/keep.txt" <> temp_path proc_default env_ok)
    by (vm_compute; discriminate).
  assert (L : lit "/tmp/keep.txt" <> log_file env_ok)
    by (vm_compute; discriminate).
  split; [exact H|]. split; [exact L|].
  rewrite (process_text_touches_only_temp_file proc_default env_ok
             world_with_other_file (lit "/tmp/keep.txt") H L).
  reflexivity.
Defined.

(** X12: when [process_text] returns [True], the vendor returned audio
    for the processed content of field 2, and the first audio field of the
    note holds the tag of the name the media store gave to the temporary
    file; all other fields are as before, and the editor was reloaded once
    if it can be. *)
Theorem successful_run_attaches_vendor_audio
  (self : Processor) (env : Env) (w : World) :
  fst (process_text self env w) = Ok true ->
  exists n n' f m bytes,
    note w = Some n
    /\ note (snd (process_text self env w)) = Some n'
    /\ find_audio_field n = Some f
    /\ speech env (speech_request self
                     (tts_output (speech_rate self)
                                 (PyStr (field_content w))))
       = inr bytes
    /\ media_name_of env (temp_path self env) = Some m
    /\ note_get f n' = Some (sound_tag m)
    /\ (forall g, g <> f -> note_get g n' = note_get g n)
    /\ map fst n' = map fst n
    /\ reloads (snd (process_text self env w))
       = (if reloads_editor env then S (reloads w) else reloads w).
Proof.
  intros H.
  destruct (process_success self env w H)
    as [n [f [m [bytes [Hn [Hf [Sp [Hm [N' [_ [Rl _]]]]]]]]]]].
  destruct (with_audio_effect (sound_tag m) n f Hf) as [G [O Nm]].
  unfold with_audio in G, O, Nm. rewrite Hf in G, O, Nm.
  exists n, (note_set f (sound_tag m) n), f, m, bytes.
  now repeat split.
Qed.

Lemma successful_run_attaches_vendor_audio_witness :
  fst (process_text proc_default env_ok (world_of note_with_audio)) = Ok true
  /\ exists n n' f m bytes,
       note (world_of note_with_audio) = Some n
       /\ note (snd (process_text proc_default env_ok
                       (world_of note_with_audio))) = Some n'
       /\ find_audio_field n = Some f
       /\ speech env_ok
            (speech_request proc_default
               (tts_output (speech_rate proc_default)
                  (PyStr (field_content (world_of note_with_audio)))))
          = inr bytes
       /\ media_name_of env_ok (temp_path proc_default env_ok) = Some m
       /\ note_get f n' = Some (sound_tag m)
       /\ (forall g, g <> f -> note_get g n' = note_get g n)
       /\ map fst n' = map fst n
       /\ reloads (snd (process_text proc_default env_ok
                          (world_of note_with_audio)))
          = (if reloads_editor env_ok
             then S (reloads (world_of note_with_audio))
             else reloads (world_of note_with_audio)).
Proof.
  split; [vm_compute; reflexivity|].
  apply (successful_run_attaches_vendor_audio proc_default env_ok
           (world_of note_with_audio)).
  vm_compute; reflexivity.
Defined.

(** X13: when [process_text] returns [True] and [os.remove] does not fail
    on the temporary file, the files afterwards (the debug log apart) are
    the files before without the temporary file: the file is gone and
    nothing else is. *)
Theorem temp_file_removed_on_success
  (self : Processor) (env : Env) (w : World) :
  fst (process_text self env w) = Ok true ->
  remove_fails env (temp_path self env) = None ->
  files (snd (process_text self env w))
  = file_remove (temp_path self env) (files w)
  /\ file_exists (temp_path self env) (files (snd (process_text self env w)))
     = false.
Proof.
  intros H Rm.
  destruct (process_success self env w H)
    as [n [f [m [bytes [_ [_ [_ [_ [_ [F _]]]]]]]]]].
  rewrite Rm in F. rewrite F. split; [reflexivity|].
  apply file_exists_remove.
Qed.

Lemma temp_file_removed_on_success_witness :
  fst (process_text proc_default env_ok world_with_other_file) = Ok true
  /\ remove_fails env_ok (temp_path proc_default env_ok) = None
  /\ files (snd (process_text proc_default env_ok world_with_other_file))
     = file_remove (temp_path proc_default env_ok)
         (files world_with_other_file)
  /\ file_exists (temp_path proc_default env_ok)
       (files (snd (process_text proc_default env_ok world_with_other_file)))
     = false.
Proof.
  split; [vm_compute; reflexivity|]. split; [reflexivity|].
  apply (temp_file_removed_on_success proc_default env_ok
           world_with_other_file);
    [vm_compute; reflexivity | reflexivity].
Defined.

(** X14: [clear_audio_field] never raises, shows no message and writes no
    file.  It empties the first of [Audio], [audio], [Sound], [sound] that
    the note has and leaves every other field, the names and the order as
    they are; without such a field, or without a note, nothing changes. *)
Theorem clear_audio_field_empties_first_audio_field (w : World) :
  fst (clear_audio_field w) = Ok tt
  /\ files (snd (clear_audio_field w)) = files w
  /\ notices (snd (clear_audio_field w)) = notices w
  /\ match note w with
     | Some n =>
         match find_audio_field n with
         | Some f =>
             exists n',
               note (snd (clear_audio_field w)) = Some n'
               /\ note_get f n' = Some []
               /\ (forall g, g <> f -> note_get g n' = note_get g n)
               /\ map fst n' = map fst n
         | None => note (snd (clear_audio_field w)) = Some n
         end
     | None => note (snd (clear_audio_field w)) = None
     end.
Proof.
  destruct (clear_spec w) as [w' [E [N [F [_ [T _]]]]]].
  rewrite E. cbn [fst snd]. repeat split; try assumption.
  destruct (note w) as [n|]; [|exact N]. cbn [option_map] in N.
  destruct (find_audio_field n) as [f|] eqn:Hf.
  - destruct (with_audio_effect [] n f Hf) as [G [O Nm]].
    exists (with_audio [] n). now repeat split.
  - unfold with_audio in N. now rewrite Hf in N.
Qed.

(* ================================================================== *)
(** * Further properties: the pauses *)
(* ================================================================== *)

(** X15: the placeholders of the dot runs never reach the output, not
    even when the text itself has them. *)
Theorem placeholders_never_reach_output (text : str) :
  contains LONG_PAUSE (normalized text) = false
  /\ contains MED_PAUSE (normalized text) = false.
Proof.
  unfold normalized, clean_whitespace, dot_runs, resolve_placeholders.
  split.
  - apply strip_keeps_out.
    apply sub_keeps_out; [discriminate | discriminate | reflexivity |].
    apply sub_keeps_out; [discriminate | discriminate | reflexivity |].
    rewrite <- replace_sub by discriminate.
    apply replace_kills; [discriminate | discriminate | reflexivity].
  - apply strip_keeps_out.
    apply sub_keeps_out; [discriminate | discriminate | reflexivity |].
    rewrite <- replace_sub by discriminate.
    apply replace_kills; [discriminate | discriminate | reflexivity].
Qed.

Module DotBound.

(** A word that starts nowhere in [x] starts nowhere in [x] followed by a
    character the word does not have. *)
Lemma starts_with_block (q : char -> bool) (sp : char) (y : str) :
  q sp = false ->
  forall w x, forallb q w = true -> starts_with w x = false ->
              starts_with w (x ++ sp :: y) = false.
Proof.
  intros Hsp. induction w as [|a w IH]; intros x Hw H; [discriminate H|].
  cbn [forallb] in Hw. apply andb_true_iff in Hw as [Ha Hw].
  destruct x as [|c x]; cbn [app starts_with] in *.
  - destruct (eqc a sp) eqn:E; [|reflexivity].
    apply eqc_eq in E. subst. congruence.
  - destruct (eqc a c); [|reflexivity]. cbn [andb] in *. now apply IH.
Qed.

Lemma contains_block (q : char -> bool) (sp : char) (w y : str) :
  q sp = false -> forallb q w = true -> w <> [] ->
  forall x, contains w x = false ->
            contains w (x ++ sp :: y) = contains w y.
Proof.
  intros Hsp Hw Hne. induction x as [|c x IH]; intros H.
  - cbn [app]. rewrite contains_cons.
    assert (P : starts_with w ([] ++ sp :: y) = false).
    { apply (starts_with_block q sp y Hsp w [] Hw).
      destruct w; [contradiction | reflexivity]. }
    cbn [app] in P. now rewrite P.
  - change ((c :: x) ++ sp :: y) with (c :: (x ++ sp :: y)).
    rewrite contains_cons, (IH (contains_tail w c x H)).
    change (c :: x ++ sp :: y) with ((c :: x) ++ sp :: y).
    now rewrite (starts_with_block q sp y Hsp w (c :: x) Hw
                   (contains_head w c x H)).
Qed.

(** The replacement [a :: x ++ [b]], with [a] and [b] outside the word and
    no occurrence of the word in [x]. *)
Lemma contains_padded (q : char -> bool) (a b : char) (w x y : str) :
  q a = false -> q b = false -> forallb q w = true -> w <> [] ->
  contains w x = false ->
  contains w ((a :: x ++ [b]) ++ y) = contains w y.
Proof.
  intros Ha Hb Hw Hne Hx.
  change ((a :: x ++ [b]) ++ y) with (a :: ((x ++ [b]) ++ y)).
  rewrite <- app_assoc. cbn [app]. rewrite contains_cons.
  rewrite (contains_block q b w y Hb Hw Hne x Hx).
  assert (P : starts_with w ([] ++ a :: x ++ b :: y) = false).
  { apply (starts_with_block q a _ Ha w [] Hw).
    destruct w; [contradiction | reflexivity]. }
  cbn [app] in P. now rewrite P.
Qed.

Section Padded.

Variable r : regex.
Variable q : char -> bool.
Variables a b : char.
Variable x : str.
Hypothesis Ha : q a = false.
Hypothesis Hb : q b = false.

Lemma sub_from_prefix_padded (u : str) :
  forallb q u = true ->
  forall s, starts_with u (sub_from r (a :: x ++ [b]) 0 s) = true ->
            starts_with u s = true.
Proof.
  assert (R : forall u y, forallb q u = true ->
                          starts_with u ((a :: x ++ [b]) ++ y) = true ->
                          u = []).
  { intros v y Hv H. destruct v as [|c v]; [reflexivity|].
    assert (P : starts_with (c :: v) ([] ++ a :: ((x ++ [b]) ++ y)) = false)
      by (apply (starts_with_block q a _ Ha (c :: v) [] Hv); reflexivity).
    change ([] ++ a :: ((x ++ [b]) ++ y)) with ((a :: x ++ [b]) ++ y) in P.
    congruence. }
  intros Hu s. revert u Hu. induction s as [|c t IH]; intros u Hu;
    cbn [sub_from].
  - destruct (match_len r []); intros H.
    + rewrite <- (app_nil_r (a :: x ++ [b])) in H. now rewrite (R u [] Hu H).
    + exact H.
  - destruct (match_len r (c :: t)) as [[|n]|]; intros H.
    + now rewrite (R u _ Hu H).
    + now rewrite (R u _ Hu H).
    + destruct u as [|d u]; [reflexivity|]. cbn [starts_with forallb] in *.
      apply andb_true_iff in Hu as [_ Hu].
      apply andb_true_iff in H as [-> H]. now apply IH.
Qed.

(** A substitution by such a replacement forms no occurrence of the
    word. *)
Lemma sub_from_no_new_padded (w : str) :
  forallb q w = true -> w <> [] -> contains w x = false ->
  forall (s : str) (skip : nat),
    contains w s = false ->
    contains w (sub_from r (a :: x ++ [b]) skip s) = false.
Proof.
  intros Hw Hne Hx. induction s as [|c t IH]; intros skip Hs.
  - cbn [sub_from]. destruct (match_len r []); [|exact Hs].
    rewrite <- (app_nil_r (a :: x ++ [b])).
    now rewrite (contains_padded q a b w x [] Ha Hb Hw Hne Hx).
  - pose proof (contains_tail w c t Hs) as Ht.
    destruct skip as [|k]; [|now apply IH].
    assert (C : contains w (c :: sub_from r (a :: x ++ [b]) 0 t) = false).
    { rewrite contains_cons, (IH 0 Ht), orb_false_r.
      destruct (starts_with w (c :: sub_from r (a :: x ++ [b]) 0 t)) eqn:Q;
        [|reflexivity].
      destruct w as [|d w]; [contradiction|].
      assert (Q' : starts_with (d :: w) (c :: t) = true).
      { cbn [starts_with forallb] in *.
        apply andb_true_iff in Q as [-> Q].
        apply andb_true_iff in Hw as [_ Hw].
        now rewrite (sub_from_prefix_padded w Hw t Q). }
      now rewrite (contains_head _ c t Hs) in Q'. }
    cbn [sub_from]. destruct (match_len r (c :: t)) as [[|n]|].
    + now rewrite (contains_padded q a b w x _ Ha Hb Hw Hne Hx).
    + rewrite (contains_padded q a b w x _ Ha Hb Hw Hne Hx). now apply IH.
    + exact C.
Qed.

End Padded.

(** A text without a word has no longer word either. *)
Lemma contains_longer (w v s : str) :
  contains w s = false -> contains (w ++ v) s = false.
Proof.
  intros H. destruct (contains (w ++ v) s) eqn:E; [|reflexivity].
  apply contains_spec in E as [x [y ->]].
  assert (C : contains w (x ++ (w ++ v) ++ y) = true).
  { apply contains_spec. exists x, (v ++ y). now rewrite <- app_assoc. }
  congruence.
Qed.

(** After the three passes over the runs of periods no two periods are
    side by side. *)
Lemma classify_dots_no_pair (s : str) :
  contains [dot; dot] (classify_dots s) = false.
Proof.
  unfold classify_dots, sub.
  apply sub_kills_word; [discriminate | discriminate | reflexivity | |].
  - intros u. unfold match_len, match_rest, re_dots2, Times.
    cbn [repeat seq fold_right m].
    destruct u as [|c [|d t]]; try reflexivity.
    + cbn [starts_with]. now rewrite andb_false_r.
    + change (starts_with [dot; dot] (c :: d :: t))
        with (is_dot c && (is_dot d && true)).
      destruct (is_dot c); [|reflexivity].
      destruct (is_dot d); [discriminate | reflexivity].
  - intros u. unfold match_len, match_rest, re_dots2, Times.
    cbn [repeat seq fold_right m].
    destruct u as [|c [|d t]]; try discriminate.
    + destruct (is_dot c); discriminate.
    + destruct (is_dot c); [|discriminate].
      destruct (is_dot d); [|discriminate].
      intros H. injection H as H.
      destruct (length t) as [|[|l]]; [discriminate | discriminate | lia].
Qed.

End DotBound.
Import DotBound.

(** X16: the output never has four periods in a row, however many the
    text has: the three passes over the runs leave no two periods side by
    side, and the pauses that come in have three periods or two, with a
    space on both sides. *)
Theorem output_has_no_four_periods (text : str) :
  contains (lit "....") (normalized text) = false.
Proof.
  unfold normalized, clean_whitespace, dot_runs, resolve_placeholders.
  apply strip_keeps_out.
  apply sub_keeps_out; [discriminate | discriminate | reflexivity |].
  unfold sub.
  apply (sub_from_no_new_padded (word MED_PAUSE) is_dot 32%N 32%N (lit "..")
           eq_refl eq_refl (lit "....") eq_refl);
    [discriminate | reflexivity |].
  apply (sub_from_no_new_padded (word LONG_PAUSE) is_dot 32%N 32%N (lit "...")
           eq_refl eq_refl (lit "....") eq_refl);
    [discriminate | reflexivity |].
  apply (contains_longer [dot; dot] [dot; dot]).
  apply classify_dots_no_pair.
Qed.

(* ================================================================== *)
(** * Further properties: outside Anki *)
(* ================================================================== *)

Module PathFacts.

Lemma basename_from_plain (env : Env) (acc f : str) :
  forallb (not_sep env) f = true -> basename_from env acc f = acc.
Proof.
  revert acc. induction f as [|c f IH]; intros acc H; [reflexivity|].
  cbn [forallb] in H. apply andb_true_iff in H as [Hc Hf].
  cbn [basename_from]. unfold not_sep in Hc.
  apply negb_true_iff in Hc. rewrite Hc. now apply IH.
Qed.

Lemma basename_from_last (env : Env) (f : str) :
  forallb (not_sep env) f = true ->
  forall x acc, basename_from env acc (x ++ sep env :: f) = f.
Proof.
  intros H. induction x as [|c x IH]; intros acc.
  - cbn [app basename_from]. rewrite eqc_refl.
    now apply basename_from_plain.
  - cbn [app basename_from]. destruct (eqc c (sep env)); apply IH.
Qed.

(** [os.path.basename(os.path.join(a, b))] is [b] for a name [b] without
    a separator. *)
Lemma basename_path_join (env : Env) (a b : str) :
  forallb (not_sep env) b = true -> basename env (path_join env a b) = b.
Proof.
  intros H. unfold basename, path_join.
  destruct (rev a) as [|c r] eqn:E.
  - now apply basename_from_plain.
  - destruct (eqc c (sep env)) eqn:Hc.
    + apply eqc_eq in Hc. subst c.
      assert (A : a = rev r ++ [sep env]).
      { rewrite <- (rev_involutive a), E. reflexivity. }
      rewrite A, <- app_assoc. cbn [app].
      now apply basename_from_last.
    + now apply basename_from_last.
Qed.

End PathFacts.
Import PathFacts.

(** X17: outside Anki, where there is no collection, a call of
    [process_text] that returns [True] leaves in the first audio field the
    tag of the temporary file's own name,
    [[sound:inferanki-speechify-tts-<time>.<format>]], provided that name
    has no path separator. *)
Theorem test_mode_tag_names_temp_file
  (self : Processor) (env : Env) (w : World) :
  mw_col env = false ->
  forallb (not_sep env) (temp_name self env) = true ->
  fst (process_text self env w) = Ok true ->
  exists n f,
    note w = Some n
    /\ find_audio_field n = Some f
    /\ option_map (note_get f) (note (snd (process_text self env w)))
       = Some (Some (sound_tag (temp_name self env))).
Proof.
  intros Hcol Hname H.
  destruct (process_success self env w H)
    as [n [f [m [bytes [Hn [Hf [_ [Hm [N' _]]]]]]]]].
  unfold media_name_of in Hm. rewrite Hcol in Hm.
  change (temp_path self env)
    with (path_join env (tempdir env) (temp_name self env)) in Hm.
  rewrite (basename_path_join env _ _ Hname) in Hm. injection Hm as <-.
  exists n, f. split; [exact Hn|]. split; [exact Hf|].
  rewrite N'. cbn [option_map]. f_equal.
  destruct (find_audio_field_first n f Hf) as [_ [_ [_ [Hh _]]]].
  now apply note_get_set.
Qed.

Lemma test_mode_tag_names_temp_file_witness :
  mw_col env_test_mode = false
  /\ forallb (not_sep env_test_mode) (temp_name proc_default env_test_mode)
     = true
  /\ fst (process_text proc_default env_test_mode (world_of note_with_audio))
     = Ok true
  /\ exists n f,
       note (world_of note_with_audio) = Some n
       /\ find_audio_field n = Some f
       /\ option_map (note_get f)
            (note (snd (process_text proc_default env_test_mode
                          (world_of note_with_audio))))
          = Some (Some (sound_tag (temp_name proc_default env_test_mode))).
Proof.
  split; [reflexivity|]. split; [vm_compute; reflexivity|].
  split; [vm_compute; reflexivity|].
  apply (test_mode_tag_names_temp_file proc_default env_test_mode
           (world_of note_with_audio));
    [reflexivity | vm_compute; reflexivity | vm_compute; reflexivity].
Defined.
